(** * open-machina: the interruption arbitration core

    A shallow embedding of the arbitration core of the open-machina plugin
    and of the properties stated about it:

    - [autonomy] (open-machina-shared): [parseDecision], [parseParallelPlan],
      [decideOrchestration];
    - [index.ts] (open-machina-plugin): the judge policy ([dedupeModelRefs],
      [isPolicyAllowed]), the catalog check ([validateJudgeTarget]), the
      credential cascade ([pickAuthToken], [resolveJudgeToken]), the judge
      runtime resolver ([resolveJudgeRuntime]), the work item tracker
      ([tool.execute.before], [tool.execute.after]) and the session
      arbitration ([chat.message], [applyDefer], [applyParallel],
      [abortSession]), the tools [open_machina_decide] and
      [open_machina_workspace], and the registration of the plugin
      ([resolvePluginRegistration], [getPluginStatus]).

    Conventions of the embedding.

    - A JavaScript string is a [string] holding its UTF-8 encoding (what a
      string literal of this file denotes).  Comparison with a constant,
      emptiness, concatenation and search of an ASCII needle are then the
      operations of [string].
    - A JavaScript number is a rational [Q]: the code compares numbers with
      0, 1 and 32 and floors them, nothing else.  A number literal read by
      [JSON_parse] is kept at its exact decimal value (the rounding to
      binary64 of the platform is not part of the model).
    - [undefined] is [None]; a value of type [unknown] is a [JValue].
    - An asynchronous function that may reject is a function to [Result];
      a function that also talks to the outside is a state transformer
      [W -> Result A * W]. *)

From Stdlib Require Import Ascii QArith Qround.
From Stdlib Require String.
From stdpp Require Import base option list sorting strings pretty gmap.

Local Open Scope Z_scope.

(** ** Strings *)

Module Str.

Definition code (c : ascii) : N := Ascii.N_of_ascii c.

Definition chars (s : string) : list ascii := String.list_ascii_of_string s.
Definition pack (l : list ascii) : string := String.string_of_list_ascii l.

(** [s.length === 0] *)
Definition is_empty (s : string) : bool :=
  match s with EmptyString => true | String _ _ => false end.

Fixpoint prefix_rest (p s : list ascii) : option (list ascii) :=
  match p with
  | [] => Some s
  | a :: p' =>
      match s with
      | [] => None
      | b :: s' => if Ascii.eqb a b then prefix_rest p' s' else None
      end
  end.

(** [hay.includes(needle)] *)
Fixpoint includes_at (needle hay : list ascii) : bool :=
  match prefix_rest needle hay with
  | Some _ => true
  | None =>
      match hay with
      | [] => false
      | _ :: hay' => includes_at needle hay'
      end
  end.

Definition includes (hay needle : string) : bool :=
  includes_at (chars needle) (chars hay).

(** The white space and line terminators that [String.prototype.trim]
    removes, in UTF-8: U+0009..U+000D and U+0020 (one byte), U+00A0 (two
    bytes), U+1680, U+2000..U+200A, U+2028, U+2029, U+202F, U+205F,
    U+3000 and U+FEFF (three bytes). *)
Definition ws1 (c : ascii) : bool :=
  let n := code c in
  ((9 <=? n) && (n <=? 13) || (n =? 32))%N.

Definition ws2 (c1 c2 : ascii) : bool :=
  ((code c1 =? 194) && (code c2 =? 160))%N.

Definition ws3 (c1 c2 c3 : ascii) : bool :=
  let a := code c1 in
  let b := code c2 in
  let c := code c3 in
  (   (a =? 225) && (b =? 154) && (c =? 128)
   || (a =? 226) && (b =? 128) && ((128 <=? c) && (c <=? 138))
   || (a =? 226) && (b =? 128) && ((c =? 168) || (c =? 169) || (c =? 175))
   || (a =? 226) && (b =? 129) && (c =? 159)
   || (a =? 227) && (b =? 128) && (c =? 128)
   || (a =? 239) && (b =? 187) && (c =? 191))%N.

(** Removal of leading white space; [fwd] tells whether the bytes are read
    in their order ([true]) or from the end of the string ([false]). *)
Fixpoint strip (fwd : bool) (s : list ascii) : list ascii :=
  match s with
  | [] => []
  | c1 :: r1 =>
      if ws1 c1 then strip fwd r1
      else
        match r1 with
        | [] => s
        | c2 :: r2 =>
            if (if fwd then ws2 c1 c2 else ws2 c2 c1) then strip fwd r2
            else
              match r2 with
              | [] => s
              | c3 :: r3 =>
                  if (if fwd then ws3 c1 c2 c3 else ws3 c3 c2 c1)
                  then strip fwd r3
                  else s
              end
        end
  end.

(** [s.trim()] *)
Definition trim (s : string) : string :=
  pack (rev (strip false (rev (strip true (chars s))))).

(** [s.toLowerCase()] on the ASCII letters, and on the Kelvin sign U+212A,
    the one character outside ASCII whose lower case is an ASCII letter.
    The program only searches the result for ASCII words or compares it
    with them, which the other case mappings cannot influence. *)
Definition lower1 (c : ascii) : ascii :=
  let n := code c in
  if ((65 <=? n) && (n <=? 90))%N then Ascii.ascii_of_N (n + 32) else c.

Fixpoint lower (s : list ascii) : list ascii :=
  match s with
  | [] => []
  | c1 :: r1 =>
      match r1 with
      | c2 :: c3 :: r3 =>
          if ((code c1 =? 226) && (code c2 =? 132) && (code c3 =? 170))%N
          then "k"%char :: lower r3
          else lower1 c1 :: lower r1
      | _ => lower1 c1 :: lower r1
      end
  end.

Definition toLowerCase (s : string) : string := pack (lower (chars s)).

(** The line feed, written "\n" in the source. *)
Definition nl : string := String (Ascii.ascii_of_N 10) EmptyString.

(** [parts.join(sep)] *)
Fixpoint join (sep : string) (l : list string) : string :=
  match l with
  | [] => ""
  | [x] => x
  | x :: r => x +:+ sep +:+ join sep r
  end.

(** [s.split(sep)] for a separator of one ASCII character. *)
Fixpoint split_chars (sep : ascii) (cur : list ascii) (s : list ascii)
  : list string :=
  match s with
  | [] => [pack (rev cur)]
  | c :: r =>
      if Ascii.eqb c sep then pack (rev cur) :: split_chars sep [] r
      else split_chars sep (c :: cur) r
  end.

Definition split (sep : ascii) (s : string) : list string :=
  split_chars sep [] (chars s).

(** [String(n)] for an integer [n]. *)
Definition of_nat (n : nat) : string := pretty n.

Definition of_Z (z : Z) : string := pretty z.

(** JSON texts are written in this file with an apostrophe where the
    text has a double quote: [quoted "{'a': 1}"] is the text of the object
    with the one member [a]. *)
Definition quoted (s : string) : string :=
  pack (map (fun c => if Ascii.eqb c "'" then "034"%char else c) (chars s)).

End Str.

(** JavaScript truthiness of an optional string: [undefined] and [""] are
    falsy. *)
Definition truthy (o : option string) : option string :=
  match o with
  | Some s => if Str.is_empty s then None else Some s
  | None => None
  end.

(** [a || b] on optional strings. *)
Definition or_else (a : option string) (b : option string) : option string :=
  match truthy a with
  | Some s => Some s
  | None => b
  end.


(** ** JavaScript values and [JSON.parse] *)

(** The values [JSON.parse] builds, which also stand for the values of type
    [unknown] that the host hands to the plugin.  An object keeps its
    members in the order of the text. *)
#[local] Unset Elimination Schemes.
Inductive JValue : Type :=
| JNull
| JBool (b : bool)
| JNumber (q : Q)
| JString (s : string)
| JArray (items : list JValue)
| JObject (members : list (string * JValue)).
#[local] Set Elimination Schemes.

Module Json.

(** [isRecord(value)]: [typeof value === "object" && value !== null]. *)
Definition isRecord (v : JValue) : bool :=
  match v with
  | JArray _ | JObject _ => true
  | _ => false
  end.

(** Own member of an object: the last member of that name wins, as in
    [JSON.parse]. *)
Fixpoint member (k : string) (l : list (string * JValue)) : option JValue :=
  match l with
  | [] => None
  | (k', v) :: r =>
      match member k r with
      | Some w => Some w
      | None => if String.eqb k' k then Some v else None
      end
  end.

(** The canonical array index that a property name denotes. *)
Definition index_of_key (k : string) : option nat :=
  match k with
  | EmptyString => None
  | String c r =>
      if Ascii.eqb c "0" && negb (Str.is_empty r) then None
      else
        foldl (fun acc d =>
                 match acc, Ascii.is_nat d with
                 | Some n, Some i => Some (10 * n + i)%nat
                 | _, _ => None
                 end) (Some 0%nat) (Str.chars k)
  end.

(** [value[k]] (or [value.k]) on a record.  Properties found on the
    prototype chain only (methods, [constructor], [__proto__]) and the
    [length] of an array are given as [None]: they are functions, a
    number, or a prototype object without any of the members the program
    reads, and the program treats each of them as it treats
    [undefined].  (Where the program asks whether such a property exists,
    with the [in] operator, the model asks [builtin_property] of the
    host.) *)
Definition get (v : JValue) (k : string) : option JValue :=
  match v with
  | JObject l => member k l
  | JArray l =>
      match index_of_key k with
      | Some i => l !! i
      | None => None
      end
  | _ => None
  end.

(** *** Lexical analysis *)

Inductive Token : Type :=
| TLBrace | TRBrace | TLBracket | TRBracket | TColon | TComma
| TStr (s : string)
| TNum (q : Q)
| TTrue | TFalse | TNull.

(** JSON white space: space, tab, line feed, carriage return. *)
Definition is_ws (c : ascii) : bool :=
  let n := Str.code c in
  ((n =? 32) || (n =? 9) || (n =? 10) || (n =? 13))%N.

Definition punct (c : ascii) : option Token :=
  match c with
  | "{" => Some TLBrace
  | "}" => Some TRBrace
  | "[" => Some TLBracket
  | "]" => Some TRBracket
  | ":" => Some TColon
  | "," => Some TComma
  | _ => None
  end%char.

(** UTF-8 (generalised to lone surrogates) of a code point. *)
Definition byte (n : N) : ascii := Ascii.ascii_of_N n.

Definition utf8 (cp : N) : list ascii :=
  (if cp <? 128 then [byte cp]
   else if cp <? 2048 then
     [byte (192 + cp / 64); byte (128 + cp mod 64)]
   else if cp <? 65536 then
     [byte (224 + cp / 4096); byte (128 + (cp / 64) mod 64);
      byte (128 + cp mod 64)]
   else
     [byte (240 + cp / 262144); byte (128 + (cp / 4096) mod 64);
      byte (128 + (cp / 64) mod 64); byte (128 + cp mod 64)])%N.

(** The text of a string literal read so far, reversed, and the high
    surrogate of a [\u] escape that still waits for its low half. *)
Definition flush (acc : list ascii) (hi : option N) : list ascii :=
  match hi with
  | Some h => rev (utf8 h) ++ acc
  | None => acc
  end.

Definition push_unit (acc : list ascii) (hi : option N) (u : N)
  : list ascii * option N :=
  (if (55296 <=? u) && (u <? 56320) then (flush acc hi, Some u)
   else if (56320 <=? u) && (u <? 57344) then
     match hi with
     | Some h =>
         (rev (utf8 (65536 + (h - 55296) * 1024 + (u - 56320))) ++ acc, None)
     | None => (rev (utf8 u) ++ acc, None)
     end
   else (rev (utf8 u) ++ flush acc hi, None))%N.

Definition hex_digit (c : ascii) : option N :=
  let n := Str.code c in
  (if (48 <=? n) && (n <=? 57) then Some (n - 48)
   else if (65 <=? n) && (n <=? 70) then Some (n - 55)
   else if (97 <=? n) && (n <=? 102) then Some (n - 87)
   else None)%N.

Definition simple_escape (c : ascii) : option ascii :=
  match c with
  | "034" => Some "034"
  | "\" => Some "\"
  | "/" => Some "/"
  | "b" => Some (byte 8)
  | "f" => Some (byte 12)
  | "n" => Some (byte 10)
  | "r" => Some (byte 13)
  | "t" => Some (byte 9)
  | _ => None
  end%char.

(** Numbers: an optional minus sign, an integer part without a leading
    zero (unless it is the digit 0 alone), an optional fraction (a dot and
    at least one digit), an optional exponent (e or E, an optional sign, at
    least one digit). *)
Fixpoint span_digits (s : list ascii) : list nat * list ascii :=
  match s with
  | [] => ([], [])
  | c :: r =>
      match Ascii.is_nat c with
      | Some d => let '(ds, rest) := span_digits r in (d :: ds, rest)
      | None => ([], s)
      end
  end.

Definition digits_value (ds : list nat) : Z :=
  foldl (fun acc d => 10 * acc + Z.of_nat d) 0 ds.

Definition number_exponent (s : list ascii) : option Z :=
  match s with
  | [] => Some 0
  | c :: r =>
      if Ascii.eqb c "e" || Ascii.eqb c "E" then
        let '(neg, r') :=
          match r with
          | "-"%char :: t => (true, t)
          | "+"%char :: t => (false, t)
          | _ => (false, r)
          end in
        match span_digits r' with
        | ((_ :: _) as ds, []) =>
            Some (if neg : bool then - digits_value ds else digits_value ds)
        | _ => None
        end
      else None
  end.

Definition number_of_word (w : list ascii) : option Q :=
  let '(neg, w1) :=
    match w with
    | "-"%char :: t => (true, t)
    | _ => (false, w)
    end in
  let '(ip, w2) := span_digits w1 in
  let int_ok :=
    match ip with
    | [] => false
    | [ _ ] => true
    | d :: _ => negb (Nat.eqb d 0)
    end in
  if negb int_ok then None
  else
    let frac :=
      match w2 with
      | "."%char :: t =>
          match span_digits t with
          | ((_ :: _) as fp, w3) => Some (fp, w3)
          | _ => None
          end
      | _ => Some ([], w2)
      end in
    match frac with
    | None => None
    | Some (fp, w3) =>
        match number_exponent w3 with
        | None => None
        | Some e =>
            let m := digits_value (ip ++ fp) in
            let m := if neg : bool then - m else m in
            let e := e - Z.of_nat (length fp) in
            Some (Qred (if 0 <=? e then inject_Z (m * 10 ^ e)
                        else Qmake m (Z.to_pos (10 ^ (- e)))))
        end
    end.

Definition word_token (w : list ascii) : option Token :=
  let s := Str.pack w in
  if String.eqb s "true" then Some TTrue
  else if String.eqb s "false" then Some TFalse
  else if String.eqb s "null" then Some TNull
  else TNum <$> number_of_word w.

Inductive LexState : Type :=
| LStart
| LWord (w : list ascii)
| LStr (acc : list ascii) (hi : option N)
| LEsc (acc : list ascii) (hi : option N)
| LUni (acc : list ascii) (hi : option N) (ds : list N).

(** One pass over the text.  A word (number or literal name) runs up to
    the next white space, punctuation or quote. *)
Fixpoint lex (st : LexState) (out : list Token) (s : list ascii)
  : option (list Token) :=
  match s with
  | [] =>
      match st with
      | LStart => Some (rev out)
      | LWord w =>
          match word_token (rev w) with
          | Some t => Some (rev (t :: out))
          | None => None
          end
      | _ => None
      end
  | c :: r =>
      match st with
      | LStart =>
          if is_ws c then lex LStart out r
          else
            match punct c with
            | Some p => lex LStart (p :: out) r
            | None =>
                if Ascii.eqb c "034" then lex (LStr [] None) out r
                else lex (LWord [c]) out r
            end
      | LWord w =>
          if is_ws c || bool_decide (is_Some (punct c)) || Ascii.eqb c "034"
          then
            match word_token (rev w) with
            | None => None
            | Some t =>
                match punct c with
                | Some p => lex LStart (p :: t :: out) r
                | None =>
                    if is_ws c then lex LStart (t :: out) r
                    else lex (LStr [] None) (t :: out) r
                end
            end
          else lex (LWord (c :: w)) out r
      | LStr acc hi =>
          if Ascii.eqb c "034" then
            lex LStart (TStr (Str.pack (rev (flush acc hi))) :: out) r
          else if Ascii.eqb c "\" then lex (LEsc acc hi) out r
          else if (Str.code c <? 32)%N then None
          else lex (LStr (c :: flush acc hi) None) out r
      | LEsc acc hi =>
          if Ascii.eqb c "u" then lex (LUni acc hi []) out r
          else
            match simple_escape c with
            | Some e => lex (LStr (e :: flush acc hi) None) out r
            | None => None
            end
      | LUni acc hi ds =>
          match hex_digit c with
          | None => None
          | Some d =>
              match ds with
              | [d1; d2; d3] =>
                  let u := (((d1 * 16 + d2) * 16 + d3) * 16 + d)%N in
                  let '(acc', hi') := push_unit acc hi u in
                  lex (LStr acc' hi') out r
              | _ => lex (LUni acc hi (ds ++ [d])) out r
              end
          end
      end
  end.

(** *** Syntax analysis: a pushdown automaton over the tokens *)

Inductive Frame : Type :=
| FArr (acc : list JValue)
| FObj (acc : list (string * JValue))
| FField (acc : list (string * JValue)) (key : string).

Inductive Mode : Type :=
| MValue | MArrFirst | MObjFirst | MKey | MColon | MAfter
| MDone (v : JValue).

Definition complete (v : JValue) (stack : list Frame)
  : option (Mode * list Frame) :=
  match stack with
  | [] => Some (MDone v, [])
  | FArr acc :: st => Some (MAfter, FArr (v :: acc) :: st)
  | FField acc k :: st => Some (MAfter, FObj ((k, v) :: acc) :: st)
  | FObj _ :: _ => None
  end.

Definition value_start (t : Token) (stack : list Frame)
  : option (Mode * list Frame) :=
  match t with
  | TStr s => complete (JString s) stack
  | TNum q => complete (JNumber q) stack
  | TTrue => complete (JBool true) stack
  | TFalse => complete (JBool false) stack
  | TNull => complete JNull stack
  | TLBracket => Some (MArrFirst, FArr [] :: stack)
  | TLBrace => Some (MObjFirst, FObj [] :: stack)
  | _ => None
  end.

Definition key_start (t : Token) (stack : list Frame)
  : option (Mode * list Frame) :=
  match t, stack with
  | TStr k, FObj acc :: st => Some (MColon, FField acc k :: st)
  | _, _ => None
  end.

Definition step (m : Mode) (stack : list Frame) (t : Token)
  : option (Mode * list Frame) :=
  match m with
  | MValue => value_start t stack
  | MArrFirst =>
      match t, stack with
      | TRBracket, FArr _ :: st => complete (JArray []) st
      | _, _ => value_start t stack
      end
  | MObjFirst =>
      match t, stack with
      | TRBrace, FObj _ :: st => complete (JObject []) st
      | _, _ => key_start t stack
      end
  | MKey => key_start t stack
  | MColon =>
      match t with
      | TColon => Some (MValue, stack)
      | _ => None
      end
  | MAfter =>
      match stack, t with
      | FArr _ :: _, TComma => Some (MValue, stack)
      | FArr acc :: st, TRBracket => complete (JArray (rev acc)) st
      | FObj _ :: _, TComma => Some (MKey, stack)
      | FObj acc :: st, TRBrace => complete (JObject (rev acc)) st
      | _, _ => None
      end
  | MDone _ => None
  end.

Fixpoint run (m : Mode) (stack : list Frame) (ts : list Token)
  : option JValue :=
  match ts with
  | [] =>
      match m with
      | MDone v => Some v
      | _ => None
      end
  | t :: ts' =>
      match step m stack t with
      | Some (m', stack') => run m' stack' ts'
      | None => None
      end
  end.

(** [JSON.parse(text)]; [None] when it throws. *)
Definition parse (text : string) : option JValue :=
  match lex LStart [] (Str.chars text) with
  | Some ts => run MValue [] ts
  | None => None
  end.

(** [raw.match(/\{[\s\S]*\}/)]: from the first opening brace to the last
    closing brace after it. *)
Fixpoint upto_last_close (s : list ascii) : option (list ascii) :=
  match s with
  | [] => None
  | c :: r =>
      match upto_last_close r with
      | Some t => Some (c :: t)
      | None => if Ascii.eqb c "}" then Some [c] else None
      end
  end.

Fixpoint brace_span (s : list ascii) : option (list ascii) :=
  match s with
  | [] => None
  | c :: r =>
      if Ascii.eqb c "{" then
        match upto_last_close r with
        | Some t => Some (c :: t)
        | None => None
        end
      else brace_span r
  end.

Definition match_braces (raw : string) : option string :=
  Str.pack <$> brace_span (Str.chars raw).

End Json.

Abbreviation JSON_parse := Json.parse.
Abbreviation isRecord := Json.isRecord.

(** ** Results and effects *)

(** The outcome of a call that may throw (or of a promise that may be
    rejected). *)
Inductive Result (A : Type) : Type :=
| Ok (a : A)
| Throw (message : string).
Arguments Ok {A} a.
Arguments Throw {A} message.

(** A computation that reads and changes a world [W] and may throw.  What
    it did to the world before it threw stays done. *)
Definition M (W A : Type) : Type := W -> Result A * W.

Definition ret {W A} (a : A) : M W A := fun w => (Ok a, w).

Definition throw {W A} (message : string) : M W A :=
  fun w => (Throw message, w).

Definition bind {W A B} (c : M W A) (k : A -> M W B) : M W B :=
  fun w =>
    match c w with
    | (Ok a, w') => k a w'
    | (Throw e, w') => (Throw e, w')
    end.

(** [c.catch(() => undefined)]: a rejection becomes [None]. *)
Definition catch {W A} (c : M W A) : M W (option A) :=
  fun w =>
    match c w with
    | (Ok a, w') => (Ok (Some a), w')
    | (Throw _, w') => (Ok None, w')
    end.

Definition lift {W A} (r : Result A) : M W A := fun w => (r, w).

Declare Scope m_scope.
Delimit Scope m_scope with M.
Notation "x <- c ;; k" := (bind c (fun x => k))
  (at level 20, c at level 99, k at level 200, only parsing)
  : m_scope.

(** ** The decision protocol (open-machina-shared, autonomy) *)

Inductive OrchestrationAction : Type := Abort | Defer | Parallel | Continue.

Inductive Priority : Type := Critical | High | Medium | Low.

Inductive Lane : Type := Foreground | Background.

Record ParallelPlan : Type := {
  lane : Lane;
  maxConcurrency : Z
}.

Record OrchestrationDecision : Type := {
  action : OrchestrationAction;
  confidence : Q;
  reason : string;
  priority : Priority;
  deferUntil : option string;
  parallelPlan : option ParallelPlan
}.

Definition action_name (a : OrchestrationAction) : string :=
  match a with
  | Abort => "abort"
  | Defer => "defer"
  | Parallel => "parallel"
  | Continue => "continue"
  end.

Definition priority_name (p : Priority) : string :=
  match p with
  | Critical => "critical"
  | High => "high"
  | Medium => "medium"
  | Low => "low"
  end.

Definition lane_name (l : Lane) : string :=
  match l with
  | Foreground => "foreground"
  | Background => "background"
  end.

(** [isAction(value)], with the action it recognises. *)
Definition isAction (value : option JValue) : option OrchestrationAction :=
  match value with
  | Some (JString s) =>
      if String.eqb s "abort" then Some Abort
      else if String.eqb s "defer" then Some Defer
      else if String.eqb s "parallel" then Some Parallel
      else if String.eqb s "continue" then Some Continue
      else None
  | _ => None
  end.

(** [isPriority(value)], with the priority it recognises. *)
Definition isPriority (value : option JValue) : option Priority :=
  match value with
  | Some (JString s) =>
      if String.eqb s "critical" then Some Critical
      else if String.eqb s "high" then Some High
      else if String.eqb s "medium" then Some Medium
      else if String.eqb s "low" then Some Low
      else None
  | _ => None
  end.

Definition Qltb (a b : Q) : bool := negb (Qle_bool b a).

(** [Math.max(1, Math.min(32, Math.floor(n)))] *)
Definition clampConcurrency (n : Q) : Z := Z.max 1 (Z.min 32 (Qfloor n)).

Definition parseParallelPlan (input : option JValue) : option ParallelPlan :=
  match input with
  | Some v =>
      if negb (isRecord v) then None
      else
        let lane := Json.get v "lane" in
        let maxConcurrency := Json.get v "maxConcurrency" in
        match lane, maxConcurrency with
        | Some (JString l), Some (JNumber n) =>
            if String.eqb l "foreground" then
              Some {| lane := Foreground; maxConcurrency := clampConcurrency n |}
            else if String.eqb l "background" then
              Some {| lane := Background; maxConcurrency := clampConcurrency n |}
            else None
        | _, _ => None
        end
  | None => None
  end.

(** The first statement of [parseDecision]: [JSON.parse(raw)], and when
    that throws, [JSON.parse] of the first span of braces. *)
Definition parseRaw (raw : string) : option JValue :=
  match JSON_parse raw with
  | Some parsed => Some parsed
  | None =>
      match Json.match_braces raw with
      | None => None
      | Some m => JSON_parse m
      end
  end.

(** The rest of [parseDecision], from [if (!isRecord(parsed))] on. *)
Definition decisionOf (parsed : JValue) : option OrchestrationDecision :=
  if negb (isRecord parsed) then None
  else
    let action := Json.get parsed "action" in
    let confidence := Json.get parsed "confidence" in
    let reason := Json.get parsed "reason" in
    let priority := Json.get parsed "priority" in
    match isAction action, confidence with
    | Some a, Some (JNumber c) =>
        if Qltb c 0 || Qltb 1 c then None
        else
          match reason, isPriority priority with
          | Some (JString r), Some p =>
              if Str.is_empty (Str.trim r) then None
              else
                let deferUntil :=
                  match Json.get parsed "deferUntil" with
                  | Some (JString s) => if Str.is_empty s then None else Some s
                  | _ => None
                  end in
                let parallelPlan :=
                  parseParallelPlan (Json.get parsed "parallelPlan") in
                Some {| action := a;
                        confidence := c;
                        reason := Str.trim r;
                        priority := p;
                        deferUntil := deferUntil;
                        parallelPlan := parallelPlan |}
          | _, _ => None
          end
    | _, _ => None
    end.

Definition parseDecision (raw : string) : option OrchestrationDecision :=
  match parseRaw raw with
  | None => None
  | Some parsed => decisionOf parsed
  end.

Definition shouldInterrupt (decision : OrchestrationDecision) : bool :=
  match action decision with
  | Abort | Parallel => true
  | _ => false
  end.

Definition DECISION_SCHEMA : string :=
  Str.join Str.nl [
    "Return strict JSON only with keys:";
    "action: abort|defer|parallel|continue";
    "confidence: number between 0 and 1";
    "reason: concise rationale";
    "priority: critical|high|medium|low";
    "deferUntil: optional ISO timestamp";
    "parallelPlan: optional { lane: foreground|background, maxConcurrency: number }"
  ].

Definition repairPrompt : string :=
  Str.join Str.nl [
    "Your previous answer was invalid.";
    DECISION_SCHEMA;
    "Return one valid JSON object now."
  ].

Definition INVALID_DECISION : string :=
  "ORCHESTRATION_DECISION_INVALID: judge response did not return valid decision JSON".

Section Decide.

(** [JSON.stringify(value, null, 2)] of the platform: the program sends its
    result to the judge and never looks into it. *)
Variable JSON_stringify : JValue -> string.

(** The world the judge lives in (a counter of calls in the tests, the
    network in the plugin). *)
Context {W : Type}.

Definition OrchestrationJudge : Type := string -> M W string.

Definition createDecisionPrompt (input : JValue) : string :=
  Str.join Str.nl [
    "You are open-machina orchestration judge.";
    "Decide interruption strategy for current active work.";
    "Do not use static rules. Make contextual judgement.";
    "Primary objective: maximize user goal completion while preventing direct harm.";
    DECISION_SCHEMA;
    "";
    "Input JSON:";
    JSON_stringify input
  ].

Definition decideOrchestration (input : JValue) (judge : OrchestrationJudge)
  : M W OrchestrationDecision :=
  (let prompt := createDecisionPrompt input in
   first <- judge prompt ;;
   match parseDecision first with
   | Some parsedFirst => ret parsedFirst
   | None =>
       repair <- judge repairPrompt ;;
       match parseDecision repair with
       | Some parsedRepair => ret parsedRepair
       | None => throw INVALID_DECISION
       end
   end)%M.

End Decide.

(** ** The judge policy (open-machina-plugin, index.ts) *)

Record ModelRef : Type := {
  providerID : string;
  modelID : string
}.

Record JudgePolicy : Type := {
  allow : list ModelRef;
  deny : list ModelRef;
  fallback : list ModelRef
}.

Record JudgeConfig : Type := {
  cfg_providerID : string;
  cfg_apiUrl : option string;
  cfg_modelID : string;
  cfg_authProviderID : string
}.

Record JudgeRuntime : Type := {
  rt_providerID : string;
  rt_modelID : string;
  rt_apiUrl : string;
  rt_token : string
}.

(** The identity key, [`${item.providerID}/${item.modelID}`]. *)
Definition ref_key (item : ModelRef) : string :=
  providerID item +:+ "/" +:+ modelID item.

(** The loop of [dedupeModelRefs]: [keys] is the set of the keys seen, [out]
    the array built so far. *)
Definition dedupe_step (st : gset string * list ModelRef) (item : ModelRef)
  : gset string * list ModelRef :=
  let '(keys, out) := st in
  let key := ref_key item in
  if bool_decide (key ∈ keys) then (keys, out)
  else ({[ key ]} ∪ keys, out ++ [item]).

Definition dedupeModelRefs (items : list ModelRef) : list ModelRef :=
  snd (foldl dedupe_step (∅, []) items).

(** [items.some(item => key(item) === key)] *)
Definition some_key (items : list ModelRef) (key : string) : bool :=
  existsb (fun item => String.eqb (ref_key item) key) items.

Definition isPolicyAllowed (policy : JudgePolicy) (target : ModelRef) : bool :=
  let key := ref_key target in
  let denied := some_key (deny policy) key in
  if denied then false
  else if Nat.eqb (length (allow policy)) 0 then true
  else some_key (allow policy) key.

Definition parseModelRefItem (item : string) : option ModelRef :=
  match Str.split "/" item with
  | [p; m] =>
      let providerID := Str.trim p in
      let modelID := Str.trim m in
      if Str.is_empty providerID || Str.is_empty modelID then None
      else Some {| providerID := providerID; modelID := modelID |}
  | _ => None
  end.

Definition parseModelRefList (value : option string) : list ModelRef :=
  match truthy value with
  | None => []
  | Some value =>
      omap parseModelRefItem
        (filter (fun item => Str.is_empty item = false)
           (map Str.trim (Str.split "," value)))
  end.

Definition readJudgePolicy (env : gmap string string) : JudgePolicy :=
  {| allow := parseModelRefList (env !! "MACHINA_JUDGE_ALLOW_MODELS");
     deny := parseModelRefList (env !! "MACHINA_JUDGE_DENY_MODELS");
     fallback := parseModelRefList (env !! "MACHINA_JUDGE_FALLBACK_MODELS") |}.

(** [env.NAME?.trim()] *)
Definition env_trim (env : gmap string string) (name : string)
  : option string :=
  Str.trim <$> env !! name.

Definition readJudgeConfig (env : gmap string string) : option JudgeConfig :=
  let providerID :=
    default "openai" (truthy (env_trim env "MACHINA_JUDGE_PROVIDER")) in
  let modelID := env_trim env "MACHINA_JUDGE_MODEL" in
  let authProviderID :=
    default "open-machina-judge"
      (truthy (env_trim env "MACHINA_JUDGE_AUTH_PROVIDER")) in
  let apiUrl := env_trim env "MACHINA_JUDGE_API_URL" in
  match truthy modelID with
  | None => None
  | Some modelID =>
      Some {| cfg_providerID := providerID;
              cfg_apiUrl := apiUrl;
              cfg_modelID := modelID;
              cfg_authProviderID := authProviderID |}
  end.

Definition inferJudgeApiUrl (providerID : string) : option string :=
  let provider := Str.toLowerCase (Str.trim providerID) in
  if String.eqb provider "openai" then
    Some "https://api.openai.com/v1/chat/completions"
  else if String.eqb provider "openrouter" then
    Some "https://openrouter.ai/api/v1/chat/completions"
  else if String.eqb provider "xai" then
    Some "https://api.x.ai/v1/chat/completions"
  else None.

(** ** The host *)

(** What the plugin reads from its surroundings during one hook or tool
    call, as the values it gets:
    - [env]: [process.env];
    - [provider_list]: [client.provider?.list], absent ([None]) or the
      value [list({}).catch(() => undefined)] settles to;
    - [has_abort], [has_promptAsync], [has_prompt]: which of
      [client.session.abort], [.promptAsync], [.prompt] exist;
    - [default_auth_path]:
      [path.join(os.homedir(), ".config", "opencode", "auth.json")];
    - [read_json p]: [Bun.file(p).json().catch(() => undefined)];
    - [builtin_property v k]: whether the record [v] has a property [k]
      that is no member of the JSON value: one of its prototype chain
      ([constructor], [toString], ...) or the [length] of an array; the
      [in] operator sees such names;
    - [identity_name]: the [name] that [info()] resolves to, or its
      rejection. *)
Record Host : Type := {
  env : gmap string string;
  provider_list : option (option JValue);
  has_abort : bool;
  has_promptAsync : bool;
  has_prompt : bool;
  default_auth_path : string;
  read_json : string -> option JValue;
  builtin_property : JValue -> string -> bool;
  identity_name : Result string
}.

(** ** The catalog validator *)

Definition unwrapClientData (h : Host) (payload : option JValue)
  : option JValue :=
  match payload with
  | Some p =>
      if isRecord p
         && (bool_decide (is_Some (Json.get p "data")) || builtin_property h p "data")
      then Json.get p "data"
      else payload
  | None => None
  end.

(** [Object.keys(o)] of a record: the indices of an array; the names of an
    object in the order of the text, each once, the names that are array
    indices first and in ascending order. *)
Definition is_index_key (k : string) : bool :=
  match Json.index_of_key k with
  | Some n => (N.of_nat n <? 4294967295)%N
  | None => false
  end.

Definition key_index (k : string) : nat :=
  default 0%nat (Json.index_of_key k).

Definition key_le (a b : string) : Prop := (key_index a <= key_index b)%nat.

#[local] Instance key_le_dec : RelDecision key_le.
Proof. intros a b. unfold key_le. apply _. Defined.

(** The names of the members in the order of their first occurrence. *)
Fixpoint distinct_names (seen : list string) (names : list string)
  : list string :=
  match names with
  | [] => []
  | k :: rest =>
      if bool_decide (k ∈ seen) then distinct_names seen rest
      else k :: distinct_names (k :: seen) rest
  end.

Definition object_keys (v : JValue) : list string :=
  match v with
  | JArray l => map Str.of_nat (seq 0 (length l))
  | JObject l =>
      let names := distinct_names [] (map fst l) in
      merge_sort key_le
        (filter (fun k => is_index_key k = true) names)
      ++ filter (fun k => is_index_key k = false) names
  | _ => []
  end.

(** [k in v] for a record [v]. *)
Definition has_property (h : Host) (v : JValue) (k : string) : bool :=
  bool_decide (is_Some (Json.get v k)) || builtin_property h v k.

Definition id_is (providerID : string) (item : JValue) : bool :=
  isRecord item &&
  match Json.get item "id" with
  | Some (JString s) => String.eqb s providerID
  | _ => false
  end.

Definition string_id (item : JValue) : option string :=
  if isRecord item then
    match Json.get item "id" with
    | Some (JString s) => Some s
    | _ => None
    end
  else None.

Definition validateJudgeTarget (h : Host) (providerID modelID : string)
  : option string :=
  match provider_list h with
  | None => None
  | Some response =>
      match unwrapClientData h response with
      | Some ((JArray _ | JObject _) as data) =>
          match Json.get data "all" with
          | Some (JArray all) =>
              match List.find (id_is providerID) all with
              | None =>
                  let options := take 8 (omap string_id all) in
                  Some ("AUTONOMY_JUDGE_INVALID_PROVIDER: provider "
                        +:+ providerID +:+ " not found. Available: "
                        +:+ Str.join ", " options)
              | Some provider =>
                  let models := Json.get provider "models" in
                  let ok :=
                    match models with
                    | Some m => isRecord m && has_property h m modelID
                    | None => false
                    end in
                  if ok then None
                  else
                    let options :=
                      take 8 (match models with
                              | Some m => object_keys m
                              | None => []
                              end) in
                    Some ("AUTONOMY_JUDGE_INVALID_MODEL: model "
                          +:+ providerID +:+ "/" +:+ modelID
                          +:+ " not found. Available examples: "
                          +:+ Str.join ", " options)
              end
          | _ => None
          end
      | _ => None
      end
  end.

(** ** The credential resolver *)

(** The test [typeof auth.f === "string" && auth.f.trim().length > 0] of
    [pickAuthToken] on the field [f], with the value [auth.f.trim()] when
    it holds. *)
Definition token_field (auth : JValue) (field : string) : option string :=
  match Json.get auth field with
  | Some (JString s) =>
      if Str.is_empty (Str.trim s) then None else Some (Str.trim s)
  | _ => None
  end.

Definition pickAuthToken (auth : option JValue) : option string :=
  match auth with
  | Some a =>
      if negb (isRecord a) then None
      else
        match Json.get a "type" with
        | Some (JString type) =>
            if String.eqb type "api" && bool_decide (is_Some (token_field a "key"))
            then token_field a "key"
            else if String.eqb type "oauth"
                    && bool_decide (is_Some (token_field a "access"))
            then token_field a "access"
            else if String.eqb type "wellknown"
                    && bool_decide (is_Some (token_field a "token"))
            then token_field a "token"
            else None
        | _ => None
        end
  | None => None
  end.

Definition pickAuthTokenFromStore (payload : option JValue)
  (providerID : string) : option string :=
  match payload with
  | Some p => if isRecord p then pickAuthToken (Json.get p providerID) else None
  | None => None
  end.

(** [getJudgeAuth] is the accessor the host handed to [auth.loader]:
    [None] before the loader ran, otherwise the value
    [getJudgeAuth().catch(() => undefined)] settles to.  [live_auth] is
    [input.getJudgeAuth?.().catch(() => undefined)]. *)
Definition live_auth (getJudgeAuth : option (option JValue)) : option JValue :=
  match getJudgeAuth with
  | Some settled => settled
  | None => None
  end.

Definition resolveJudgeToken (h : Host) (getJudgeAuth : option (option JValue))
  (authProviderID providerID : string) : option string :=
  let live := live_auth getJudgeAuth in
  match truthy (pickAuthToken live) with
  | Some liveToken => Some liveToken
  | None =>
      let pathFromEnv := env_trim (env h) "OPENCODE_AUTH_PATH" in
      let authPath := default (default_auth_path h) (truthy pathFromEnv) in
      let payload := read_json h authPath in
      match truthy (or_else (pickAuthTokenFromStore payload authProviderID)
                            (pickAuthTokenFromStore payload providerID)) with
      | Some authToken => Some authToken
      | None => truthy (env_trim (env h) "MACHINA_JUDGE_API_KEY")
      end
  end.

(** ** The judge runtime resolver *)

(** The loop over the candidates of [resolveJudgeRuntime]: the candidate
    selected, if any, and the reasons of the skips. *)
Fixpoint selectCandidate (h : Host) (policy : JudgePolicy)
  (candidates : list ModelRef) (skips : list string)
  : option ModelRef * list string :=
  match candidates with
  | [] => (None, skips)
  | candidate :: rest =>
      if negb (isPolicyAllowed policy candidate) then
        selectCandidate h policy rest
          (skips ++ ["POLICY_DENY:" +:+ ref_key candidate])
      else
        match validateJudgeTarget h (providerID candidate) (modelID candidate) with
        | Some modelValidation =>
            selectCandidate h policy rest (skips ++ [modelValidation])
        | None => (Some candidate, skips)
        end
  end.

Definition hint_or (hint : option string) (fallback_value : string) : string :=
  default fallback_value (truthy (Str.trim <$> hint)).

(** The [base] of [resolveJudgeRuntime]: the hint where it has a value, the
    configuration otherwise. *)
Definition judge_base (config : JudgeConfig) (modelHint : option ModelRef)
  : ModelRef :=
  {| providerID := hint_or (providerID <$> modelHint) (cfg_providerID config);
     modelID := hint_or (modelID <$> modelHint) (cfg_modelID config) |}.

Definition resolveJudgeRuntime (h : Host) (getJudgeAuth : option (option JValue))
  (modelHint : option ModelRef) : Result (option JudgeRuntime) :=
  match readJudgeConfig (env h) with
  | None => Ok None
  | Some config =>
      let policy := readJudgePolicy (env h) in
      let base := judge_base config modelHint in
      if Str.is_empty (providerID base) || Str.is_empty (modelID base) then Ok None
      else
        let candidates := dedupeModelRefs (base :: fallback policy) in
        match selectCandidate h policy candidates [] with
        | (None, skips) =>
            Throw ("AUTONOMY_JUDGE_POLICY_BLOCKED: no valid model candidate. "
                   +:+ Str.join " | " skips)
        | (Some selected, _) =>
            let providerID := providerID selected in
            let modelID := modelID selected in
            match truthy (resolveJudgeToken h getJudgeAuth
                            (cfg_authProviderID config) providerID) with
            | None => Ok None
            | Some token =>
                Ok (Some
                  {| rt_providerID := providerID;
                     rt_modelID := modelID;
                     rt_apiUrl :=
                       default "https://api.openai.com/v1/chat/completions"
                         (or_else (cfg_apiUrl config) (inferJudgeApiUrl providerID));
                     rt_token := token |})
            end
        end
  end.

(** ** The plugin state *)

Inductive Status : Type := Running | Queued | Blocked.

Record ActiveWorkItem : Type := {
  id : string;
  title : string;
  status : Status;
  item_priority : Priority;
  startedAt : string
}.

Definition status_name (s : Status) : string :=
  match s with
  | Running => "running"
  | Queued => "queued"
  | Blocked => "blocked"
  end.

Definition is_running (s : Status) : bool :=
  match s with
  | Running => true
  | _ => false
  end.

(** The work items are JavaScript objects: they live in a store and the
    arrays of the plugin hold their addresses.  The program allocates items
    (object literals, spreads) and never assigns to a field of one. *)
Abbreviation ref := nat.

Record SessionRuntimeState : Type := {
  deferred : list ref;
  parallel : list ref
}.

Inductive HostCall : Type :=
| CallAbort (sessionID : string)
| CallPromptAsync (sessionID text : string)
| CallPrompt (sessionID text : string).

(** The closure of [OpenMachinaPlugin] ([sessions], [sessionRuntime],
    [getJudgeAuth]) with the store of the work items, the calls made on the
    session control of the host, and the outside [X] (network, clock). *)
Record World (X : Type) : Type := {
  outside : X;
  heap : list ActiveWorkItem;
  sessions : gmap string (list ref);
  sessionRuntime : gmap string SessionRuntimeState;
  getJudgeAuth : option (option JValue);
  calls : list HostCall
}.
Arguments outside {X} _.
Arguments heap {X} _.
Arguments sessions {X} _.
Arguments sessionRuntime {X} _.
Arguments getJudgeAuth {X} _.
Arguments calls {X} _.

(** The platform functions whose result the program passes on without
    looking into it, and the exchanges with the outside:
    - [JSON_stringify v]: [JSON.stringify(v, null, 2)];
    - [Number_toString n]: the text of [n] in a template literal;
    - [toISOString ms]: [new Date(ms).toISOString()];
    - [Date_now]: a reading of the clock;
    - [callJudge config prompt]: the HTTP exchange with the judge, which
      throws [AUTONOMY_JUDGE_FAILED] or the error of the network. *)
Class Platform (X : Type) : Type := {
  JSON_stringify : JValue -> string;
  Number_toString : Q -> string;
  toISOString : Z -> string;
  Date_now : X -> Z * X;
  callJudge : JudgeRuntime -> string -> M X string
}.

Section Plugin.

Context {X : Type} `{Platform X}.

Definition gets {A} (f : World X -> A) : M (World X) A :=
  fun w => (Ok (f w), w).

Definition modify (f : World X -> World X) : M (World X) unit :=
  fun w => (Ok tt, f w).

Definition set_outside (x : X) (w : World X) : World X :=
  {| outside := x; heap := heap w; sessions := sessions w;
     sessionRuntime := sessionRuntime w; getJudgeAuth := getJudgeAuth w;
     calls := calls w |}.

Definition set_heap (hp : list ActiveWorkItem) (w : World X) : World X :=
  {| outside := outside w; heap := hp; sessions := sessions w;
     sessionRuntime := sessionRuntime w; getJudgeAuth := getJudgeAuth w;
     calls := calls w |}.

Definition set_sessions (s : gmap string (list ref)) (w : World X) : World X :=
  {| outside := outside w; heap := heap w; sessions := s;
     sessionRuntime := sessionRuntime w; getJudgeAuth := getJudgeAuth w;
     calls := calls w |}.

Definition set_sessionRuntime (s : gmap string SessionRuntimeState)
  (w : World X) : World X :=
  {| outside := outside w; heap := heap w; sessions := sessions w;
     sessionRuntime := s; getJudgeAuth := getJudgeAuth w;
     calls := calls w |}.

Definition set_getJudgeAuth (a : option (option JValue)) (w : World X)
  : World X :=
  {| outside := outside w; heap := heap w; sessions := sessions w;
     sessionRuntime := sessionRuntime w; getJudgeAuth := a;
     calls := calls w |}.

Definition set_calls (c : list HostCall) (w : World X) : World X :=
  {| outside := outside w; heap := heap w; sessions := sessions w;
     sessionRuntime := sessionRuntime w; getJudgeAuth := getJudgeAuth w;
     calls := c |}.

(** An exchange with the outside. *)
Definition outside_run {A} (c : M X A) : M (World X) A :=
  fun w =>
    match c (outside w) with
    | (r, x) => (r, set_outside x w)
    end.

(** [new Date().toISOString()] and [Date.now()] *)
Definition now_ms : M (World X) Z :=
  outside_run (fun x => let '(ms, x') := Date_now x in (Ok ms, x')).

(** A new object. *)
Definition alloc (item : ActiveWorkItem) : M (World X) ref :=
  fun w => (Ok (length (heap w)), set_heap (heap w ++ [item]) w).

(** A call on the session control of the host; its promise may be
    rejected, which [.catch(() => undefined)] ignores. *)
Definition host_call (c : HostCall) : M (World X) unit :=
  modify (fun w => set_calls (calls w ++ [c]) w).

(** The objects behind an array of addresses. *)
Definition items_of (w : World X) (l : list ref) : list ActiveWorkItem :=
  omap (fun r => heap w !! r) l.

Definition empty_runtime : SessionRuntimeState :=
  {| deferred := []; parallel := [] |}.

(** The runtime state of a session as the plugin sees it (an entry that is
    not there yet is created empty on first access). *)
Definition runtime_of (w : World X) (sessionID : string) : SessionRuntimeState :=
  default empty_runtime (sessionRuntime w !! sessionID).

Definition getSessionRuntime (sessionID : string)
  : M (World X) SessionRuntimeState :=
  fun w =>
    match sessionRuntime w !! sessionID with
    | Some current => (Ok current, w)
    | None =>
        let next := empty_runtime in
        (Ok next, set_sessionRuntime (<[sessionID := next]> (sessionRuntime w)) w)
    end.

(** [runtime.deferred = value] and [runtime.parallel = value], on the
    object that [getSessionRuntime] returned for the session. *)
Definition assign_deferred (sessionID : string) (value : list ref)
  : M (World X) unit :=
  modify (fun w =>
    set_sessionRuntime
      (<[sessionID := {| deferred := value;
                         parallel := parallel (runtime_of w sessionID) |}]>
         (sessionRuntime w)) w).

Definition assign_parallel (sessionID : string) (value : list ref)
  : M (World X) unit :=
  modify (fun w =>
    set_sessionRuntime
      (<[sessionID := {| deferred := deferred (runtime_of w sessionID);
                         parallel := value |}]>
         (sessionRuntime w)) w).

(** ** The work item tracker *)

Definition classifyPriority (tool : string) : Priority :=
  let name := Str.toLowerCase tool in
  if Str.includes name "deploy" || Str.includes name "incident"
     || Str.includes name "backup" then Critical
  else if Str.includes name "workflow" || Str.includes name "channel" then High
  else if Str.includes name "tool" || Str.includes name "storage" then Medium
  else Low.

Record ToolEvent : Type := {
  te_tool : string;
  te_sessionID : string;
  te_callID : string
}.

Definition work_of (w : World X) (sessionID : string) : list ref :=
  default [] (sessions w !! sessionID).

Definition tool_execute_before (evt : ToolEvent) : M (World X) unit :=
  (work <- gets (fun w => work_of w (te_sessionID evt)) ;;
   now <- now_ms ;;
   next <- alloc {| id := te_tool evt +:+ ":" +:+ te_callID evt;
                    title := te_tool evt;
                    status := Running;
                    item_priority := classifyPriority (te_tool evt);
                    startedAt := toISOString now |} ;;
   modify (fun w =>
     set_sessions (<[te_sessionID evt := take 16 (next :: work)]> (sessions w)) w))%M.

Fixpoint mapM {A B} (f : A -> M (World X) B) (l : list A)
  : M (World X) (list B) :=
  match l with
  | [] => ret []
  | a :: r => (b <- f a ;; bs <- mapM f r ;; ret (b :: bs))%M
  end.

Definition tool_execute_after (evt : ToolEvent) : M (World X) unit :=
  (work <- gets (fun w => work_of w (te_sessionID evt)) ;;
   next <- mapM (fun r =>
             item <- gets (fun w => heap w !! r) ;;
             match item with
             | Some item =>
                 if String.eqb (id item) (te_tool evt +:+ ":" +:+ te_callID evt)
                 then alloc {| id := id item;
                               title := title item;
                               status := Queued;
                               item_priority := item_priority item;
                               startedAt := startedAt item |}
                 else ret r
             | None => ret r
             end) work ;;
   modify (fun w => set_sessions (<[te_sessionID evt := next]> (sessions w)) w))%M.

(** ** The session arbitration *)

Definition CONTROL_MARKER : string := "[OPEN-MACHINA CONTROL]".

Definition ABORT_TEXT : string :=
  "open-machina requested interruption due to new higher-priority user intent".

Definition abortSession (h : Host) (sessionID : string) : M (World X) unit :=
  if has_abort h then host_call (CallAbort sessionID)
  else if has_promptAsync h then host_call (CallPromptAsync sessionID ABORT_TEXT)
  else if has_prompt h then host_call (CallPrompt sessionID ABORT_TEXT)
  else ret tt.

(** The title [applyDefer] gives to the deferred copy. *)
Definition defer_marker (top : ActiveWorkItem) (deferUntil : option string)
  : string :=
  match truthy deferUntil with
  | Some deferUntil => title top +:+ " (until " +:+ deferUntil +:+ ")"
  | None => title top
  end.

Definition id_differs (w : World X) (top : ActiveWorkItem) (r : ref) : bool :=
  match heap w !! r with
  | Some item => negb (String.eqb (id item) (id top))
  | None => true
  end.

Definition applyDefer (sessionID : string) (active : list ref)
  (deferUntil : option string) : M (World X) unit :=
  match active with
  | [] => ret tt
  | r0 :: _ =>
      (top <- gets (fun w => heap w !! r0) ;;
       match top with
       | None => ret tt
       | Some top =>
           let marker := defer_marker top deferUntil in
           rest <- gets (fun w =>
                     List.filter (id_differs w top)
                       (deferred (runtime_of w sessionID))) ;;
           copy <- alloc {| id := id top;
                            title := marker;
                            status := Blocked;
                            item_priority := item_priority top;
                            startedAt := startedAt top |} ;;
           assign_deferred sessionID (take 16 (copy :: rest))
       end)%M
  end.

(** [prompt.slice(0, 80)]: the first 80 UTF-16 code units.  A character of
    four bytes counts for two units; when it straddles the limit, the
    slice ends with its high surrogate alone. *)
Fixpoint slice_units (n : nat) (s : list ascii) : list ascii :=
  match n, s with
  | O, _ => []
  | _, [] => []
  | S n', c :: r =>
      if (Str.code c <? 240)%N then
        c :: (if (Str.code c <? 192)%N then slice_units n' r
              else if (Str.code c <? 224)%N then
                take 1 r ++ slice_units n' (drop 1 r)
              else take 2 r ++ slice_units n' (drop 2 r))
      else
        match n' with
        | O =>
            let b1 := Str.code c in
            let b2 := default 0%N (Str.code <$> r !! 0%nat) in
            let b3 := default 0%N (Str.code <$> r !! 1%nat) in
            let cp := (((b1 mod 8) * 64 + b2 mod 64) * 64 + b3 mod 64)%N in
            (* cp: the code point without its six low bits, which the high
               surrogate does not depend on *)
            Json.utf8 (55296 + (cp * 64 - 65536) / 1024)%N
        | S n'' => c :: take 3 r ++ slice_units n'' (drop 3 r)
        end
  end.

Definition slice80 (s : string) : string :=
  Str.pack (slice_units 80 (Str.chars s)).

Definition applyParallel (sessionID : string) (prompt : string)
  (decision : OrchestrationDecision) : M (World X) unit :=
  (let lane :=
     match parallelPlan decision with
     | Some plan => lane plan
     | None => Background
     end in
   let maxConcurrency :=
     match parallelPlan decision with
     | Some plan => maxConcurrency plan
     | None => 1
     end in
   stamp <- now_ms ;;
   started <- now_ms ;;
   item <- alloc {| id := "parallel:" +:+ Str.of_Z stamp;
                    title := lane_name lane +:+ " x" +:+ Str.of_Z maxConcurrency
                             +:+ ": " +:+ slice80 prompt;
                    status := Queued;
                    item_priority := priority decision;
                    startedAt := toISOString started |} ;;
   old <- gets (fun w => parallel (runtime_of w sessionID)) ;;
   assign_parallel sessionID (take 16 (item :: old)))%M.

Definition head_title (w : World X) (l : list ref) : string :=
  match l with
  | [] => "none"
  | r :: _ =>
      match heap w !! r with
      | Some item => title item
      | None => "none"
      end
  end.

Definition formatRuntimeState (w : World X) (state : SessionRuntimeState)
  : string :=
  if Nat.eqb (length (deferred state)) 0 && Nat.eqb (length (parallel state)) 0
  then CONTROL_MARKER +:+ " continue-current-plan"
  else
    Str.join " " [
      CONTROL_MARKER;
      "deferred=" +:+ Str.of_nat (length (deferred state));
      "parallel=" +:+ Str.of_nat (length (parallel state));
      "defer-head=" +:+ head_title w (deferred state);
      "parallel-head=" +:+ head_title w (parallel state)
    ].

Definition inferIntent (text : string) : string :=
  let lower := Str.toLowerCase text in
  if Str.includes lower "urgent" || Str.includes lower "incident"
     || Str.includes lower "now" then "urgent-request"
  else if Str.includes lower "later" || Str.includes lower "defer"
          || Str.includes lower "after" then "deferred-request"
  else if Str.includes lower "parallel" || Str.includes lower "also"
  then "parallel-request"
  else "general-request".

Record Part : Type := {
  part_type : string;
  part_text : option string
}.

Record ChatEvent : Type := {
  ce_sessionID : string;
  ce_model : option ModelRef
}.

Definition item_json (item : ActiveWorkItem) : JValue :=
  JObject [
    ("id", JString (id item));
    ("title", JString (title item));
    ("status", JString (status_name (status item)));
    ("priority", JString (priority_name (item_priority item)));
    ("startedAt", JString (startedAt item))
  ].

Definition input_json (now prompt name : string) (active : list ActiveWorkItem)
  : JValue :=
  JObject [
    ("now", JString now);
    ("userMessage", JString prompt);
    ("userIntent", JString (inferIntent prompt));
    ("persona", JObject [
       ("name", JString name);
       ("traits", JArray [JString "autonomous"; JString "proactive";
                          JString "user-aligned"]);
       ("goals", JArray [JString "maximize user goal completion";
                         JString "maintain continuity"]);
       ("fixedPrinciples", JArray [JString "prevent direct harm to user or humans"])
     ]);
    ("activeWork", JArray (map item_json active));
    ("systemState", JObject [("networkHealth", JString "good")])
  ].

(** The text of the parts of type text, joined and trimmed. *)
Definition prompt_of (parts : list Part) : string :=
  Str.trim
    (Str.join Str.nl
       (omap (fun part =>
                if String.eqb (part_type part) "text" then part_text part
                else None) parts)).

(** The addresses of the running items of a session, most recent first. *)
Definition running_refs (w : World X) (sessionID : string) : list ref :=
  List.filter
    (fun r => match heap w !! r with
              | Some item => is_running (status item)
              | None => false
              end)
    (work_of w sessionID).

(** What the first half of [chat.message] hands to the second half. *)
Record Arbitration : Type := {
  arb_prompt : string;
  arb_active : list ref;
  arb_decision : OrchestrationDecision
}.

(** [chat.message], up to and including [decideOrchestration]: [None] for
    each of the early returns. *)
Definition chat_message_decide (h : Host) (evt : ChatEvent) (parts : list Part)
  : M (World X) (option Arbitration) :=
  (runtime <- getSessionRuntime (ce_sessionID evt) ;;
   active <- gets (fun w => running_refs w (ce_sessionID evt)) ;;
   if Nat.eqb (length active) 0 then ret None
   else
     let prompt := prompt_of parts in
     if Str.is_empty prompt then ret None
     else if Str.includes prompt CONTROL_MARKER then ret None
     else
       auth <- gets getJudgeAuth ;;
       judge <- lift (resolveJudgeRuntime h auth (ce_model evt)) ;;
       match judge with
       | None => ret None
       | Some judge =>
           name <- lift (identity_name h) ;;
           now <- now_ms ;;
           items <- gets (fun w => items_of w active) ;;
           decision <- decideOrchestration JSON_stringify
                         (input_json (toISOString now) prompt name items)
                         (fun judgePrompt =>
                            outside_run (callJudge judge judgePrompt)) ;;
           ret (Some {| arb_prompt := prompt;
                        arb_active := active;
                        arb_decision := decision |})
       end)%M.

Definition when (b : bool) (c : M (World X) unit) : M (World X) unit :=
  if b then c else ret tt.

Definition is_abort (d : OrchestrationDecision) : bool :=
  match action d with Abort => true | _ => false end.

Definition is_defer (d : OrchestrationDecision) : bool :=
  match action d with Defer => true | _ => false end.

Definition is_parallel (d : OrchestrationDecision) : bool :=
  match action d with Parallel => true | _ => false end.

Definition decisionText (decision : OrchestrationDecision) (runtimeText : string)
  : string :=
  Str.join Str.nl [
    "[OPEN-MACHINA ORCHESTRATION DECISION]";
    "action=" +:+ action_name (action decision);
    "priority=" +:+ priority_name (priority decision);
    "confidence=" +:+ Number_toString (confidence decision);
    "reason=" +:+ reason decision;
    runtimeText
  ].

(** The end of [chat.message]: the block is put before the text of the
    first part of type text. *)
Definition inject (parts : list Part) (block : string) : list Part :=
  match list_find (fun part => part_type part = "text") parts with
  | Some (index, part) =>
      let original := default "" (part_text part) in
      <[index := {| part_type := "text";
                    part_text := Some (block +:+ Str.nl +:+ Str.nl +:+ "---"
                                       +:+ Str.nl +:+ Str.nl +:+ original) |}]>
        parts
  | None => parts
  end.

(** [chat.message], from the decision on. *)
Definition chat_message_apply (h : Host) (evt : ChatEvent) (parts : list Part)
  (a : Arbitration) : M (World X) (list Part) :=
  (let sessionID := ce_sessionID evt in
   let decision := arb_decision a in
   u1 <- when (is_abort decision)
           (u <- abortSession h sessionID ;;
            v <- assign_deferred sessionID [] ;;
            assign_parallel sessionID []) ;;
   u2 <- when (is_defer decision)
           (applyDefer sessionID (arb_active a) (deferUntil decision)) ;;
   u3 <- when (is_parallel decision)
           (applyParallel sessionID (arb_prompt a) decision) ;;
   runtimeText <- gets (fun w => formatRuntimeState w (runtime_of w sessionID)) ;;
   ret (inject parts (decisionText decision runtimeText)))%M.

(** The [chat.message] hook: the parts of the outgoing message after it.
    When it throws, the parts are as they were. *)
Definition chat_message (h : Host) (evt : ChatEvent) (parts : list Part)
  : M (World X) (list Part) :=
  (a <- chat_message_decide h evt parts ;;
   match a with
   | None => ret parts
   | Some a => chat_message_apply h evt parts a
   end)%M.

(** ** The [open_machina_decide] tool *)

Definition parseModelRef (value : option JValue) : option ModelRef :=
  match value with
  | Some v =>
      if negb (isRecord v) then None
      else
        match Json.get v "providerID", Json.get v "modelID" with
        | Some (JString p), Some (JString m) =>
            Some {| providerID := p; modelID := m |}
        | _, _ => None
        end
  | None => None
  end.

Definition UNAVAILABLE : string :=
  "AUTONOMY_JUDGE_UNAVAILABLE: run `opencode auth login` for provider open-machina-judge (or set MACHINA_JUDGE_AUTH_PROVIDER) and configure MACHINA_JUDGE_MODEL".

Definition decision_json (d : OrchestrationDecision) : JValue :=
  JObject (
    [("action", JString (action_name (action d)));
     ("confidence", JNumber (confidence d));
     ("reason", JString (reason d));
     ("priority", JString (priority_name (priority d)))]
    ++ match deferUntil d with
       | Some s => [("deferUntil", JString s)]
       | None => []
       end
    ++ match parallelPlan d with
       | Some plan =>
           [("parallelPlan",
             JObject [("lane", JString (lane_name (lane plan)));
                      ("maxConcurrency",
                       JNumber (inject_Z (maxConcurrency plan)))])]
       | None => []
       end).

Definition open_machina_decide (h : Host) (args : JValue)
  : M (World X) string :=
  match Json.get args "input" with
  | Some ((JArray _ | JObject _) as inputArg) =>
      (let modelArg := parseModelRef (Json.get args "model") in
       auth <- gets getJudgeAuth ;;
       judge <- lift (resolveJudgeRuntime h auth modelArg) ;;
       match judge with
       | None => throw UNAVAILABLE
       | Some judge =>
           decision <- decideOrchestration JSON_stringify inputArg
                         (fun prompt => outside_run (callJudge judge prompt)) ;;
           ret (JSON_stringify (decision_json decision))
       end)%M
  | _ => throw "INVALID_INPUT: expected input object"
  end.

(** [auth.loader]: the host hands over its accessor. *)
Definition auth_loader (getAuth : option JValue) : M (World X) unit :=
  modify (set_getJudgeAuth (Some getAuth)).

(** ** The worlds the properties speak of *)

(** [w'] differs from [w] by the outside and by the creation of the empty
    runtime state of a session, at most. *)
Definition same_plugin (w w' : World X) : Prop :=
  heap w' = heap w
  /\ sessions w' = sessions w
  /\ getJudgeAuth w' = getJudgeAuth w
  /\ calls w' = calls w
  /\ forall s, runtime_of w' s = runtime_of w s.

(** The copy that [applyDefer] puts on the deferred queue. *)
Definition deferred_copy (top : ActiveWorkItem) (deferUntil : option string)
  : ActiveWorkItem :=
  {| id := id top;
     title := defer_marker top deferUntil;
     status := Blocked;
     item_priority := item_priority top;
     startedAt := startedAt top |}.

(** The world after [applyDefer] of the running item [top]. *)
Definition after_defer (sessionID : string) (top : ActiveWorkItem)
  (deferUntil : option string) (w : World X) : World X :=
  set_sessionRuntime
    (<[sessionID :=
         {| deferred :=
              take 16 (length (heap w)
                       :: List.filter (id_differs w top)
                            (deferred (runtime_of w sessionID)));
            parallel := parallel (runtime_of w sessionID) |}]>
       (sessionRuntime w))
    (set_heap (heap w ++ [deferred_copy top deferUntil]) w).

(** The world after the three assignments of an abort. *)
Definition after_abort (h : Host) (sessionID : string) (w : World X)
  : World X :=
  set_sessionRuntime
    (<[sessionID := empty_runtime]>
       (<[sessionID := {| deferred := [];
                          parallel := parallel (runtime_of w sessionID) |}]>
          (sessionRuntime w)))
    (abortSession h sessionID w).2.

End Plugin.

(** ** The statements of the data model, in its words *)








(** The candidate list in the words of the policy evaluator: the items in
    their order, an item left out when its identity key was seen before. *)
Fixpoint first_seen (seen : list string) (items : list ModelRef)
  : list ModelRef :=
  match items with
  | [] => []
  | item :: rest =>
      if bool_decide (ref_key item ∈ seen) then first_seen seen rest
      else item :: first_seen (ref_key item :: seen) rest
  end.

(** A candidate the resolver can select: allowed by the policy and valid in
    the catalog. *)
Definition acceptable (h : Host) (policy : JudgePolicy) (c : ModelRef) : Prop :=
  isPolicyAllowed policy c = true
  /\ validateJudgeTarget h (providerID c) (modelID c) = None.

(** [c] is the first acceptable candidate of the list. *)
Definition first_acceptable (h : Host) (policy : JudgePolicy)
  (candidates : list ModelRef) (c : ModelRef) : Prop :=
  exists pre post,
    candidates = pre ++ c :: post
    /\ acceptable h policy c
    /\ Forall (fun x => ~ acceptable h policy x) pre.

(** The reference [target] matches an entry of the list: same identity
    key. *)
Definition matches (items : list ModelRef) (target : ModelRef) : Prop :=
  exists item, item ∈ items /\ ref_key item = ref_key target.

(** The three shapes of an auth record and the token each one carries. *)
Definition auth_shape (a : JValue) (t : string) : Prop :=
  isRecord a = true
  /\ exists type field s,
       Json.get a "type" = Some (JString type)
       /\ ((type = "api" /\ field = "key")
           \/ (type = "oauth" /\ field = "access")
           \/ (type = "wellknown" /\ field = "token"))
       /\ Json.get a field = Some (JString s)
       /\ t = Str.trim s
       /\ t <> "".

(** A judge whose calls are recorded: the log holds the prompts it was
    given, in order. *)
Definition traced {W} (judge : string -> M W string)
  : string -> M (W * list string) string :=
  fun prompt '(w, log) =>
    let '(r, w') := judge prompt w in
    (r, (w', log ++ [prompt])).

(** ** Scenarios of the test suites *)

Module Scenario.

(** autonomy.test.ts, the test of the retry: the valid answer and its
    decision. *)
Definition abort_text : string :=
  Str.quoted "{'action':'abort','confidence':0.88,'reason':'Critical user incident supersedes current medium priority task','priority':'critical'}".

Definition abort_decision : OrchestrationDecision :=
  {| action := Abort;
     confidence := 22 # 25;
     reason := "Critical user incident supersedes current medium priority task";
     priority := Critical;
     deferUntil := None;
     parallelPlan := None |}.

(** The judge of that test, with its counter of calls: the first answer is
    not JSON, the following ones are the valid answer. *)
Definition retry_judge : string -> M nat string :=
  fun _ calls =>
    let calls := S calls in
    if Nat.eqb calls 1 then (Ok "not-json", calls)
    else (Ok abort_text, calls).

(** The active work of the input of that test. *)
Definition daily_indexing : ActiveWorkItem :=
  {| id := "w1";
     title := "daily indexing";
     status := Running;
     item_priority := Medium;
     startedAt := "2026-02-11T09:40:00.000Z" |}.

Definition retry_input : JValue :=
  JObject [
    ("now", JString "2026-02-11T10:00:00.000Z");
    ("userMessage", JString "Stop this and work on incident now");
    ("userIntent", JString "incident-response");
    ("persona", JObject [
       ("name", JString "machina");
       ("traits", JArray [JString "proactive"; JString "focused"]);
       ("goals", JArray [JString "finish user goals"]);
       ("fixedPrinciples", JArray [JString "prevent direct harm"])]);
    ("activeWork", JArray [
       JObject [("id", JString "w1"); ("title", JString "daily indexing");
                ("status", JString "running"); ("priority", JString "medium");
                ("startedAt", JString "2026-02-11T09:40:00.000Z")]]);
    ("systemState", JObject [
       ("cpuLoad", JNumber (41 # 100)); ("memoryLoad", JNumber (31 # 50));
       ("networkHealth", JString "good")])
  ].

(** autonomy.test.ts, the strict JSON decision. *)
Definition parallel_text : string :=
  Str.quoted "{'action':'parallel','confidence':0.92,'reason':'User request is urgent and current job can continue in background','priority':'high','parallelPlan':{'lane':'background','maxConcurrency':4}}".




(** The decimal text of a number between 0 and 1 with a finite decimal
    expansion, as the confidences of the scenarios are. *)
Fixpoint fraction_digits (fuel : nat) (num den : Z) : string :=
  match fuel with
  | O => ""
  | S fuel' =>
      if num =? 0 then ""
      else Str.of_Z (10 * num / den)
           +:+ fraction_digits fuel' (10 * num mod den) den
  end.

Definition show_number (q : Q) : string :=
  let den := Zpos (Qden q) in
  let whole := Qnum q / den in
  let rest := Qnum q mod den in
  if rest =? 0 then Str.of_Z whole
  else Str.of_Z whole +:+ "." +:+ fraction_digits 20 rest den.

(** index.test.ts: a platform whose judge answers with the texts of a
    script, one per call, and whose clock stands still (it shows the
    milliseconds as they are). *)
#[global] Instance scripted : Platform (list string) := {|
  JSON_stringify := fun _ => "{}";
  Number_toString := show_number;
  toISOString := fun ms => Str.of_Z ms;
  Date_now := fun x => (1770804000000, x);
  callJudge := fun _ _ x =>
    match x with
    | answer :: rest => (Ok answer, rest)
    | [] => (Throw "AUTONOMY_JUDGE_FAILED: empty response", [])
    end
|}.

Definition catalog (models : string) : option JValue :=
  JSON_parse (Str.quoted ("{'data':{'all':[{'id':'openai','models':" +:+ models +:+ "}]}}")).

Definition auth_store (path : string) : option JValue :=
  if String.eqb path "/tmp/open-machina-auth/auth.json" then
    JSON_parse (Str.quoted "{'open-machina-judge':{'type':'api','key':'judge-token'}}")
  else None.

(** The host of the tests of index.test.ts: the judge is configured, its
    key is in the auth store, and the session control has the calls told
    by the three flags. *)
Definition host (vars : list (string * string)) (models : string)
  (abort promptAsync prompt : bool) : Host :=
  {| env := list_to_map (
       [("MACHINA_JUDGE_API_URL", "https://judge.example.test/v1/chat/completions");
        ("MACHINA_JUDGE_PROVIDER", "openai");
        ("MACHINA_JUDGE_AUTH_PROVIDER", "open-machina-judge");
        ("OPENCODE_AUTH_PATH", "/tmp/open-machina-auth/auth.json")] ++ vars);
     provider_list := Some (catalog models);
     has_abort := abort;
     has_promptAsync := promptAsync;
     has_prompt := prompt;
     default_auth_path := "/home/user/.config/opencode/auth.json";
     read_json := auth_store;
     builtin_property := fun _ _ => false;
     identity_name := Ok "open-machina" |}.

Definition judge_host (abort promptAsync prompt : bool) : Host :=
  host [("MACHINA_JUDGE_MODEL", "gpt-judge")] "{'gpt-judge':{}}"
       abort promptAsync prompt.

(** A session with one running tool call and, from earlier arbitrations,
    one deferred and one parallel entry; the judge will give the answers
    of the script. *)
Definition workflow_item : ActiveWorkItem :=
  {| id := "workflow.run:c-1";
     title := "workflow.run";
     status := Running;
     item_priority := High;
     startedAt := "1770804000000" |}.

Definition earlier_deferred : ActiveWorkItem :=
  {| id := "storage.sync:c-0";
     title := "storage.sync";
     status := Blocked;
     item_priority := Medium;
     startedAt := "1770803000000" |}.

Definition earlier_parallel : ActiveWorkItem :=
  {| id := "parallel:1770803500000";
     title := "background x1: index the docs";
     status := Queued;
     item_priority := Low;
     startedAt := "1770803500000" |}.

Definition busy_world (script : list string) (sessionID : string)
  : World (list string) :=
  {| outside := script;
     heap := [workflow_item; earlier_deferred; earlier_parallel];
     sessions := {[ sessionID := [0%nat] ]};
     sessionRuntime :=
       {[ sessionID := {| deferred := [1%nat]; parallel := [2%nat] |} ]};
     getJudgeAuth := None;
     calls := [] |}.

(** A session whose one running item is the daily indexing, with empty
    queues. *)
Definition indexing_world (script : list string) (sessionID : string)
  : World (list string) :=
  {| outside := script;
     heap := [daily_indexing];
     sessions := {[ sessionID := [0%nat] ]};
     sessionRuntime := ∅;
     getJudgeAuth := None;
     calls := [] |}.

Definition text_part (s : string) : Part :=
  {| part_type := "text"; part_text := Some s |}.

Definition chat (sessionID : string) : ChatEvent :=
  {| ce_sessionID := sessionID; ce_model := None |}.

Definition abort_answer : string :=
  Str.quoted "{'action':'abort','confidence':0.91,'reason':'urgent user interruption','priority':'critical'}".

Definition defer_answer : string :=
  Str.quoted "{'action':'defer','confidence':0.88,'reason':'defer active work','priority':'high','deferUntil':'2099-01-01T00:00:00.000Z'}".

Definition abort_arbitration : Arbitration :=
  {| arb_prompt := "Stop current task and handle incident now";
     arb_active := [0%nat];
     arb_decision :=
       {| action := Abort;
          confidence := 91 # 100;
          reason := "urgent user interruption";
          priority := Critical;
          deferUntil := None;
          parallelPlan := None |} |}.

Definition defer_arbitration : Arbitration :=
  {| arb_prompt := "defer this task and do later";
     arb_active := [0%nat];
     arb_decision :=
       {| action := Defer;
          confidence := 22 # 25;
          reason := "defer active work";
          priority := High;
          deferUntil := Some "2099-01-01T00:00:00.000Z";
          parallelPlan := None |} |}.

Definition stop_parts : list Part :=
  [text_part "Stop current task and handle incident now"].

Definition defer_parts : list Part :=
  [text_part "defer this task and do later"].

(** A host without a configured judge model (index.test.ts,
    open_machina_decide reports unavailable judge when env is missing), and
    a host whose judge is configured and has no credential anywhere. *)
Definition unconfigured_host : Host := host [] "{'gpt-judge':{}}" true true true.

Definition no_credential_host : Host :=
  {| env := {[ "MACHINA_JUDGE_MODEL" := "gpt-judge" ]};
     provider_list := None;
     has_abort := true;
     has_promptAsync := true;
     has_prompt := true;
     default_auth_path := "/home/user/.config/opencode/auth.json";
     read_json := fun _ => None;
     builtin_property := fun _ _ => false;
     identity_name := Ok "open-machina" |}.

Definition decide_args : JValue := JObject [("input", JObject [])].

(** A fresh plugin, and the run of index.test.ts, chat.message applies
    defer and parallel execution paths: a tool call starts, a first message
    is arbitrated (defer), then a second one (parallel). *)
Definition fresh_world (script : list string) : World (list string) :=
  {| outside := script;
     heap := [];
     sessions := ∅;
     sessionRuntime := ∅;
     getJudgeAuth := None;
     calls := [] |}.

Definition parallel_answer : string :=
  Str.quoted "{'action':'parallel','confidence':0.9,'reason':'run in background','priority':'medium','parallelPlan':{'lane':'background','maxConcurrency':2}}".

Definition defer_then_parallel (h : Host)
  : M (World (list string)) (list Part * list Part) :=
  (started <- tool_execute_before
                {| te_tool := "workflow.run";
                   te_sessionID := "s-2";
                   te_callID := "c-1" |} ;;
   first <- chat_message h (chat "s-2")
              [text_part "defer this task and do later"] ;;
   second <- chat_message h (chat "s-2")
               [text_part "also execute another branch in parallel"] ;;
   ret (first, second))%M.

(** A session whose running item was deferred before: the deferred queue
    holds an entry of another item and, behind it, the earlier copy of the
    running item. *)
Definition earlier_copy : ActiveWorkItem :=
  {| id := "workflow.run:c-1";
     title := "workflow.run (until 2030-01-01T00:00:00.000Z)";
     status := Blocked;
     item_priority := High;
     startedAt := "1770804000000" |}.

Definition redefer_world : World (list string) :=
  {| outside := [defer_answer];
     heap := [workflow_item; earlier_deferred; earlier_copy];
     sessions := {[ "s-1" := [0%nat] ]};
     sessionRuntime :=
       {[ "s-1" := {| deferred := [1%nat; 2%nat]; parallel := [] |} ]};
     getJudgeAuth := None;
     calls := [] |}.

(** A session whose deferred queue is full: sixteen entries of other
    items, at the addresses 1 to 16. *)
Definition job (k : nat) : ActiveWorkItem :=
  {| id := "job:" +:+ Str.of_nat k;
     title := "job";
     status := Blocked;
     item_priority := Low;
     startedAt := "1770803000000" |}.

Definition full_world : World (list string) :=
  {| outside := [defer_answer];
     heap := workflow_item :: map job (seq 1 16);
     sessions := {[ "s-1" := [0%nat] ]};
     sessionRuntime :=
       {[ "s-1" := {| deferred := seq 1 16; parallel := [] |} ]};
     getJudgeAuth := None;
     calls := [] |}.

(** The worlds the hook runs in, in the scenarios below. *)
Definition abort_world : World (list string) := busy_world [abort_answer] "s-1".


Definition idle_judge_world : World (list string) := busy_world [] "s-1".


End Scenario.

(** ** The registration of the plugin (index.ts, lines 144-235) *)

Inductive PluginMode : Type := ModeLocal | ModeDev | ModeProd.

Definition mode_name (m : PluginMode) : string :=
  match m with
  | ModeLocal => "local"
  | ModeDev => "dev"
  | ModeProd => "prod"
  end.

(** [isPluginMode(value)], with the mode it recognises. *)
Definition isPluginMode (value : string) : option PluginMode :=
  if String.eqb value "local" then Some ModeLocal
  else if String.eqb value "dev" then Some ModeDev
  else if String.eqb value "prod" then Some ModeProd
  else None.

Record PluginModeConfig : Type := {
  source : string;
  entry : string
}.

(** The defaults of config/defaults.json, as far as the registration reads
    them.  The mode is kept as the string of the file (the program tests
    it); [plugin_modes] is [config.plugin.modes], which has the three
    modes. *)
Record DefaultsConfig : Type := {
  plugin_name : string;
  plugin_mode : string;
  plugin_modes : PluginMode -> PluginModeConfig
}.

Record PluginRegistration : Type := {
  reg_mode : PluginMode;
  reg_name : string;
  reg_source : string;
  reg_entry : string;
  resolvedEntry : option string
}.

Inductive StatusCode : Type := INVALID_MODE | CONFIG_NOT_FOUND | PLUGIN_NOT_FOUND.

Inductive PluginStatus : Type :=
| Loaded (registration : PluginRegistration)
| StatusError (code : StatusCode) (message hint : string)
    (registration : option PluginRegistration).

(** What the registration reads from the installation:
    - [defaults_exists]: [Bun.file(defaultsUrl).exists()];
    - [defaults_json]: [getDefaultsConfig()], the defaults or the error of
      the read;
    - [defaults_pathname]: [defaultsUrl.pathname];
    - [entry_path e]: [Bun.fileURLToPath(new URL(e, repoRoot))], which
      throws on an entry that is no URL;
    - [file_exists p]: [Bun.file(p).exists()]. *)
Record Installation : Type := {
  defaults_exists : bool;
  defaults_json : Result DefaultsConfig;
  defaults_pathname : string;
  entry_path : string -> Result string;
  file_exists : string -> bool
}.

(** [overridePath && overridePath.trim().length > 0] *)
Definition override_path (vars : gmap string string) : option string :=
  match truthy (vars !! "MACHINA_PLUGIN_PATH") with
  | Some overridePath =>
      if Str.is_empty (Str.trim overridePath) then None else Some overridePath
  | None => None
  end.

Definition resolvePluginRegistration (inst : Installation)
  (vars : gmap string string) : Result PluginRegistration :=
  match defaults_json inst with
  | Throw e => Throw e
  | Ok config =>
      let mode :=
        default (plugin_mode config) (truthy (vars !! "MACHINA_PLUGIN_MODE")) in
      match isPluginMode mode with
      | None =>
          Throw (Str.quoted "Invalid MACHINA_PLUGIN_MODE '" +:+ mode
                 +:+ Str.quoted "'. Expected one of: local, dev, prod.")
      | Some mode =>
          let modeConfig := plugin_modes config mode in
          let registration (resolved : string) :=
            {| reg_mode := mode;
               reg_name := plugin_name config;
               reg_source := source modeConfig;
               reg_entry := entry modeConfig;
               resolvedEntry := Some resolved |} in
          match override_path vars with
          | Some overridePath => Ok (registration overridePath)
          | None =>
              match mode with
              | ModeProd => Ok (registration (entry modeConfig))
              | _ =>
                  match entry_path inst (entry modeConfig) with
                  | Ok path => Ok (registration path)
                  | Throw e => Throw e
                  end
              end
          end
      end
  end.

Definition getPluginStatus (inst : Installation) (vars : gmap string string)
  : PluginStatus :=
  if negb (defaults_exists inst) then
    StatusError CONFIG_NOT_FOUND
      ("Machina defaults config not found at " +:+ defaults_pathname inst)
      "Ensure open-machina/config/defaults.json exists and is readable."
      None
  else
    match resolvePluginRegistration inst vars with
    | Throw message =>
        StatusError INVALID_MODE message
          "Set MACHINA_PLUGIN_MODE to local, dev, or prod." None
    | Ok registration =>
        match reg_mode registration with
        | ModeProd => Loaded registration
        | _ =>
            let target :=
              default (reg_entry registration) (resolvedEntry registration) in
            if negb (file_exists inst target) then
              StatusError PLUGIN_NOT_FOUND
                ("Plugin entry not found for mode "
                 +:+ mode_name (reg_mode registration) +:+ ": " +:+ target)
                "Run `bun --cwd=/Users/hong/machina-project/open-machina run build` or set MACHINA_PLUGIN_PATH to a valid entry file."
                (Some registration)
            else Loaded registration
        end
    end.

(** ** The words of the further properties *)

(** A byte that [trim] may remove: ASCII white space, or a byte of a
    character outside ASCII. *)
Definition removable (c : ascii) : Prop :=
  Str.ws1 c = true \/ (128 <= Str.code c)%N.

(** A text without white space at its start (read in its order, or from
    its end). *)
Definition clean (fwd : bool) (s : list ascii) : bool :=
  match s with
  | [] => true
  | c1 :: r1 =>
      negb (Str.ws1 c1)
      && match r1 with
         | [] => true
         | c2 :: r2 =>
             negb (if fwd then Str.ws2 c1 c2 else Str.ws2 c2 c1)
             && match r2 with
                | [] => true
                | c3 :: _ =>
                    negb (if fwd then Str.ws3 c1 c2 c3 else Str.ws3 c3 c2 c1)
                end
         end
  end.

(** A name: a text that is not empty and has no white space around it. *)
Definition named (s : string) : Prop := s <> "" /\ Str.trim s = s.

(** An item as a policy variable writes it: the provider and the model are
    names without a slash and without a comma. *)
Definition well_written (item : ModelRef) : Prop :=
  named (providerID item) /\ named (modelID item)
  /\ (forall c,
        c ∈ Str.chars (providerID item) ++ Str.chars (modelID item) ->
        c <> "/"%char /\ c <> ","%char).

(** The reason the resolver notes when it skips a candidate that is not
    acceptable. *)
Definition skip_reason (h : Host) (policy : JudgePolicy) (c : ModelRef)
  : string :=
  if isPolicyAllowed policy c then
    default "" (validateJudgeTarget h (providerID c) (modelID c))
  else "POLICY_DENY:" +:+ ref_key c.

(** The host [h] with another answer of [client.provider.list]. *)
Definition with_catalog (h : Host) (response : option (option JValue)) : Host :=
  {| env := env h;
     provider_list := response;
     has_abort := has_abort h;
     has_promptAsync := has_promptAsync h;
     has_prompt := has_prompt h;
     default_auth_path := default_auth_path h;
     read_json := read_json h;
     builtin_property := builtin_property h;
     identity_name := identity_name h |}.

(** The text a part gives to the prompt of [chat.message]. *)
Definition text_of (part : Part) : option string :=
  if String.eqb (part_type part) "text" then part_text part else None.

(** ** The [open_machina_workspace] tool (index.ts, lines 281-303) *)

(** [input.directory], [input.worktree] and [input.serverUrl.toString()]
    of the plugin input, and the context of a tool call. *)
Record PluginInput : Type := {
  directory : string;
  worktree : string;
  serverUrl : string
}.

Record ToolContext : Type := {
  tc_sessionID : string;
  tc_messageID : string;
  tc_agent : string
}.

Section PluginWords.

Context {X : Type} `{Platform X}.

Definition open_machina_workspace (input : PluginInput) (ctx : ToolContext)
  : M (World X) string :=
  (runtime <- getSessionRuntime (tc_sessionID ctx) ;;
   deferredItems <- gets (fun w => items_of w (deferred runtime)) ;;
   parallelItems <- gets (fun w => items_of w (parallel runtime)) ;;
   ret (JSON_stringify
          (JObject [
             ("directory", JString (directory input));
             ("worktree", JString (worktree input));
             ("serverUrl", JString (serverUrl input));
             ("session", JObject [
                ("sessionID", JString (tc_sessionID ctx));
                ("messageID", JString (tc_messageID ctx));
                ("agent", JString (tc_agent ctx));
                ("deferred", JArray (map item_json deferredItems));
                ("parallel", JArray (map item_json parallelItems))])])))%M.

(** ** The words of the further properties of the plugin *)

(** The item [tool.execute.before] creates for a call that starts at
    [now]. *)
Definition started_item (evt : ToolEvent) (now : Z) : ActiveWorkItem :=
  {| id := te_tool evt +:+ ":" +:+ te_callID evt;
     title := te_tool evt;
     status := Running;
     item_priority := classifyPriority (te_tool evt);
     startedAt := toISOString now |}.

(** What [tool.execute.after] makes of an item when the call [target]
    ends: the item of that call is queued, another item is kept. *)
Definition finished (target : string) (item : ActiveWorkItem) : ActiveWorkItem :=
  if String.eqb (id item) target then
    {| id := id item;
       title := title item;
       status := Queued;
       item_priority := item_priority item;
       startedAt := startedAt item |}
  else item.

(** The entry [applyParallel] puts on the parallel queue. *)
Definition parallel_item (prompt : string) (decision : OrchestrationDecision)
  (stamp started : Z) : ActiveWorkItem :=
  {| id := "parallel:" +:+ Str.of_Z stamp;
     title := lane_name (match parallelPlan decision with
                         | Some plan => lane plan
                         | None => Background
                         end)
              +:+ " x" +:+ Str.of_Z (match parallelPlan decision with
                                     | Some plan => maxConcurrency plan
                                     | None => 1
                                     end)
              +:+ ": " +:+ slice80 prompt;
     status := Queued;
     item_priority := priority decision;
     startedAt := toISOString started |}.

(** The world after [applyParallel]. *)
Definition after_parallel (sessionID prompt : string)
  (decision : OrchestrationDecision) (w : World X) : World X :=
  let '(stamp, x1) := Date_now (outside w) in
  let '(started, x2) := Date_now x1 in
  set_sessionRuntime
    (<[sessionID :=
         {| deferred := deferred (runtime_of w sessionID);
            parallel := take 16 (length (heap w)
                                 :: parallel (runtime_of w sessionID)) |}]>
       (sessionRuntime w))
    (set_heap (heap w ++ [parallel_item prompt decision stamp started])
       (set_outside x2 w)).

(** No list of the plugin is longer than 16. *)
Definition bounded (w : World X) : Prop :=
  forall s,
    (length (work_of w s) <= 16)%nat
    /\ (length (deferred (runtime_of w s)) <= 16)%nat
    /\ (length (parallel (runtime_of w s)) <= 16)%nat.

(** Every address in a list of the plugin is the address of an object of
    the store. *)
Definition allocated (w : World X) : Prop :=
  forall s r,
    r ∈ work_of w s ++ deferred (runtime_of w s) ++ parallel (runtime_of w s) ->
    (r < length (heap w))%nat.

(** A plugin as [OpenMachinaPlugin] returns it: nothing tracked, no queue,
    no accessor of the judge credential. *)
Definition initial (w : World X) : Prop :=
  heap w = [] /\ sessions w = ∅ /\ sessionRuntime w = ∅
  /\ getJudgeAuth w = None /\ calls w = [].

(** One call of a hook or of a tool of the plugin; whether it returns or
    throws, the world is the one it leaves. *)
Inductive plugin_step (h : Host) : World X -> World X -> Prop :=
| step_tool_execute_before (evt : ToolEvent) (w : World X) :
    plugin_step h w (tool_execute_before evt w).2
| step_tool_execute_after (evt : ToolEvent) (w : World X) :
    plugin_step h w (tool_execute_after evt w).2
| step_chat_message (evt : ChatEvent) (parts : list Part) (w : World X) :
    plugin_step h w (chat_message h evt parts w).2
| step_open_machina_decide (args : JValue) (w : World X) :
    plugin_step h w (open_machina_decide h args w).2
| step_open_machina_workspace (input : PluginInput) (ctx : ToolContext)
    (w : World X) :
    plugin_step h w (open_machina_workspace input ctx w).2
| step_auth_loader (getAuth : option JValue) (w : World X) :
    plugin_step h w (auth_loader getAuth w).2.

End PluginWords.

(** ** Further scenarios *)

Module Cases.

(** The tool call of index.test.ts, and the plugin after its start. *)
Definition workflow_call : ToolEvent :=
  {| te_tool := "workflow.run"; te_sessionID := "s-2"; te_callID := "c-1" |}.

Definition started_world : World (list string) :=
  (tool_execute_before workflow_call (Scenario.fresh_world [])).2.

(** The second message of that test and the decision of the judge on it. *)
Definition parallel_parts : list Part :=
  [Scenario.text_part "also execute another branch in parallel"].

Definition parallel_arbitration : Arbitration :=
  {| arb_prompt := "also execute another branch in parallel";
     arb_active := [0%nat];
     arb_decision :=
       {| action := Parallel;
          confidence := 9 # 10;
          reason := "run in background";
          priority := Medium;
          deferUntil := None;
          parallelPlan := Some {| lane := Background; maxConcurrency := 2 |} |} |}.

Definition parallel_world : World (list string) :=
  Scenario.indexing_world [Scenario.parallel_answer] "s-2".

(** A message that carries the control marker. *)
Definition marked_parts : list Part :=
  [Scenario.text_part "[OPEN-MACHINA CONTROL] continue-current-plan"].

(** A run of the plugin: a tool call starts, a message is arbitrated. *)
Definition after_two_calls : World (list string) :=
  (chat_message (Scenario.judge_host false false false) (Scenario.chat "s-2")
     Scenario.defer_parts
     (tool_execute_before workflow_call
        (Scenario.fresh_world [Scenario.defer_answer])).2).2.

End Cases.

(** * Properties *)

(** ** The platform functions of the model *)

Example JSON_parse_object :
  JSON_parse (Str.quoted "{'a': [1, 2.5e1, true, null], 'b': {'c': 'd'}}")
  = Some (JObject [("a", JArray [JNumber 1; JNumber 25; JBool true; JNull]);
                   ("b", JObject [("c", JString "d")])]).
Proof. vm_compute. reflexivity. Qed.

Example JSON_parse_rejects :
  JSON_parse "not-json" = None
  /\ JSON_parse (Str.quoted "{'a': 1,}") = None
  /\ JSON_parse "[1 2]" = None
  /\ JSON_parse "01" = None
  /\ JSON_parse "" = None.
Proof. repeat split; vm_compute; reflexivity. Qed.

Example match_braces_span :
  Json.match_braces "Here it is: {1} and {2}, done" = Some "{1} and {2}"
  /\ Json.match_braces "} {" = None.
Proof. split; vm_compute; reflexivity. Qed.

Example trim_white_space :
  Str.trim (Str.nl +:+ "  judge-token " +:+ Str.nl) = "judge-token"
  /\ Str.trim "   " = "".
Proof. split; vm_compute; reflexivity. Qed.

(** ** Decision validation *)

Lemma is_empty_true (s : string) : Str.is_empty s = true <-> s = "".
Proof. destruct s; simpl; split; congruence. Qed.

Lemma is_empty_false (s : string) : Str.is_empty s = false <-> s <> "".
Proof. destruct s; simpl; split; congruence. Qed.

Lemma isAction_Some (v : option JValue) (a : OrchestrationAction) :
  isAction v = Some a <-> v = Some (JString (action_name a)).
Proof.
  split.
  - destruct v as [[| | |s| |]|]; simpl; try discriminate.
    destruct (String.eqb_spec s "abort") as [->|?]; [intros [= <-]; reflexivity|].
    destruct (String.eqb_spec s "defer") as [->|?]; [intros [= <-]; reflexivity|].
    destruct (String.eqb_spec s "parallel") as [->|?]; [intros [= <-]; reflexivity|].
    destruct (String.eqb_spec s "continue") as [->|?]; [intros [= <-]; reflexivity|].
    discriminate.
  - intros ->. destruct a; reflexivity.
Qed.

Lemma isPriority_Some (v : option JValue) (p : Priority) :
  isPriority v = Some p <-> v = Some (JString (priority_name p)).
Proof.
  split.
  - destruct v as [[| | |s| |]|]; simpl; try discriminate.
    destruct (String.eqb_spec s "critical") as [->|?]; [intros [= <-]; reflexivity|].
    destruct (String.eqb_spec s "high") as [->|?]; [intros [= <-]; reflexivity|].
    destruct (String.eqb_spec s "medium") as [->|?]; [intros [= <-]; reflexivity|].
    destruct (String.eqb_spec s "low") as [->|?]; [intros [= <-]; reflexivity|].
    discriminate.
  - intros ->. destruct p; reflexivity.
Qed.

Lemma confidence_in_range (c : Q) :
  Qltb c 0 || Qltb 1 c = false <-> (0 <= c)%Q /\ (c <= 1)%Q.
Proof.
  unfold Qltb. rewrite orb_false_iff, !negb_false_iff, !Qle_bool_iff. tauto.
Qed.






(** autonomy.test.ts, parseDecision accepts strict JSON decision. *)
Example parseDecision_strict_json :
  parseDecision Scenario.parallel_text
  = Some {| action := Parallel;
            confidence := 23 # 25;
            reason := "User request is urgent and current job can continue in background";
            priority := High;
            deferUntil := None;
            parallelPlan := Some {| lane := Background; maxConcurrency := 4 |} |}.
Proof. vm_compute. reflexivity. Qed.

(** ** The repair protocol *)

Section DecideProperties.

Context {W : Type} (stringify : JValue -> string).

(** C4: when the first response of the judge fails validation,
    [decideOrchestration] sends the repair prompt, once, and decides on the
    response to it alone: its decision when it is valid, the error
    ORCHESTRATION_DECISION_INVALID when it is not; the judge is called
    exactly twice. *)
Theorem decideOrchestration_one_repair (input : JValue)
  (judge : string -> M W string) (w w1 : W) (first : string) :
  judge (createDecisionPrompt stringify input) w = (Ok first, w1) ->
  parseDecision first = None ->
  decideOrchestration stringify input (traced judge) (w, [])
  = (match judge repairPrompt w1 with
     | (Ok repair, _) =>
         match parseDecision repair with
         | Some d => Ok d
         | None => Throw INVALID_DECISION
         end
     | (Throw e, _) => Throw e
     end,
     ((judge repairPrompt w1).2,
      [createDecisionPrompt stringify input; repairPrompt])).
Proof.
  intros Hfirst Hinvalid.
  unfold decideOrchestration, bind, traced. simpl.
  rewrite Hfirst, Hinvalid. simpl.
  destruct (judge repairPrompt w1) as [[repair|e] w2]; simpl; [|reflexivity].
  destruct (parseDecision repair); reflexivity.
Qed.

(** A valid first response is the decision, after one call. *)
Lemma decideOrchestration_first_valid (input : JValue)
  (judge : string -> M W string) (w w1 : W) (first : string)
  (d : OrchestrationDecision) :
  judge (createDecisionPrompt stringify input) w = (Ok first, w1) ->
  parseDecision first = Some d ->
  decideOrchestration stringify input (traced judge) (w, [])
  = (Ok d, (w1, [createDecisionPrompt stringify input])).
Proof.
  intros Hfirst Hvalid.
  unfold decideOrchestration, bind, traced. simpl.
  rewrite Hfirst, Hvalid. reflexivity.
Qed.

(** An error of the judge is the error of the operation. *)
Lemma decideOrchestration_judge_throws (input : JValue)
  (judge : string -> M W string) (w w1 : W) (e : string) :
  judge (createDecisionPrompt stringify input) w = (Throw e, w1) ->
  decideOrchestration stringify input (traced judge) (w, [])
  = (Throw e, (w1, [createDecisionPrompt stringify input])).
Proof.
  intros Hfirst.
  unfold decideOrchestration, bind, traced. simpl.
  rewrite Hfirst. reflexivity.
Qed.

End DecideProperties.

(** C4, at the test of autonomy.test.ts: the first answer is not JSON,
    the second one is a valid decision; the judge is called twice and the
    second decision is returned. *)
Lemma decideOrchestration_one_repair_witness :
  Scenario.retry_judge
    (createDecisionPrompt (fun _ => "") Scenario.retry_input) 0%nat
  = (Ok "not-json", 1%nat)
  /\ parseDecision "not-json" = None
  /\ decideOrchestration (fun _ => "") Scenario.retry_input
       (traced Scenario.retry_judge) (0%nat, [])
     = (Ok Scenario.abort_decision,
        (2%nat,
         [createDecisionPrompt (fun _ => "") Scenario.retry_input; repairPrompt])).
Proof.
  split; [reflexivity|]. split; [vm_compute; reflexivity|].
  rewrite (decideOrchestration_one_repair (fun _ => "") Scenario.retry_input
             Scenario.retry_judge 0%nat 1%nat "not-json").
  - vm_compute. reflexivity.
  - reflexivity.
  - vm_compute. reflexivity.
Defined.

(** The error of the protocol carries its stable code. *)
Example invalid_decision_code :
  Str.includes INVALID_DECISION "ORCHESTRATION_DECISION_INVALID" = true.
Proof. vm_compute. reflexivity. Qed.

(** ** The policy evaluator *)

Lemma some_key_matches (items : list ModelRef) (target : ModelRef) :
  some_key items (ref_key target) = true <-> matches items target.
Proof.
  unfold some_key, matches. rewrite existsb_exists. split.
  - intros (item & Hin & Heq). exists item. split.
    + apply list_elem_of_In. exact Hin.
    + apply String.eqb_eq. exact Heq.
  - intros (item & Hin & Heq). exists item. split.
    + apply list_elem_of_In. exact Hin.
    + apply String.eqb_eq. exact Heq.
Qed.

(** C3: a reference that matches an entry of the deny list is rejected,
    also when it matches an entry of the allow list; a reference that is
    not denied is allowed when the allow list is empty, and otherwise
    exactly when it matches an entry of the allow list. *)
Theorem isPolicyAllowed_deny_precedence (policy : JudgePolicy) (target : ModelRef) :
  (matches (deny policy) target -> isPolicyAllowed policy target = false)
  /\ (matches (deny policy) target -> matches (allow policy) target ->
      isPolicyAllowed policy target = false)
  /\ (~ matches (deny policy) target -> allow policy = [] ->
      isPolicyAllowed policy target = true)
  /\ (~ matches (deny policy) target -> allow policy <> [] ->
      (isPolicyAllowed policy target = true <-> matches (allow policy) target)).
Proof.
  unfold isPolicyAllowed.
  destruct (some_key (deny policy) (ref_key target)) eqn:Hdeny.
  - apply some_key_matches in Hdeny. repeat split; try reflexivity; tauto.
  - assert (Hnot : ~ matches (deny policy) target).
    { intros Hm. apply some_key_matches in Hm. congruence. }
    split; [tauto|]. split; [tauto|]. split.
    + intros _ ->. reflexivity.
    + intros _ Hne. destruct (allow policy) as [|a l] eqn:Hallow; [congruence|].
      simpl length. simpl Nat.eqb. cbv iota. apply some_key_matches.
Qed.

(** A reference on both lists is rejected. *)
Example denied_and_allowed_is_rejected :
  isPolicyAllowed
    {| allow := [{| providerID := "openai"; modelID := "gpt-primary" |}];
       deny := [{| providerID := "openai"; modelID := "gpt-primary" |}];
       fallback := [] |}
    {| providerID := "openai"; modelID := "gpt-primary" |}
  = false.
Proof. reflexivity. Qed.

(** *** The candidate list *)

Lemma dedupe_loop (items : list ModelRef) :
  forall (keys : gset string) (seen : list string) (out : list ModelRef),
    (forall k, k ∈ keys <-> k ∈ seen) ->
    (foldl dedupe_step (keys, out) items).2 = out ++ first_seen seen items.
Proof.
  induction items as [|item rest IH]; intros keys seen out Hsame; simpl.
  - rewrite app_nil_r. reflexivity.
  - destruct (decide (ref_key item ∈ keys)) as [Hin|Hout].
    + rewrite (bool_decide_eq_true_2 _ Hin).
      rewrite bool_decide_eq_true_2 by (apply Hsame; exact Hin).
      apply IH. exact Hsame.
    + rewrite (bool_decide_eq_false_2 _ Hout).
      rewrite bool_decide_eq_false_2 by (rewrite <- Hsame; exact Hout).
      rewrite (IH _ (ref_key item :: seen)).
      * rewrite <- app_assoc. reflexivity.
      * intros k. rewrite elem_of_union, elem_of_singleton, elem_of_cons, Hsame.
        reflexivity.
Qed.

Lemma dedupeModelRefs_first_seen (items : list ModelRef) :
  dedupeModelRefs items = first_seen [] items.
Proof.
  unfold dedupeModelRefs. rewrite (dedupe_loop items ∅ [] []); [reflexivity|].
  intros k. rewrite elem_of_nil. set_solver.
Qed.

Lemma first_seen_keys_fresh (items : list ModelRef) :
  forall seen x, x ∈ first_seen seen items -> ref_key x ∉ seen.
Proof.
  induction items as [|item rest IH]; intros seen x; simpl.
  - intros Hx. apply elem_of_nil in Hx. contradiction.
  - case_bool_decide as Hseen.
    + apply IH.
    + rewrite elem_of_cons. intros [->|Hx]; [exact Hseen|].
      apply IH in Hx. rewrite elem_of_cons in Hx. tauto.
Qed.

Lemma first_seen_NoDup (items : list ModelRef) :
  forall seen, NoDup (ref_key <$> first_seen seen items).
Proof.
  induction items as [|item rest IH]; intros seen; simpl.
  - constructor.
  - case_bool_decide as Hseen; [apply IH|].
    rewrite fmap_cons. constructor; [|apply IH].
    rewrite list_elem_of_fmap. intros (y & Hkey & Hy).
    apply first_seen_keys_fresh in Hy. rewrite <- Hkey in Hy.
    apply Hy. apply elem_of_cons. left. reflexivity.
Qed.

Lemma first_seen_sublist (items : list ModelRef) :
  forall seen, sublist (first_seen seen items) items.
Proof.
  induction items as [|item rest IH]; intros seen; simpl.
  - constructor.
  - case_bool_decide.
    + apply sublist_cons. apply IH.
    + apply sublist_skip. apply IH.
Qed.



(** *** The selection *)

Lemma acceptable_dec (h : Host) (policy : JudgePolicy) (c : ModelRef) :
  negb (isPolicyAllowed policy c) = false ->
  validateJudgeTarget h (providerID c) (modelID c) = None ->
  acceptable h policy c.
Proof. intros Ha Hv. split; [|exact Hv]. apply negb_false_iff. exact Ha. Qed.

Lemma selectCandidate_spec (h : Host) (policy : JudgePolicy)
  (candidates : list ModelRef) :
  forall skips,
    match (selectCandidate h policy candidates skips).1 with
    | Some c => first_acceptable h policy candidates c
    | None => Forall (fun x => ~ acceptable h policy x) candidates
    end.
Proof.
  induction candidates as [|c rest IH]; intros skips; simpl.
  - constructor.
  - destruct (negb (isPolicyAllowed policy c)) eqn:Hallowed.
    + assert (Hno : ~ acceptable h policy c).
      { intros [Ha _]. rewrite Ha in Hallowed. discriminate. }
      specialize (IH (skips ++ ["POLICY_DENY:" +:+ ref_key c])).
      destruct (selectCandidate h policy rest _).1 as [s|].
      * destruct IH as (pre & post & -> & Hacc & Hpre).
        exists (c :: pre), post. split; [reflexivity|]. split; [exact Hacc|].
        constructor; assumption.
      * constructor; assumption.
    + destruct (validateJudgeTarget h (providerID c) (modelID c)) as [reason|] eqn:Hvalid.
      * assert (Hno : ~ acceptable h policy c).
        { intros [_ Hv]. congruence. }
        specialize (IH (skips ++ [reason])).
        destruct (selectCandidate h policy rest _).1 as [s|].
        -- destruct IH as (pre & post & -> & Hacc & Hpre).
           exists (c :: pre), post. split; [reflexivity|]. split; [exact Hacc|].
           constructor; assumption.
        -- constructor; assumption.
      * simpl. exists [], rest. split; [reflexivity|].
        split; [apply acceptable_dec; assumption | constructor].
Qed.

Lemma first_acceptable_unique (h : Host) (policy : JudgePolicy)
  (candidates : list ModelRef) (c c' : ModelRef) :
  first_acceptable h policy candidates c ->
  first_acceptable h policy candidates c' ->
  c = c'.
Proof.
  intros (pre & post & -> & Hacc & Hpre) (pre' & post' & Heq & Hacc' & Hpre').
  revert pre' Heq Hpre'. induction pre as [|x pre IH]; intros pre' Heq Hpre'.
  - destruct pre' as [|y pre']; simpl in Heq.
    + congruence.
    + injection Heq as <- _. inversion Hpre'; subst. contradiction.
  - inversion Hpre; subst. destruct pre' as [|y pre']; simpl in Heq.
    + injection Heq as -> _. contradiction.
    + injection Heq as <- Heq. inversion Hpre'; subst.
      apply (IH ltac:(assumption) pre'); assumption.
Qed.

Lemma first_acceptable_not_all_rejected (h : Host) (policy : JudgePolicy)
  (candidates : list ModelRef) (c : ModelRef) :
  first_acceptable h policy candidates c ->
  ~ Forall (fun x => ~ acceptable h policy x) candidates.
Proof.
  intros (pre & post & -> & Hacc & _) Hall.
  rewrite Forall_app, Forall_cons in Hall. tauto.
Qed.

Lemma selectCandidate_Some (h : Host) (policy : JudgePolicy)
  (candidates : list ModelRef) (skips : list string) (c : ModelRef) :
  (selectCandidate h policy candidates skips).1 = Some c
  <-> first_acceptable h policy candidates c.
Proof.
  pose proof (selectCandidate_spec h policy candidates skips) as Hspec.
  destruct (selectCandidate h policy candidates skips).1 as [s|].
  - split.
    + intros [= <-]. exact Hspec.
    + intros Hc. f_equal. eapply first_acceptable_unique; eassumption.
  - split; [discriminate|].
    intros Hc. apply first_acceptable_not_all_rejected in Hc. contradiction.
Qed.

Lemma selectCandidate_None (h : Host) (policy : JudgePolicy)
  (candidates : list ModelRef) (skips : list string) :
  (selectCandidate h policy candidates skips).1 = None
  <-> Forall (fun x => ~ acceptable h policy x) candidates.
Proof.
  pose proof (selectCandidate_spec h policy candidates skips) as Hspec.
  destruct (selectCandidate h policy candidates skips).1 as [s|].
  - split; [discriminate|].
    intros Hall. apply first_acceptable_not_all_rejected in Hspec. contradiction.
  - split; [intros _; exact Hspec | reflexivity].
Qed.

Lemma resolveJudgeRuntime_selected (h : Host) (auth : option (option JValue))
  (hint : option ModelRef) (rt : JudgeRuntime) :
  resolveJudgeRuntime h auth hint = Ok (Some rt) ->
  exists config c,
    readJudgeConfig (env h) = Some config
    /\ first_acceptable h (readJudgePolicy (env h))
         (dedupeModelRefs
            (judge_base config hint :: fallback (readJudgePolicy (env h)))) c
    /\ rt_providerID rt = providerID c
    /\ rt_modelID rt = modelID c.
Proof.
  unfold resolveJudgeRuntime.
  destruct (readJudgeConfig (env h)) as [config|]; [|discriminate].
  destruct (_ || _); [discriminate|].
  destruct (selectCandidate _ _ _ _) as [[c|] skips] eqn:Hsel; [|discriminate].
  destruct (truthy _) as [token|]; [|discriminate].
  intros [= <-]. exists config, c. split; [reflexivity|]. split; [|split; reflexivity].
  apply (selectCandidate_Some _ _ _ []). rewrite Hsel. reflexivity.
Qed.

Lemma resolveJudgeRuntime_blocked (h : Host) (auth : option (option JValue))
  (hint : option ModelRef) (config : JudgeConfig) :
  readJudgeConfig (env h) = Some config ->
  Str.is_empty (providerID (judge_base config hint))
    || Str.is_empty (modelID (judge_base config hint)) = false ->
  Forall (fun x => ~ acceptable h (readJudgePolicy (env h)) x)
    (dedupeModelRefs
       (judge_base config hint :: fallback (readJudgePolicy (env h)))) ->
  exists reasons,
    resolveJudgeRuntime h auth hint
    = Throw ("AUTONOMY_JUDGE_POLICY_BLOCKED: no valid model candidate. " +:+ reasons).
Proof.
  intros Hconfig Hbase Hall. unfold resolveJudgeRuntime.
  rewrite Hconfig, Hbase.
  apply (selectCandidate_None _ _ _ []) in Hall.
  destruct (selectCandidate _ _ _ _) as [[c|] skips]; [discriminate|].
  eexists. reflexivity.
Qed.


(** index.test.ts, open_machina_decide applies deny policy and uses
    fallback chain: the base is denied and the fallback is selected. *)
Example resolve_uses_fallback :
  resolveJudgeRuntime
    (Scenario.host [("MACHINA_JUDGE_MODEL", "gpt-primary");
                    ("MACHINA_JUDGE_DENY_MODELS", "openai/gpt-primary");
                    ("MACHINA_JUDGE_FALLBACK_MODELS", "openai/gpt-fallback")]
                   "{'gpt-primary':{},'gpt-fallback':{}}" false false false)
    None None
  = Ok (Some {| rt_providerID := "openai";
                rt_modelID := "gpt-fallback";
                rt_apiUrl := "https://judge.example.test/v1/chat/completions";
                rt_token := "judge-token" |}).
Proof. vm_compute. reflexivity. Qed.

(** index.test.ts, open_machina_decide returns provider/model validation
    errors: the one candidate is not in the catalog. *)
Example resolve_blocked_by_catalog :
  resolveJudgeRuntime
    (Scenario.host [("MACHINA_JUDGE_MODEL", "gpt-4o-mini")]
                   "{'gpt-4.1-mini':{}}" false false false)
    None None
  = Throw "AUTONOMY_JUDGE_POLICY_BLOCKED: no valid model candidate. AUTONOMY_JUDGE_INVALID_MODEL: model openai/gpt-4o-mini not found. Available examples: gpt-4.1-mini".
Proof. vm_compute. reflexivity. Qed.

(** ** The credential resolver *)

Lemma token_field_Some (a : JValue) (field t : string) :
  token_field a field = Some t
  <-> exists s, Json.get a field = Some (JString s) /\ t = Str.trim s /\ t <> "".
Proof.
  unfold token_field. split.
  - destruct (Json.get a field) as [[| | |s| |]|]; try discriminate.
    destruct (Str.is_empty (Str.trim s)) eqn:He; [discriminate|].
    intros [= <-]. exists s. apply is_empty_false in He. auto.
  - intros (s & -> & -> & Hne). apply is_empty_false in Hne. rewrite Hne.
    reflexivity.
Qed.

Lemma token_field_decide (a : JValue) (field : string) :
  bool_decide (is_Some (token_field a field)) = true
  <-> exists t, token_field a field = Some t.
Proof. rewrite bool_decide_eq_true. reflexivity. Qed.

Lemma pickAuthToken_Some (auth : option JValue) (t : string) :
  pickAuthToken auth = Some t <-> exists a, auth = Some a /\ auth_shape a t.
Proof.
  unfold pickAuthToken, auth_shape. split.
  - destruct auth as [a|]; [|discriminate].
    destruct (isRecord a) eqn:Hrec; [|discriminate]. simpl.
    destruct (Json.get a "type") as [[| | |type| |]|] eqn:Htype; try discriminate.
    intros Hpick. exists a. split; [reflexivity|]. split; [exact Hrec|].
    destruct (String.eqb_spec type "api") as [->|Hapi].
    { destruct (token_field a "key") as [k|] eqn:Hk; simpl in Hpick; [|discriminate].
      injection Hpick as ->. apply token_field_Some in Hk as (s & Hs & Ht & Hne).
      exists "api", "key", s. auto 10. }
    destruct (String.eqb_spec type "oauth") as [->|Hoauth].
    { destruct (token_field a "access") as [k|] eqn:Hk; simpl in Hpick; [|discriminate].
      injection Hpick as ->. apply token_field_Some in Hk as (s & Hs & Ht & Hne).
      exists "oauth", "access", s. auto 10. }
    destruct (String.eqb_spec type "wellknown") as [->|Hwk]; [|discriminate].
    destruct (token_field a "token") as [k|] eqn:Hk; simpl in Hpick; [|discriminate].
    injection Hpick as ->. apply token_field_Some in Hk as (s & Hs & Ht & Hne).
    exists "wellknown", "token", s. auto 10.
  - intros (a & -> & Hrec & type & field & s & Htype & Hshape & Hs & Ht & Hne).
    rewrite Hrec, Htype. simpl.
    assert (Hfield : token_field a field = Some t).
    { apply token_field_Some. exists s. auto. }
    destruct Hshape as [[-> ->]|[[-> ->]|[-> ->]]]; simpl; rewrite Hfield; reflexivity.
Qed.


Lemma pickAuthTokenFromStore_Some (payload : option JValue) (provider t : string) :
  pickAuthTokenFromStore payload provider = Some t
  <-> exists p a,
        payload = Some p /\ isRecord p = true
        /\ Json.get p provider = Some a /\ auth_shape a t.
Proof.
  unfold pickAuthTokenFromStore. split.
  - destruct payload as [p|]; [|discriminate].
    destruct (isRecord p) eqn:Hrec; [|discriminate].
    intros Hpick. apply pickAuthToken_Some in Hpick as (a & Ha & Hshape).
    exists p, a. auto.
  - intros (p & a & -> & -> & Ha & Hshape). apply pickAuthToken_Some.
    exists a. auto.
Qed.


Lemma truthy_idemp (o : option string) : truthy (truthy o) = truthy o.
Proof.
  destruct o as [s|]; [|reflexivity]. simpl.
  destruct (Str.is_empty s) eqn:He; [reflexivity|]. simpl. rewrite He. reflexivity.
Qed.


(** index.test.ts, open_machina_decide resolves key from OpenCode auth
    store; and with a key in the environment as well, the store wins. *)
Example store_token_wins_over_environment :
  resolveJudgeToken
    (Scenario.host [("MACHINA_JUDGE_MODEL", "gpt-4o-mini");
                    ("MACHINA_JUDGE_API_KEY", "env-token")]
                   "{'gpt-4o-mini':{}}" false false false)
    None "open-machina-judge" "openai"
  = Some "judge-token".
Proof. vm_compute. reflexivity. Qed.

(** ** The session arbitration *)

Section HookProperties.

Context {X : Type} `{Platform X}.

Implicit Types (w : World X) (h : Host) (evt : ChatEvent) (parts : list Part).

(** The calls [abortSession] issues on a host. *)
Lemma abortSession_calls h (sessionID : string) w :
  exists issued,
    abortSession h sessionID w = (Ok tt, set_calls (calls w ++ issued) w)
    /\ issued =
       (if has_abort h then [CallAbort sessionID]
        else if has_promptAsync h then [CallPromptAsync sessionID ABORT_TEXT]
        else if has_prompt h then [CallPrompt sessionID ABORT_TEXT]
        else []).
Proof.
  unfold abortSession, host_call, modify, ret.
  destruct (has_abort h); [eexists; split; reflexivity|].
  destruct (has_promptAsync h); [eexists; split; reflexivity|].
  destruct (has_prompt h); [eexists; split; reflexivity|].
  exists []. rewrite app_nil_r. destruct w. split; reflexivity.
Qed.

(** C6 (as amended): to realize an abort, the session control of the host
    is tried in the order abort, promptAsync, prompt, and the first call
    that exists is the one made, once; with none of them no call is made.
    Nothing else changes and nothing is thrown. *)
Theorem abortSession_preference_order h (sessionID : string) w :
  (abortSession h sessionID w).1 = Ok tt
  /\ (has_abort h = true ->
      (abortSession h sessionID w).2
      = set_calls (calls w ++ [CallAbort sessionID]) w)
  /\ (has_abort h = false -> has_promptAsync h = true ->
      (abortSession h sessionID w).2
      = set_calls (calls w ++ [CallPromptAsync sessionID ABORT_TEXT]) w)
  /\ (has_abort h = false -> has_promptAsync h = false -> has_prompt h = true ->
      (abortSession h sessionID w).2
      = set_calls (calls w ++ [CallPrompt sessionID ABORT_TEXT]) w)
  /\ (has_abort h = false -> has_promptAsync h = false -> has_prompt h = false ->
      (abortSession h sessionID w).2 = w).
Proof.
  destruct (abortSession_calls h sessionID w) as (issued & -> & ->). simpl.
  split; [reflexivity|].
  split; [intros ->; reflexivity|].
  split; [intros -> ->; reflexivity|].
  split; [intros -> -> ->; reflexivity|].
  intros -> -> ->. rewrite app_nil_r. destruct w. reflexivity.
Qed.

(** *** What the first half of the hook leaves untouched *)

Lemma same_plugin_refl w : same_plugin w w.
Proof. repeat split. Qed.

Lemma same_plugin_trans w1 w2 w3 :
  same_plugin w1 w2 -> same_plugin w2 w3 -> same_plugin w1 w3.
Proof.
  intros (H1 & H2 & H3 & H4 & H5) (K1 & K2 & K3 & K4 & K5).
  split; [congruence|]. split; [congruence|]. split; [congruence|].
  split; [congruence|]. intros s. rewrite K5. apply H5.
Qed.

Lemma same_plugin_outside w (x : X) : same_plugin w (set_outside x w).
Proof. repeat split. Qed.

Lemma getSessionRuntime_same (sessionID : string) w :
  (getSessionRuntime sessionID w).1 = Ok (runtime_of w sessionID)
  /\ same_plugin w (getSessionRuntime sessionID w).2.
Proof.
  unfold getSessionRuntime, runtime_of.
  destruct (sessionRuntime w !! sessionID) as [current|] eqn:Hcur; simpl.
  - split; [reflexivity | apply same_plugin_refl].
  - split; [reflexivity|]. repeat split. intros s. unfold runtime_of. simpl.
    destruct (decide (sessionID = s)) as [->|Hne].
    + rewrite lookup_insert_eq, Hcur. reflexivity.
    + rewrite lookup_insert_ne by exact Hne. reflexivity.
Qed.

Lemma running_refs_same w w' (s : string) :
  same_plugin w w' -> running_refs w' s = running_refs w s.
Proof.
  intros (Hheap & Hsessions & _). unfold running_refs, work_of.
  rewrite Hheap, Hsessions. reflexivity.
Qed.

(** A decision of [decideOrchestration] is a decision that [parseDecision]
    found in a response, and the judge of the plugin acts on the outside
    only. *)
Lemma decideOrchestration_outside (input : JValue) (judge : JudgeRuntime) w :
  let run := decideOrchestration JSON_stringify input
               (fun prompt => outside_run (callJudge judge prompt)) w in
  same_plugin w run.2
  /\ forall d, run.1 = Ok d -> exists raw, parseDecision raw = Some d.
Proof.
  unfold decideOrchestration, bind, outside_run, ret, throw. simpl.
  destruct (callJudge judge _ (outside w)) as [[first|e] x1]; simpl.
  2: { split; [apply same_plugin_outside | discriminate]. }
  destruct (parseDecision first) as [d1|] eqn:Hfirst; simpl.
  { split; [apply same_plugin_outside|]. intros d [= <-]. eauto. }
  destruct (callJudge judge repairPrompt x1) as [[repair|e] x2]; simpl.
  2: { split; [repeat split | discriminate]. }
  destruct (parseDecision repair) as [d2|] eqn:Hrepair; simpl.
  - split; [repeat split|]. intros d [= <-]. eauto.
  - split; [repeat split | discriminate].
Qed.

Lemma now_ms_same w : same_plugin w (now_ms w).2 /\ exists ms, (now_ms w).1 = Ok ms.
Proof.
  unfold now_ms, outside_run. destruct (Date_now (outside w)) as [ms x].
  simpl. split; [apply same_plugin_outside | eauto].
Qed.

(** The first half of [chat.message] changes nothing of the plugin; when it
    reaches a decision, the session has running work, the judge runtime was
    resolved and the decision was parsed from a response of the judge. *)
Lemma chat_message_decide_inv h evt parts w
  (r : Result (option Arbitration)) w' :
  chat_message_decide h evt parts w = (r, w') ->
  same_plugin w w'
  /\ (resolveJudgeRuntime h (getJudgeAuth w) (ce_model evt) = Ok None ->
      r = Ok None)
  /\ forall a,
       r = Ok (Some a) ->
       arb_active a = running_refs w (ce_sessionID evt)
       /\ arb_active a <> []
       /\ arb_prompt a = prompt_of parts
       /\ (exists raw, parseDecision raw = Some (arb_decision a))
       /\ (exists judge,
             resolveJudgeRuntime h (getJudgeAuth w) (ce_model evt)
             = Ok (Some judge)).
Proof.
  unfold chat_message_decide.
  destruct (getSessionRuntime_same (ce_sessionID evt) w) as [Hrt Hsame0].
  unfold bind at 1.
  destruct (getSessionRuntime (ce_sessionID evt) w) as [r0 w0]. simpl in Hrt, Hsame0.
  subst r0. unfold bind at 1. unfold gets at 1.
  rewrite (running_refs_same _ _ _ Hsame0).
  set (active := running_refs w (ce_sessionID evt)).
  destruct (Nat.eqb (length active) 0) eqn:Hlen.
  { intros [= <- <-]. split; [exact Hsame0|]. split; [reflexivity | discriminate]. }
  assert (Hactive : active <> []).
  { intros Heq. rewrite Heq in Hlen. discriminate. }
  destruct (Str.is_empty (prompt_of parts)).
  { intros [= <- <-]. split; [exact Hsame0|]. split; [reflexivity | discriminate]. }
  destruct (Str.includes (prompt_of parts) CONTROL_MARKER).
  { intros [= <- <-]. split; [exact Hsame0|]. split; [reflexivity | discriminate]. }
  unfold bind at 1. unfold gets at 1.
  assert (Hauth : getJudgeAuth w0 = getJudgeAuth w) by apply Hsame0.
  rewrite Hauth. unfold bind at 1. unfold lift at 1.
  destruct (resolveJudgeRuntime h (getJudgeAuth w) (ce_model evt))
    as [[judge|]|e] eqn:Hresolve.
  3: { intros [= <- <-]. split; [exact Hsame0|]. split; discriminate. }
  2: { intros [= <- <-]. split; [exact Hsame0|]. split; [reflexivity | discriminate]. }
  unfold bind at 1. unfold lift at 1.
  destruct (identity_name h) as [name|e].
  2: { intros [= <- <-]. split; [exact Hsame0|]. split; discriminate. }
  unfold bind at 1.
  destruct (now_ms_same w0) as [Hsame1 [ms Hms]].
  destruct (now_ms w0) as [rms w1]. simpl in Hsame1, Hms. subst rms.
  unfold bind at 1. unfold gets at 1. unfold bind at 1.
  pose proof (decideOrchestration_outside
                (input_json (toISOString ms) (prompt_of parts) name (items_of w1 active))
                judge w1) as [Hsame2 Hparsed].
  destruct (decideOrchestration _ _ _ w1) as [[d|e] w2]; simpl in Hsame2, Hparsed.
  2: { intros [= <- <-]. split; [|split; discriminate].
       eapply same_plugin_trans; [|exact Hsame2].
       eapply same_plugin_trans; eassumption. }
  intros [= <- <-]. split.
  { eapply same_plugin_trans; [|exact Hsame2].
    eapply same_plugin_trans; eassumption. }
  split; [discriminate|].
  intros a [= <-]. simpl. repeat split; eauto.
Qed.

(** *** The second half of the hook, decision by decision *)

Lemma apply_abort_run h evt parts (a : Arbitration) w :
  action (arb_decision a) = Abort ->
  chat_message_apply h evt parts a w
  = (Ok (inject parts
           (decisionText (arb_decision a)
              (CONTROL_MARKER +:+ " continue-current-plan"))),
     after_abort h (ce_sessionID evt) w).
Proof.
  intros Haction. unfold chat_message_apply, when, is_abort, is_defer, is_parallel.
  rewrite Haction. unfold after_abort.
  destruct (abortSession_calls h (ce_sessionID evt) w) as (issued & Hrun & _).
  unfold bind at 1. unfold bind at 1. rewrite Hrun. simpl.
  unfold bind, assign_deferred, assign_parallel, modify, ret, gets. simpl.
  unfold formatRuntimeState, runtime_of. simpl. rewrite !lookup_insert_eq. simpl.
  reflexivity.
Qed.

Lemma apply_defer_run h evt parts (a : Arbitration) w
  (r0 : ref) (rest : list ref) (top : ActiveWorkItem) :
  action (arb_decision a) = Defer ->
  arb_active a = r0 :: rest ->
  heap w !! r0 = Some top ->
  let w2 := after_defer (ce_sessionID evt) top (deferUntil (arb_decision a)) w in
  chat_message_apply h evt parts a w
  = (Ok (inject parts
           (decisionText (arb_decision a)
              (formatRuntimeState w2 (runtime_of w2 (ce_sessionID evt))))),
     w2).
Proof.
  intros Haction Hactive Htop. unfold chat_message_apply, when, is_abort, is_defer, is_parallel.
  rewrite Haction. unfold applyDefer. rewrite Hactive.
  unfold bind, gets, ret, alloc, assign_deferred, modify. simpl. rewrite Htop.
  reflexivity.
Qed.

(** The second half never throws, keeps the lists of the tracker, and only
    adds objects to the store. *)
Lemma chat_message_apply_frame h evt parts (a : Arbitration) w :
  exists parts' w2 new,
    chat_message_apply h evt parts a w = (Ok parts', w2)
    /\ sessions w2 = sessions w
    /\ heap w2 = heap w ++ new.
Proof.
  destruct (action (arb_decision a)) eqn:Haction.
  - rewrite (apply_abort_run _ _ _ _ _ Haction).
    destruct (abortSession_calls h (ce_sessionID evt) w) as (issued & Hrun & _).
    do 2 eexists. exists []. split; [reflexivity|]. unfold after_abort.
    rewrite Hrun. simpl. rewrite app_nil_r. split; reflexivity.
  - unfold chat_message_apply, when, is_abort, is_defer, is_parallel.
    rewrite Haction. unfold applyDefer.
    destruct (arb_active a) as [|r0 rest].
    { do 2 eexists. exists []. unfold bind, gets, ret. simpl.
      rewrite app_nil_r. repeat split. }
    unfold bind, gets, ret, alloc, assign_deferred, modify. simpl.
    destruct (heap w !! r0) as [top|].
    + do 2 eexists. eexists [_]. simpl. repeat split.
    + do 2 eexists. exists []. simpl. rewrite app_nil_r. repeat split.
  - unfold chat_message_apply, when, is_abort, is_defer, is_parallel.
    rewrite Haction. unfold applyParallel, now_ms, outside_run.
    unfold bind, gets, ret, alloc, assign_parallel, modify. simpl.
    destruct (Date_now (outside w)) as [stamp x1]. simpl.
    destruct (Date_now x1) as [started x2]. simpl.
    do 2 eexists. eexists [_]. repeat split.
  - unfold chat_message_apply, when, is_abort, is_defer, is_parallel.
    rewrite Haction. unfold bind, gets, ret. simpl.
    do 2 eexists. exists []. rewrite app_nil_r. repeat split.
Qed.



Lemma running_refs_head w (s : string) (r0 : ref) (rest : list ref) :
  running_refs w s = r0 :: rest ->
  exists top, heap w !! r0 = Some top /\ status top = Running.
Proof.
  intros Hrun. assert (Hin : In r0 (running_refs w s)).
  { rewrite Hrun. left. reflexivity. }
  unfold running_refs in Hin. apply filter_In in Hin as [_ Hok].
  destruct (heap w !! r0) as [top|]; [|discriminate].
  exists top. split; [reflexivity|]. destruct (status top); try discriminate.
  reflexivity.
Qed.


Lemma chat_message_run h evt parts w (a : Arbitration) w1 :
  chat_message_decide h evt parts w = (Ok (Some a), w1) ->
  chat_message h evt parts w = chat_message_apply h evt parts a w1.
Proof. intros Hdecide. unfold chat_message, bind. rewrite Hdecide. reflexivity. Qed.

(** C5 (as amended): when the arbitration of a session gives an abort
    decision, both queues of the session are empty after the hook,
    whatever they held, and the host receives one call of its session
    control when it has one (abort, else promptAsync, else prompt) and no
    call when it has none. *)
Theorem abort_clears_both_queues h evt parts w (a : Arbitration) w1 :
  chat_message_decide h evt parts w = (Ok (Some a), w1) ->
  action (arb_decision a) = Abort ->
  exists parts' w2 issued,
    chat_message h evt parts w = (Ok parts', w2)
    /\ deferred (runtime_of w2 (ce_sessionID evt)) = []
    /\ parallel (runtime_of w2 (ce_sessionID evt)) = []
    /\ calls w2 = calls w ++ issued
    /\ issued =
       (if has_abort h then [CallAbort (ce_sessionID evt)]
        else if has_promptAsync h then
          [CallPromptAsync (ce_sessionID evt) ABORT_TEXT]
        else if has_prompt h then [CallPrompt (ce_sessionID evt) ABORT_TEXT]
        else [])
    /\ length issued
       = (if has_abort h || has_promptAsync h || has_prompt h then 1 else 0)%nat.
Proof.
  intros Hdecide Haction.
  destruct (chat_message_decide_inv _ _ _ _ _ _ Hdecide) as ((_ & _ & _ & Hcalls & _) & _).
  rewrite (chat_message_run _ _ _ _ _ _ Hdecide).
  rewrite (apply_abort_run _ _ _ _ _ Haction).
  destruct (abortSession_calls h (ce_sessionID evt) w1) as (issued & Hrun & Hissued).
  do 2 eexists. exists issued. split; [reflexivity|].
  unfold after_abort, runtime_of. simpl. rewrite lookup_insert_eq. simpl.
  split; [reflexivity|]. split; [reflexivity|].
  rewrite Hrun. simpl. rewrite Hcalls.
  split; [reflexivity|]. split; [exact Hissued|].
  rewrite Hissued. destruct (has_abort h), (has_promptAsync h), (has_prompt h);
    reflexivity.
Qed.


Lemma chat_message_preserves_tracker h evt parts w
  (r : Result (list Part)) w' :
  chat_message h evt parts w = (r, w') ->
  sessions w' = sessions w /\ exists new, heap w' = heap w ++ new.
Proof.
  unfold chat_message, bind.
  destruct (chat_message_decide h evt parts w) as [[[a|]|e] w1] eqn:Hdecide.
  - destruct (chat_message_decide_inv _ _ _ _ _ _ Hdecide) as ((Hheap & Hsessions & _) & _).
    destruct (chat_message_apply_frame h evt parts a w1)
      as (parts' & w2 & new & Hrun & Hs & Hh).
    rewrite Hrun. intros [= <- <-]. split; [congruence|].
    exists new. congruence.
  - destruct (chat_message_decide_inv _ _ _ _ _ _ Hdecide) as ((Hheap & Hsessions & _) & _).
    intros [= <- <-]. split; [exact Hsessions|]. exists []. rewrite app_nil_r. exact Hheap.
  - destruct (chat_message_decide_inv _ _ _ _ _ _ Hdecide) as ((Hheap & Hsessions & _) & _).
    intros [= <- <-]. split; [exact Hsessions|]. exists []. rewrite app_nil_r. exact Hheap.
Qed.

Lemma running_refs_after_copy w w2 (s : string) (c : ActiveWorkItem) :
  heap w2 = heap w ++ [c] ->
  sessions w2 = sessions w ->
  status c = Blocked ->
  running_refs w2 s = running_refs w s.
Proof.
  intros Hheap Hsessions Hblocked. unfold running_refs, work_of.
  rewrite Hsessions, Hheap. apply filter_ext. intros r.
  destruct (Nat.lt_trichotomy r (length (heap w))) as [Hlt|[->|Hgt]].
  - rewrite lookup_app_l by exact Hlt. reflexivity.
  - rewrite lookup_app_r by reflexivity. rewrite Nat.sub_diag. simpl.
    rewrite Hblocked. rewrite (lookup_ge_None_2 (heap w)) by reflexivity.
    reflexivity.
  - rewrite (lookup_ge_None_2 (heap w)) by lia.
    rewrite lookup_ge_None_2; [reflexivity|]. rewrite length_app. simpl. lia.
Qed.

(** C9: a defer decision leaves the tracker as it was: the list of the
    session and every object of the store are unchanged, the item at the
    head of the active list keeps its status running and its title, and the
    active list is the same for the next arbitration; the head of the
    deferred queue is another object, new in the store, a copy of that item
    with the status blocked. *)
Theorem defer_keeps_tracker_item_running h evt parts w (a : Arbitration) w1 :
  chat_message_decide h evt parts w = (Ok (Some a), w1) ->
  action (arb_decision a) = Defer ->
  exists r0 rest top parts' w2 copy,
    running_refs w (ce_sessionID evt) = r0 :: rest
    /\ heap w !! r0 = Some top
    /\ status top = Running
    /\ chat_message h evt parts w = (Ok parts', w2)
    /\ sessions w2 = sessions w
    /\ (forall r item, heap w !! r = Some item -> heap w2 !! r = Some item)
    /\ heap w2 !! r0 = Some top
    /\ running_refs w2 (ce_sessionID evt) = running_refs w (ce_sessionID evt)
    /\ head (deferred (runtime_of w2 (ce_sessionID evt))) = Some copy
    /\ copy <> r0
    /\ heap w !! copy = None
    /\ heap w2 !! copy
       = Some {| id := id top;
                 title := defer_marker top (deferUntil (arb_decision a));
                 status := Blocked;
                 item_priority := item_priority top;
                 startedAt := startedAt top |}.
Proof.
  intros Hdecide Haction.
  destruct (chat_message_decide_inv _ _ _ _ _ _ Hdecide)
    as ((Hheap & Hsessions & _ & _ & Hruntime) & _ & Hinv).
  destruct (Hinv a eq_refl) as (Hactive & Hne & _ & _ & _).
  destruct (arb_active a) as [|r0 rest] eqn:Hlist; [congruence|].
  destruct (running_refs_head w (ce_sessionID evt) r0 rest (eq_sym Hactive))
    as (top & Htop & Hrunning).
  assert (Htop1 : heap w1 !! r0 = Some top) by (rewrite Hheap; exact Htop).
  exists r0, rest, top. do 2 eexists. exists (length (heap w)).
  split; [symmetry; exact Hactive|]. split; [exact Htop|]. split; [exact Hrunning|].
  rewrite (chat_message_run _ _ _ _ _ _ Hdecide).
  rewrite (apply_defer_run _ _ _ _ _ r0 rest top Haction Hlist Htop1).
  cbv zeta. split; [reflexivity|].
  set (w2 := after_defer (ce_sessionID evt) top (deferUntil (arb_decision a)) w1).
  assert (Hh2 : heap w2
                = heap w ++ [deferred_copy top (deferUntil (arb_decision a))]).
  { unfold w2, after_defer. simpl. rewrite Hheap. reflexivity. }
  assert (Hs2 : sessions w2 = sessions w).
  { unfold w2, after_defer. simpl. exact Hsessions. }
  assert (Hfresh : heap w !! length (heap w) = None).
  { apply lookup_ge_None_2. reflexivity. }
  split; [exact Hs2|].
  split.
  { intros r item Hitem. rewrite Hh2. apply lookup_app_l_Some. exact Hitem. }
  split.
  { rewrite Hh2. apply lookup_app_l_Some. exact Htop. }
  split.
  { apply (running_refs_after_copy w w2 _ _ Hh2 Hs2). reflexivity. }
  split.
  { unfold w2, after_defer. unfold runtime_of at 1. simpl.
    rewrite lookup_insert_eq. simpl. rewrite Hheap. reflexivity. }
  split.
  { intros Heq. apply lookup_lt_Some in Htop. lia. }
  split; [exact Hfresh|].
  rewrite Hh2. rewrite lookup_app_r by reflexivity. rewrite Nat.sub_diag.
  reflexivity.
Qed.

(** C10: when the judge runtime resolves to nothing (no judge configured,
    or no credential found), the chat-message hook returns without an
    error and leaves the parts of the message, the queues of every
    session, the tracker and the calls on the host as they were, and the
    [open_machina_decide] tool throws an error with the code
    AUTONOMY_JUDGE_UNAVAILABLE. *)
Theorem unavailable_judge_hook_silent_tool_throws h evt parts
  (args input : JValue) (hint : option ModelRef) w :
  ce_model evt = hint ->
  parseModelRef (Json.get args "model") = hint ->
  Json.get args "input" = Some input ->
  isRecord input = true ->
  resolveJudgeRuntime h (getJudgeAuth w) hint = Ok None ->
  (exists w',
     chat_message h evt parts w = (Ok parts, w')
     /\ (forall s, runtime_of w' s = runtime_of w s)
     /\ heap w' = heap w
     /\ sessions w' = sessions w
     /\ calls w' = calls w)
  /\ open_machina_decide h args w = (Throw UNAVAILABLE, w)
  /\ Str.includes UNAVAILABLE "AUTONOMY_JUDGE_UNAVAILABLE" = true.
Proof.
  intros Hevt Hargs Hinput Hrecord Hresolve. split.
  - destruct (chat_message_decide h evt parts w) as [r w1] eqn:Hdecide.
    destruct (chat_message_decide_inv _ _ _ _ _ _ Hdecide)
      as ((Hheap & Hsessions & _ & Hcalls & Hruntime) & Hnone & _).
    rewrite Hevt in Hnone. specialize (Hnone Hresolve). subst r.
    exists w1. unfold chat_message, bind. rewrite Hdecide. auto.
  - split; [|vm_compute; reflexivity].
    unfold open_machina_decide. rewrite Hinput.
    destruct input; try discriminate.
    + unfold bind, gets, lift, throw. simpl. rewrite Hargs, Hresolve. reflexivity.
    + unfold bind, gets, lift, throw. simpl. rewrite Hargs, Hresolve. reflexivity.
Qed.

End HookProperties.

(** *** The scenarios of index.test.ts *)

(** C5, on a host that has the abort call and a session with one deferred
    and one parallel entry: both queues are empty after the abort decision
    and the host received the one abort call. *)
Lemma abort_clears_both_queues_witness :
  chat_message_decide (Scenario.judge_host true false false)
    (Scenario.chat "s-1") Scenario.stop_parts Scenario.abort_world
  = (Ok (Some Scenario.abort_arbitration),
     (chat_message_decide (Scenario.judge_host true false false)
        (Scenario.chat "s-1") Scenario.stop_parts Scenario.abort_world).2)
  /\ action (arb_decision Scenario.abort_arbitration) = Abort
  /\ deferred (runtime_of Scenario.abort_world "s-1") = [1%nat]
  /\ parallel (runtime_of Scenario.abort_world "s-1") = [2%nat]
  /\ exists parts' w2 issued,
       chat_message (Scenario.judge_host true false false)
         (Scenario.chat "s-1") Scenario.stop_parts Scenario.abort_world
       = (Ok parts', w2)
       /\ deferred (runtime_of w2 "s-1") = []
       /\ parallel (runtime_of w2 "s-1") = []
       /\ calls w2 = calls Scenario.abort_world ++ issued
       /\ issued = [CallAbort "s-1"]
       /\ length issued = 1%nat.
Proof.
  split; [vm_compute; reflexivity|]. split; [reflexivity|].
  split; [vm_compute; reflexivity|]. split; [vm_compute; reflexivity|].
  apply (abort_clears_both_queues (Scenario.judge_host true false false)
           (Scenario.chat "s-1") Scenario.stop_parts Scenario.abort_world
           Scenario.abort_arbitration
           (chat_message_decide (Scenario.judge_host true false false)
              (Scenario.chat "s-1") Scenario.stop_parts Scenario.abort_world).2).
  - vm_compute. reflexivity.
  - reflexivity.
Defined.

(** C5, the claim as stated fails: on a host whose session control has
    none of the three calls (the [session: {}] of the tests), the abort
    decision empties the two queues and no call at all reaches the host. *)
Lemma abort_without_session_control_issues_no_call :
  (chat_message_decide (Scenario.judge_host false false false)
     (Scenario.chat "s-1") Scenario.stop_parts Scenario.abort_world).1
  = Ok (Some Scenario.abort_arbitration)
  /\ action (arb_decision Scenario.abort_arbitration) = Abort
  /\ (chat_message (Scenario.judge_host false false false)
        (Scenario.chat "s-1") Scenario.stop_parts Scenario.abort_world).1
     = Ok [Scenario.text_part
             (Str.join Str.nl [
                "[OPEN-MACHINA ORCHESTRATION DECISION]";
                "action=abort";
                "priority=critical";
                "confidence=0.91";
                "reason=urgent user interruption";
                "[OPEN-MACHINA CONTROL] continue-current-plan";
                "";
                "---";
                "";
                "Stop current task and handle incident now"])]
  /\ runtime_of
       (chat_message (Scenario.judge_host false false false)
          (Scenario.chat "s-1") Scenario.stop_parts Scenario.abort_world).2 "s-1"
     = empty_runtime
  /\ calls
       (chat_message (Scenario.judge_host false false false)
          (Scenario.chat "s-1") Scenario.stop_parts Scenario.abort_world).2
     = [].
Proof. repeat split; vm_compute; reflexivity. Qed.

(** C6, the claim as stated fails: on a host that has both prompt calls
    and no abort call, the call made is promptAsync, not the synchronous
    prompt. *)
Lemma abortSession_prefers_promptAsync_over_prompt :
  has_prompt (Scenario.judge_host false true true) = true
  /\ has_promptAsync (Scenario.judge_host false true true) = true
  /\ has_abort (Scenario.judge_host false true true) = false
  /\ calls (abortSession (Scenario.judge_host false true true) "s-1"
              Scenario.abort_world).2
     = [CallPromptAsync "s-1" ABORT_TEXT].
Proof. repeat split; vm_compute; reflexivity. Qed.


(** C9, on a session with a running item and earlier queue entries: after
    the defer decision the running items of the tracker are the one item,
    as it was. *)
Lemma defer_keeps_tracker_item_running_witness :
  chat_message_decide (Scenario.judge_host false false false)
    (Scenario.chat "s-1") Scenario.defer_parts
    (Scenario.busy_world [Scenario.defer_answer] "s-1")
  = (Ok (Some Scenario.defer_arbitration),
     (chat_message_decide (Scenario.judge_host false false false)
        (Scenario.chat "s-1") Scenario.defer_parts
        (Scenario.busy_world [Scenario.defer_answer] "s-1")).2)
  /\ action (arb_decision Scenario.defer_arbitration) = Defer
  /\ (exists r0 rest top parts' w2 copy,
        running_refs (Scenario.busy_world [Scenario.defer_answer] "s-1") "s-1"
        = r0 :: rest
        /\ heap (Scenario.busy_world [Scenario.defer_answer] "s-1") !! r0 = Some top
        /\ status top = Running
        /\ chat_message (Scenario.judge_host false false false)
             (Scenario.chat "s-1") Scenario.defer_parts
             (Scenario.busy_world [Scenario.defer_answer] "s-1")
           = (Ok parts', w2)
        /\ sessions w2 = sessions (Scenario.busy_world [Scenario.defer_answer] "s-1")
        /\ (forall r item,
              heap (Scenario.busy_world [Scenario.defer_answer] "s-1") !! r = Some item ->
              heap w2 !! r = Some item)
        /\ heap w2 !! r0 = Some top
        /\ running_refs w2 "s-1"
           = running_refs (Scenario.busy_world [Scenario.defer_answer] "s-1") "s-1"
        /\ head (deferred (runtime_of w2 "s-1")) = Some copy
        /\ copy <> r0
        /\ heap (Scenario.busy_world [Scenario.defer_answer] "s-1") !! copy = None
        /\ heap w2 !! copy
           = Some {| id := id top;
                     title :=
                       defer_marker top
                         (deferUntil (arb_decision Scenario.defer_arbitration));
                     status := Blocked;
                     item_priority := item_priority top;
                     startedAt := startedAt top |})
  /\ items_of
       (chat_message (Scenario.judge_host false false false)
          (Scenario.chat "s-1") Scenario.defer_parts
          (Scenario.busy_world [Scenario.defer_answer] "s-1")).2
       (running_refs
          (chat_message (Scenario.judge_host false false false)
             (Scenario.chat "s-1") Scenario.defer_parts
             (Scenario.busy_world [Scenario.defer_answer] "s-1")).2 "s-1")
     = [Scenario.workflow_item].
Proof.
  split; [vm_compute; reflexivity|]. split; [reflexivity|].
  split; [|vm_compute; reflexivity].
  apply (defer_keeps_tracker_item_running (Scenario.judge_host false false false)
           (Scenario.chat "s-1") Scenario.defer_parts
           (Scenario.busy_world [Scenario.defer_answer] "s-1")
           Scenario.defer_arbitration
           (chat_message_decide (Scenario.judge_host false false false)
              (Scenario.chat "s-1") Scenario.defer_parts
              (Scenario.busy_world [Scenario.defer_answer] "s-1")).2).
  - vm_compute. reflexivity.
  - reflexivity.
Defined.

(** C10, on a host without a configured judge model: the hook returns the
    parts as they were, the tool throws. *)
Lemma unavailable_judge_hook_silent_tool_throws_witness :
  ce_model (Scenario.chat "s-1") = None
  /\ parseModelRef (Json.get Scenario.decide_args "model") = None
  /\ Json.get Scenario.decide_args "input" = Some (JObject [])
  /\ isRecord (JObject []) = true
  /\ resolveJudgeRuntime Scenario.unconfigured_host
       (getJudgeAuth Scenario.idle_judge_world) None
     = Ok None
  /\ (exists w',
        chat_message Scenario.unconfigured_host (Scenario.chat "s-1")
          Scenario.stop_parts Scenario.idle_judge_world
        = (Ok Scenario.stop_parts, w')
        /\ (forall s, runtime_of w' s = runtime_of Scenario.idle_judge_world s)
        /\ heap w' = heap Scenario.idle_judge_world
        /\ sessions w' = sessions Scenario.idle_judge_world
        /\ calls w' = calls Scenario.idle_judge_world)
  /\ open_machina_decide Scenario.unconfigured_host Scenario.decide_args
       Scenario.idle_judge_world
     = (Throw UNAVAILABLE, Scenario.idle_judge_world)
  /\ Str.includes UNAVAILABLE "AUTONOMY_JUDGE_UNAVAILABLE" = true.
Proof.
  split; [reflexivity|]. split; [reflexivity|]. split; [reflexivity|].
  split; [reflexivity|]. split; [vm_compute; reflexivity|].
  apply (unavailable_judge_hook_silent_tool_throws Scenario.unconfigured_host
           (Scenario.chat "s-1") Scenario.stop_parts Scenario.decide_args
           (JObject []) None Scenario.idle_judge_world);
    vm_compute; reflexivity.
Defined.

(** The judge is configured and no credential is found: the same two
    outcomes. *)
Example no_credential_is_unavailable :
  resolveJudgeRuntime Scenario.no_credential_host None None = Ok None
  /\ chat_message Scenario.no_credential_host (Scenario.chat "s-1")
       Scenario.stop_parts Scenario.idle_judge_world
     = (Ok Scenario.stop_parts, Scenario.idle_judge_world)
  /\ open_machina_decide Scenario.no_credential_host Scenario.decide_args
       Scenario.idle_judge_world
     = (Throw UNAVAILABLE, Scenario.idle_judge_world).
Proof. repeat split; vm_compute; reflexivity. Qed.

(** index.test.ts, chat.message uses AI decision and injects orchestration
    context: one abort call, and the decision block in the first part. *)
Example chat_message_abort_scenario :
  calls (chat_message (Scenario.judge_host true false false)
           (Scenario.chat "s-1") Scenario.stop_parts Scenario.abort_world).2
  = [CallAbort "s-1"]
  /\ (chat_message (Scenario.judge_host true false false)
        (Scenario.chat "s-1") Scenario.stop_parts Scenario.abort_world).1
     = Ok [Scenario.text_part
             (Str.join Str.nl [
                "[OPEN-MACHINA ORCHESTRATION DECISION]";
                "action=abort";
                "priority=critical";
                "confidence=0.91";
                "reason=urgent user interruption";
                "[OPEN-MACHINA CONTROL] continue-current-plan";
                "";
                "---";
                "";
                "Stop current task and handle incident now"])].
Proof. split; vm_compute; reflexivity. Qed.

(** A message that already carries the control marker starts no
    arbitration: the judge is not called and nothing changes. *)
Example chat_message_skips_injected_message :
  chat_message (Scenario.judge_host true false false) (Scenario.chat "s-1")
    [Scenario.text_part "[OPEN-MACHINA CONTROL] continue-current-plan"]
    Scenario.abort_world
  = (Ok [Scenario.text_part "[OPEN-MACHINA CONTROL] continue-current-plan"],
     Scenario.abort_world).
Proof. vm_compute. reflexivity. Qed.

(** index.test.ts, chat.message applies defer and parallel execution paths:
    the two decision blocks report the queues, and the workspace holds one
    deferred entry titled with the suffix and one parallel entry. *)
Example chat_message_defer_then_parallel :
  let run := Scenario.defer_then_parallel (Scenario.judge_host false false false)
               (Scenario.fresh_world [Scenario.defer_answer;
                                      Scenario.parallel_answer]) in
  (exists first second,
     run.1 = Ok ([Scenario.text_part first], [Scenario.text_part second])
     /\ Str.includes first "action=defer" = true
     /\ Str.includes first "deferred=1" = true
     /\ Str.includes second "action=parallel" = true
     /\ Str.includes second "parallel=1" = true)
  /\ title <$> items_of run.2 (deferred (runtime_of run.2 "s-2"))
     = ["workflow.run (until 2099-01-01T00:00:00.000Z)"]
  /\ title <$> items_of run.2 (parallel (runtime_of run.2 "s-2"))
     = ["background x2: also execute another branch in parallel"]
  /\ status <$> items_of run.2 (work_of run.2 "s-2") = [Running].
Proof.
  cbv zeta. split.
  - do 2 eexists. split; [vm_compute; reflexivity|].
    repeat split; vm_compute; reflexivity.
  - repeat split; vm_compute; reflexivity.
Qed.

(** Move to front: the earlier copy of the running item leaves the
    deferred queue, the entry of the other item stays behind the new
    copy. *)
Example defer_again_moves_to_front :
  let w2 := (chat_message (Scenario.judge_host false false false)
               (Scenario.chat "s-1") Scenario.defer_parts
               Scenario.redefer_world).2 in
  deferred (runtime_of Scenario.redefer_world "s-1") = [1%nat; 2%nat]
  /\ deferred (runtime_of w2 "s-1") = [3%nat; 1%nat]
  /\ title <$> items_of w2 (deferred (runtime_of w2 "s-1"))
     = ["workflow.run (until 2099-01-01T00:00:00.000Z)"; "storage.sync"].
Proof. cbv zeta. repeat split; vm_compute; reflexivity. Qed.

(** The cap: with sixteen entries in the deferred queue, the new copy
    comes first and the last entry is dropped. *)
Example defer_caps_the_queue :
  let w2 := (chat_message (Scenario.judge_host false false false)
               (Scenario.chat "s-1") Scenario.defer_parts
               Scenario.full_world).2 in
  deferred (runtime_of Scenario.full_world "s-1") = seq 1 16
  /\ deferred (runtime_of w2 "s-1") = 17%nat :: seq 1 15.
Proof. cbv zeta. split; vm_compute; reflexivity. Qed.

(** The tracker and the queues hold different objects: when the tool call
    ends after its item was deferred, the item of the tracker becomes
    queued and the deferred copy stays blocked. *)
Example tool_end_after_defer :
  let run :=
    (deferred_first <- Scenario.defer_then_parallel
                         (Scenario.judge_host false false false) ;;
     tool_execute_after {| te_tool := "workflow.run";
                           te_sessionID := "s-2";
                           te_callID := "c-1" |})%M
      (Scenario.fresh_world [Scenario.defer_answer; Scenario.parallel_answer]) in
  run.1 = Ok tt
  /\ status <$> items_of run.2 (work_of run.2 "s-2") = [Queued]
  /\ status <$> items_of run.2 (deferred (runtime_of run.2 "s-2")) = [Blocked]
  /\ running_refs run.2 "s-2" = [].
Proof. cbv zeta. repeat split; vm_compute; reflexivity. Qed.

(** * Further properties *)

(** ** Further properties of the strings *)

Lemma chars_app (a b : string) :
  Str.chars (a +:+ b) = Str.chars a ++ Str.chars b.
Proof. induction a as [|c a IH]; simpl; [reflexivity|]. f_equal. exact IH. Qed.

Lemma pack_chars (s : string) : Str.pack (Str.chars s) = s.
Proof. apply String.string_of_list_ascii_of_string. Qed.

Lemma chars_pack (l : list ascii) : Str.chars (Str.pack l) = l.
Proof. apply String.list_ascii_of_string_of_list_ascii. Qed.

Lemma ws2_high (a b : ascii) :
  Str.ws2 a b = true -> (128 <= Str.code a)%N /\ (128 <= Str.code b)%N.
Proof.
  unfold Str.ws2. intros Hw. apply andb_prop in Hw as [Ha Hb].
  apply N.eqb_eq in Ha, Hb. lia.
Qed.

Lemma ws3_high (a b c : ascii) :
  Str.ws3 a b c = true
  -> (128 <= Str.code a)%N /\ (128 <= Str.code b)%N /\ (128 <= Str.code c)%N.
Proof.
  unfold Str.ws3. cbv zeta. intros Hw.
  repeat match goal with
         | K : _ || _ = true |- _ => apply orb_prop in K as [K|K]
         | K : _ && _ = true |- _ =>
             let K1 := fresh "K" in let K2 := fresh "K" in
             apply andb_prop in K as [K1 K2]
         | K : (_ =? _)%N = true |- _ => apply N.eqb_eq in K
         | K : (_ <=? _)%N = true |- _ => apply N.leb_le in K
         end; lia.
Qed.

(** [strip] removes a prefix of removable bytes. *)
Lemma strip_decompose (fwd : bool) (s : list ascii) :
  exists removed,
    s = removed ++ Str.strip fwd s /\ Forall removable removed.
Proof.
  remember (length s) as n eqn:Hn. revert s Hn.
  induction n as [n IH] using lt_wf_ind. intros s Hn.
  destruct s as [|c1 r1]; [exists []; split; [reflexivity | constructor]|].
  simpl. destruct (Str.ws1 c1) eqn:H1.
  { destruct (IH (length r1) ltac:(simpl in Hn; lia) r1 eq_refl) as (rem & Heq & Hall).
    exists (c1 :: rem). split; [simpl; f_equal; exact Heq|].
    constructor; [left; exact H1 | exact Hall]. }
  destruct r1 as [|c2 r2]; [exists []; split; [reflexivity | constructor]|].
  destruct (if fwd then Str.ws2 c1 c2 else Str.ws2 c2 c1) eqn:H2.
  { destruct (IH (length r2) ltac:(simpl in Hn; lia) r2 eq_refl) as (rem & Heq & Hall).
    exists (c1 :: c2 :: rem). split; [simpl; do 2 f_equal; exact Heq|].
    assert ((128 <= Str.code c1)%N /\ (128 <= Str.code c2)%N) as [Ha Hb].
    { destruct fwd; apply ws2_high in H2; tauto. }
    constructor; [right; exact Ha|].
    constructor; [right; exact Hb | exact Hall]. }
  destruct r2 as [|c3 r3]; [exists []; split; [reflexivity | constructor]|].
  destruct (if fwd then Str.ws3 c1 c2 c3 else Str.ws3 c3 c2 c1) eqn:H3.
  { destruct (IH (length r3) ltac:(simpl in Hn; lia) r3 eq_refl) as (rem & Heq & Hall).
    exists (c1 :: c2 :: c3 :: rem). split; [simpl; do 3 f_equal; exact Heq|].
    assert ((128 <= Str.code c1)%N /\ (128 <= Str.code c2)%N
            /\ (128 <= Str.code c3)%N) as (Ha & Hb & Hc).
    { destruct fwd; apply ws3_high in H3; tauto. }
    constructor; [right; exact Ha|].
    constructor; [right; exact Hb|].
    constructor; [right; exact Hc | exact Hall]. }
  exists []. split; [reflexivity | constructor].
Qed.

(** [trim] cuts removable bytes from both ends. *)
Lemma trim_decompose (s : string) :
  exists front back,
    Str.chars s = front ++ Str.chars (Str.trim s) ++ back
    /\ Forall removable front /\ Forall removable back.
Proof.
  unfold Str.trim. rewrite chars_pack.
  destruct (strip_decompose true (Str.chars s)) as (front & Hfront & Hf).
  destruct (strip_decompose false (rev (Str.strip true (Str.chars s))))
    as (back & Hback & Hb).
  exists front, (rev back). split; [|split; [exact Hf|]].
  - rewrite Hfront at 1. f_equal.
    rewrite <- rev_app_distr, <- Hback, rev_involutive. reflexivity.
  - apply Forall_rev. exact Hb.
Qed.

Lemma trim_chars (s : string) (c : ascii) :
  c ∈ Str.chars (Str.trim s) -> c ∈ Str.chars s.
Proof.
  destruct (trim_decompose s) as (front & back & -> & _).
  intros Hc. rewrite !elem_of_app. tauto.
Qed.

Lemma elem_of_rev {A} (x : A) (l : list A) : x ∈ rev l <-> x ∈ l.
Proof. rewrite !list_elem_of_In. symmetry. apply in_rev. Qed.

Lemma split_chars_pieces (sep : ascii) (s : list ascii) :
  forall cur piece,
    sep ∉ cur ->
    piece ∈ Str.split_chars sep cur s ->
    sep ∉ Str.chars piece.
Proof.
  induction s as [|c r IH]; intros cur piece Hcur; simpl.
  - rewrite list_elem_of_singleton. intros ->. rewrite chars_pack.
    rewrite elem_of_rev. exact Hcur.
  - destruct (Ascii.eqb_spec c sep) as [->|Hne].
    + rewrite elem_of_cons. intros [->|Hin].
      * rewrite chars_pack, elem_of_rev. exact Hcur.
      * apply (IH [] piece); [apply not_elem_of_nil | exact Hin].
    + apply IH. rewrite not_elem_of_cons. split; [congruence | exact Hcur].
Qed.

Lemma split_pieces (sep : ascii) (s piece : string) :
  piece ∈ Str.split sep s -> sep ∉ Str.chars piece.
Proof. apply split_chars_pieces. apply not_elem_of_nil. Qed.

(** *** [trim] twice *)

Lemma strip_clean (fwd : bool) (s : list ascii) :
  clean fwd (Str.strip fwd s) = true.
Proof.
  remember (length s) as n eqn:Hn. revert s Hn.
  induction n as [n IH] using lt_wf_ind. intros s Hn.
  destruct s as [|c1 r1]; [reflexivity|].
  simpl Str.strip. destruct (Str.ws1 c1) eqn:H1.
  { apply (IH (length r1)); [simpl in Hn; lia | reflexivity]. }
  destruct r1 as [|c2 r2]; [simpl; rewrite H1; reflexivity|].
  destruct (if fwd then Str.ws2 c1 c2 else Str.ws2 c2 c1) eqn:H2.
  { apply (IH (length r2)); [simpl in Hn; lia | reflexivity]. }
  destruct r2 as [|c3 r3]; [simpl; rewrite H1, H2; reflexivity|].
  destruct (if fwd then Str.ws3 c1 c2 c3 else Str.ws3 c3 c2 c1) eqn:H3.
  { apply (IH (length r3)); [simpl in Hn; lia | reflexivity]. }
  simpl. rewrite H1, H2, H3. reflexivity.
Qed.

Lemma clean_strip (fwd : bool) (s : list ascii) :
  clean fwd s = true -> Str.strip fwd s = s.
Proof.
  destruct s as [|c1 r1]; [reflexivity|]. simpl.
  destruct (Str.ws1 c1); [discriminate|]. simpl.
  destruct r1 as [|c2 r2]; [reflexivity|].
  destruct (if fwd then Str.ws2 c1 c2 else Str.ws2 c2 c1); [discriminate|]. simpl.
  destruct r2 as [|c3 r3]; [reflexivity|].
  destruct (if fwd then Str.ws3 c1 c2 c3 else Str.ws3 c3 c2 c1); [discriminate|].
  reflexivity.
Qed.

Lemma clean_prefix (fwd : bool) (s rest : list ascii) :
  clean fwd (s ++ rest) = true -> clean fwd s = true.
Proof.
  destruct s as [|c1 [|c2 [|c3 r3]]]; simpl; try reflexivity.
  - intros Hc. apply andb_prop in Hc as [H1 _]. rewrite H1. reflexivity.
  - intros Hc. apply andb_prop in Hc as [H1 Hc]. rewrite H1.
    apply andb_prop in Hc as [H2 _]. rewrite H2. reflexivity.
  - intros Hc. exact Hc.
Qed.

(** What [trim] returns has no white space at either end. *)
Lemma trim_clean (s : string) :
  clean true (Str.chars (Str.trim s)) = true
  /\ clean false (rev (Str.chars (Str.trim s))) = true.
Proof.
  unfold Str.trim. rewrite chars_pack.
  set (t := Str.strip true (Str.chars s)).
  set (u := Str.strip false (rev t)).
  rewrite rev_involutive. split; [|apply strip_clean].
  destruct (strip_decompose false (rev t)) as (removed & Heq & _).
  fold u in Heq. apply (clean_prefix true (rev u) (rev removed)).
  rewrite <- rev_app_distr, <- Heq, rev_involutive. apply strip_clean.
Qed.

Lemma trim_fixed (s : string) :
  clean true (Str.chars s) = true ->
  clean false (rev (Str.chars s)) = true ->
  Str.trim s = s.
Proof.
  intros Hfront Hback. unfold Str.trim.
  rewrite (clean_strip true _ Hfront), (clean_strip false _ Hback).
  rewrite rev_involutive. apply pack_chars.
Qed.

(** [s.trim().trim()] is [s.trim()]. *)
Lemma trim_idempotent (s : string) : Str.trim (Str.trim s) = Str.trim s.
Proof. destruct (trim_clean s) as [Hfront Hback]. apply trim_fixed; assumption. Qed.

(** An ASCII character after a text does not turn the start of the text
    into white space. *)
Lemma clean_app_low (fwd : bool) (p rest : list ascii) (c : ascii) :
  p <> [] ->
  clean fwd p = true ->
  (Str.code c < 128)%N ->
  clean fwd (p ++ c :: rest) = true.
Proof.
  intros Hp Hclean Hlow.
  assert (H2 : forall a, (if fwd then Str.ws2 a c else Str.ws2 c a) = false).
  { intros a. destruct (if fwd then Str.ws2 a c else Str.ws2 c a) eqn:Hw;
      [|reflexivity]. destruct fwd; apply ws2_high in Hw; lia. }
  assert (H3 : forall a b, (if fwd then Str.ws3 a c b else Str.ws3 b c a) = false).
  { intros a b. destruct (if fwd then Str.ws3 a c b else Str.ws3 b c a) eqn:Hw;
      [|reflexivity]. destruct fwd; apply ws3_high in Hw; lia. }
  assert (H3' : forall a b, (if fwd then Str.ws3 a b c else Str.ws3 c b a) = false).
  { intros a b. destruct (if fwd then Str.ws3 a b c else Str.ws3 c b a) eqn:Hw;
      [|reflexivity]. destruct fwd; apply ws3_high in Hw; lia. }
  destruct p as [|c1 [|c2 [|c3 r3]]]; [congruence| | |].
  - simpl in *. apply andb_prop in Hclean as [H1 _]. rewrite H1, H2. simpl.
    destruct rest as [|c3 r3]; [reflexivity|]. rewrite H3. reflexivity.
  - simpl in *. apply andb_prop in Hclean as [H1 Hc]. rewrite H1.
    apply andb_prop in Hc as [Hw _]. rewrite Hw, H3'. reflexivity.
  - exact Hclean.
Qed.

(** *** [split] of a [join] *)

Lemma split_chars_last (sep : ascii) (l : list ascii) :
  forall cur,
    sep ∉ l -> Str.split_chars sep cur l = [Str.pack (rev cur ++ l)].
Proof.
  induction l as [|c l IH]; intros cur Hl; simpl.
  - rewrite app_nil_r. reflexivity.
  - rewrite not_elem_of_cons in Hl. destruct Hl as [Hc Hl].
    destruct (Ascii.eqb_spec c sep); [congruence|].
    rewrite (IH _ Hl). simpl. rewrite <- app_assoc. reflexivity.
Qed.

Lemma split_chars_first (sep : ascii) (l rest : list ascii) :
  forall cur,
    sep ∉ l ->
    Str.split_chars sep cur (l ++ sep :: rest)
    = Str.pack (rev cur ++ l) :: Str.split_chars sep [] rest.
Proof.
  induction l as [|c l IH]; intros cur Hl; simpl.
  - rewrite Ascii.eqb_refl, app_nil_r. reflexivity.
  - rewrite not_elem_of_cons in Hl. destruct Hl as [Hc Hl].
    destruct (Ascii.eqb_spec c sep); [congruence|].
    rewrite (IH _ Hl). simpl. rewrite <- app_assoc. reflexivity.
Qed.

Lemma split_join (sep : ascii) (pieces : list string) :
  pieces <> [] ->
  (forall p, p ∈ pieces -> sep ∉ Str.chars p) ->
  Str.split sep (Str.join (String sep "") pieces) = pieces.
Proof.
  unfold Str.split. induction pieces as [|x [|y r] IH]; intros Hne Hall.
  - congruence.
  - simpl Str.join. rewrite split_chars_last.
    + simpl. rewrite pack_chars. reflexivity.
    + apply Hall. apply elem_of_cons. left. reflexivity.
  - change (Str.join (String sep "") (x :: y :: r))
      with (x +:+ String sep "" +:+ Str.join (String sep "") (y :: r)).
    rewrite !chars_app. change (Str.chars (String sep "")) with [sep].
    simpl app. rewrite split_chars_first.
    + simpl. rewrite pack_chars. f_equal. apply IH; [discriminate|].
      intros p Hp. apply Hall. apply elem_of_cons. right. exact Hp.
    + apply Hall. apply elem_of_cons. left. reflexivity.
Qed.

Lemma split_chars_subset (sep : ascii) (s : list ascii) :
  forall cur piece c,
    piece ∈ Str.split_chars sep cur s ->
    c ∈ Str.chars piece ->
    c ∈ cur \/ c ∈ s.
Proof.
  induction s as [|a r IH]; intros cur piece c; simpl.
  - rewrite list_elem_of_singleton. intros ->. rewrite chars_pack, elem_of_rev.
    auto.
  - destruct (Ascii.eqb_spec a sep) as [->|Hne].
    + rewrite elem_of_cons. intros [->|Hin] Hc.
      * rewrite chars_pack, elem_of_rev in Hc. auto.
      * destruct (IH [] piece c Hin Hc) as [Hnil|Hr].
        -- apply elem_of_nil in Hnil. contradiction.
        -- right. apply elem_of_cons. right. exact Hr.
    + intros Hin Hc. destruct (IH (a :: cur) piece c Hin Hc) as [Hcur|Hr].
      * apply elem_of_cons in Hcur as [->|Hcur]; [|auto].
        right. apply elem_of_cons. left. reflexivity.
      * right. apply elem_of_cons. right. exact Hr.
Qed.

Lemma split_subset (sep : ascii) (s piece : string) (c : ascii) :
  piece ∈ Str.split sep s -> c ∈ Str.chars piece -> c ∈ Str.chars s.
Proof.
  intros Hin Hc. destruct (split_chars_subset sep _ [] piece c Hin Hc) as [Hnil|Hs].
  - apply elem_of_nil in Hnil. contradiction.
  - exact Hs.
Qed.

Lemma join_first_chars (sep first : string) (rest : list string) :
  exists tail, Str.chars (Str.join sep (first :: rest)) = Str.chars first ++ tail.
Proof.
  destruct rest as [|second rest].
  - exists []. simpl. rewrite app_nil_r. reflexivity.
  - eexists. simpl Str.join. rewrite chars_app. reflexivity.
Qed.


(** ** Further properties of the decision protocol *)

Lemma clampConcurrency_range (n : Q) : 1 <= clampConcurrency n <= 32.
Proof. unfold clampConcurrency. lia. Qed.

Lemma parseParallelPlan_range (input : option JValue) (plan : ParallelPlan) :
  parseParallelPlan input = Some plan -> 1 <= maxConcurrency plan <= 32.
Proof.
  unfold parseParallelPlan.
  destruct input as [v|]; [|discriminate].
  destruct (negb (isRecord v)); [discriminate|]. cbv zeta.
  destruct (Json.get v "lane") as [[| | |l| |]|]; try discriminate.
  destruct (Json.get v "maxConcurrency") as [[| |n| | |]|]; try discriminate.
  destruct (String.eqb l "foreground").
  { intros [= <-]. apply clampConcurrency_range. }
  destruct (String.eqb l "background"); [|discriminate].
  intros [= <-]. apply clampConcurrency_range.
Qed.

(** X1. [parseParallelPlan] (autonomy, lines 136-149): the concurrency of a
    plan is an integer between 1 and 32 whatever number the response holds:
    a number below 1 gives 1, a number from 32 on gives 32, and a number in
    between is rounded down. *)
Theorem parseParallelPlan_clamps (input : option JValue) (plan : ParallelPlan) :
  parseParallelPlan input = Some plan ->
  1 <= maxConcurrency plan <= 32
  /\ exists v n,
       input = Some v
       /\ Json.get v "maxConcurrency" = Some (JNumber n)
       /\ ((n < 1)%Q -> maxConcurrency plan = 1)
       /\ ((32 <= n)%Q -> maxConcurrency plan = 32)
       /\ ((1 <= n)%Q -> (n < 32)%Q -> maxConcurrency plan = Qfloor n).
Proof.
  unfold parseParallelPlan.
  destruct input as [v|]; [|discriminate].
  destruct (negb (isRecord v)); [discriminate|]. cbv zeta.
  destruct (Json.get v "lane") as [[| | |l| |]|]; try discriminate.
  destruct (Json.get v "maxConcurrency") as [[| |n| | |]|] eqn:Hn; try discriminate.
  assert (Hplan : forall ln,
    Some {| lane := ln; maxConcurrency := clampConcurrency n |} = Some plan ->
    1 <= maxConcurrency plan <= 32
    /\ exists v0 n0,
         Some v = Some v0
         /\ Json.get v0 "maxConcurrency" = Some (JNumber n0)
         /\ ((n0 < 1)%Q -> maxConcurrency plan = 1)
         /\ ((32 <= n0)%Q -> maxConcurrency plan = 32)
         /\ ((1 <= n0)%Q -> (n0 < 32)%Q -> maxConcurrency plan = Qfloor n0)).
  { intros ln [= <-]. simpl. split; [apply clampConcurrency_range|].
    exists v, n. split; [reflexivity|]. split; [exact Hn|].
    unfold clampConcurrency.
    split; [|split].
    - intros Hlt. assert (Qfloor n < 1).
      { rewrite Zlt_Qlt. eapply Qle_lt_trans; [apply Qfloor_le | exact Hlt]. }
      lia.
    - intros Hge. assert (32 <= Qfloor n).
      { change 32 with (Qfloor (inject_Z 32)). apply Qfloor_resp_le. exact Hge. }
      lia.
    - intros Hge Hlt. assert (1 <= Qfloor n).
      { change 1 with (Qfloor (inject_Z 1)). apply Qfloor_resp_le. exact Hge. }
      assert (Qfloor n < 32).
      { rewrite Zlt_Qlt. eapply Qle_lt_trans; [apply Qfloor_le | exact Hlt]. }
      lia. }
  destruct (String.eqb l "foreground"); [apply Hplan|].
  destruct (String.eqb l "background"); [apply Hplan | discriminate].
Qed.

(** A plan that asks for 400.5 concurrent jobs is cut to 32. *)
Lemma parseParallelPlan_clamps_witness :
  parseParallelPlan
    (Some (JObject [("lane", JString "foreground");
                    ("maxConcurrency", JNumber (801 # 2))]))
  = Some {| lane := Foreground; maxConcurrency := 32 |}
  /\ 1 <= 32 <= 32.
Proof.
  split; [vm_compute; reflexivity|].
  apply (parseParallelPlan_clamps
           (Some (JObject [("lane", JString "foreground");
                           ("maxConcurrency", JNumber (801 # 2))]))
           {| lane := Foreground; maxConcurrency := 32 |}).
  vm_compute. reflexivity.
Defined.

(** X2. [parseDecision] (autonomy, lines 88-130): whatever the judge answered,
    a decision that comes out is well formed: its confidence is between 0
    and 1, its reason is not empty and has no white space around it, its
    [deferUntil] is not the empty string, and the concurrency of its plan
    is between 1 and 32. *)
Theorem parseDecision_well_formed (raw : string) (d : OrchestrationDecision) :
  parseDecision raw = Some d ->
  (0 <= confidence d)%Q /\ (confidence d <= 1)%Q
  /\ reason d <> ""
  /\ Str.trim (reason d) = reason d
  /\ deferUntil d <> Some ""
  /\ (forall plan, parallelPlan d = Some plan -> 1 <= maxConcurrency plan <= 32).
Proof.
  unfold parseDecision, decisionOf.
  destruct (parseRaw raw) as [parsed|]; [|discriminate].
  destruct (negb (isRecord parsed)); [discriminate|]. cbv zeta.
  destruct (isAction _); [|discriminate].
  destruct (Json.get parsed "confidence") as [[| |c| | |]|]; try discriminate.
  destruct (_ || _) eqn:Hrange; [discriminate|].
  apply confidence_in_range in Hrange.
  destruct (Json.get parsed "reason") as [[| | |r| |]|]; try discriminate.
  destruct (isPriority _); [|discriminate].
  destruct (Str.is_empty (Str.trim r)) eqn:Hr; [discriminate|].
  apply is_empty_false in Hr.
  intros [= <-]. simpl.
  split; [tauto|]. split; [tauto|]. split; [exact Hr|].
  split; [apply trim_idempotent|]. split.
  - destruct (Json.get parsed "deferUntil") as [[| | |u| |]|]; try discriminate.
    destruct (Str.is_empty u) eqn:Hu; [discriminate|].
    apply is_empty_false in Hu. congruence.
  - intros plan Hplan. exact (parseParallelPlan_range _ _ Hplan).
Qed.

Lemma parseDecision_well_formed_witness :
  parseDecision Scenario.parallel_text
  = Some {| action := Parallel;
            confidence := 23 # 25;
            reason := "User request is urgent and current job can continue in background";
            priority := High;
            deferUntil := None;
            parallelPlan := Some {| lane := Background; maxConcurrency := 4 |} |}
  /\ (0 <= 23 # 25)%Q /\ (23 # 25 <= 1)%Q.
Proof.
  split; [vm_compute; reflexivity|].
  pose proof (parseDecision_well_formed Scenario.parallel_text
    {| action := Parallel;
       confidence := 23 # 25;
       reason := "User request is urgent and current job can continue in background";
       priority := High;
       deferUntil := None;
       parallelPlan := Some {| lane := Background; maxConcurrency := 4 |} |}) as Hw.
  simpl in Hw. split; apply Hw; vm_compute; reflexivity.
Defined.

Lemma decisionOf_Some (parsed : JValue) (d : OrchestrationDecision) :
  decisionOf parsed = Some d ->
  (0 <= confidence d)%Q /\ (confidence d <= 1)%Q
  /\ reason d <> ""
  /\ Str.trim (reason d) = reason d
  /\ deferUntil d <> Some ""
  /\ (forall plan, parallelPlan d = Some plan -> 1 <= maxConcurrency plan <= 32).
Proof.
  unfold decisionOf.
  destruct (negb (isRecord parsed)); [discriminate|]. cbv zeta.
  destruct (isAction _); [|discriminate].
  destruct (Json.get parsed "confidence") as [[| |c| | |]|]; try discriminate.
  destruct (_ || _) eqn:Hrange; [discriminate|].
  apply confidence_in_range in Hrange.
  destruct (Json.get parsed "reason") as [[| | |r| |]|]; try discriminate.
  destruct (isPriority _); [|discriminate].
  destruct (Str.is_empty (Str.trim r)) eqn:Hr; [discriminate|].
  apply is_empty_false in Hr.
  intros [= <-]. simpl.
  split; [tauto|]. split; [tauto|]. split; [exact Hr|].
  split; [apply trim_idempotent|]. split.
  - destruct (Json.get parsed "deferUntil") as [[| | |u| |]|]; try discriminate.
    destruct (Str.is_empty u) eqn:Hu; [discriminate|].
    apply is_empty_false in Hu. congruence.
  - intros plan Hplan. exact (parseParallelPlan_range _ _ Hplan).
Qed.

Lemma clampConcurrency_integer (n : Z) :
  1 <= n <= 32 -> clampConcurrency (inject_Z n) = n.
Proof. intros Hn. unfold clampConcurrency. rewrite Qfloor_Z. lia. Qed.

Lemma decisionOf_decision_json (d : OrchestrationDecision) :
  (0 <= confidence d)%Q -> (confidence d <= 1)%Q ->
  reason d <> "" ->
  Str.trim (reason d) = reason d ->
  deferUntil d <> Some "" ->
  (forall plan, parallelPlan d = Some plan -> 1 <= maxConcurrency plan <= 32) ->
  decisionOf (decision_json d) = Some d.
Proof.
  destruct d as [a c r p du pp]. simpl. intros H0 H1 Hr Htrim Hdu Hpp.
  assert (Hrange : Qltb c 0 || Qltb 1 c = false).
  { apply confidence_in_range. auto. }
  assert (Hempty : Str.is_empty (Str.trim r) = false).
  { rewrite Htrim. apply is_empty_false. exact Hr. }
  assert (Haction : isAction (Some (JString (action_name a))) = Some a).
  { apply isAction_Some. reflexivity. }
  assert (Hpriority : isPriority (Some (JString (priority_name p))) = Some p).
  { apply isPriority_Some. reflexivity. }
  assert (Hplan : forall plan,
    pp = Some plan ->
    parseParallelPlan
      (Some (JObject [("lane", JString (lane_name (lane plan)));
                      ("maxConcurrency", JNumber (inject_Z (maxConcurrency plan)))]))
    = Some plan).
  { intros [l mc] Heq. specialize (Hpp _ Heq). simpl in Hpp.
    unfold parseParallelPlan. simpl.
    rewrite (clampConcurrency_integer mc Hpp). destruct l; reflexivity. }
  unfold decisionOf, decision_json. cbn [deferUntil parallelPlan action confidence
                                           reason priority].
  destruct du as [u|], pp as [plan|].
  - assert (Hu : Str.is_empty u = false).
    { apply is_empty_false. congruence. }
    cbn -[isAction isPriority parseParallelPlan Qltb Str.trim Str.is_empty].
    rewrite Haction, Hrange, Hpriority, Hempty, Hu, Htrim.
    rewrite (Hplan plan eq_refl). reflexivity.
  - assert (Hu : Str.is_empty u = false).
    { apply is_empty_false. congruence. }
    cbn -[isAction isPriority parseParallelPlan Qltb Str.trim Str.is_empty].
    rewrite Haction, Hrange, Hpriority, Hempty, Hu, Htrim. reflexivity.
  - cbn -[isAction isPriority parseParallelPlan Qltb Str.trim Str.is_empty].
    rewrite Haction, Hrange, Hpriority, Hempty, Htrim.
    rewrite (Hplan plan eq_refl). reflexivity.
  - cbn -[isAction isPriority parseParallelPlan Qltb Str.trim Str.is_empty].
    rewrite Haction, Hrange, Hpriority, Hempty, Htrim. reflexivity.
Qed.

(** X3. [parseDecision] and [open_machina_decide] (autonomy, lines 88-130;
    index.ts, line 339): nothing of a decision is lost on the way out.  The
    object that the tool writes for a decision it parsed (with [deferUntil]
    and [parallelPlan] left out when they are undefined) is a valid
    decision again, and it is the same decision. *)
Theorem decision_round_trip (raw : string) (d : OrchestrationDecision) :
  parseDecision raw = Some d ->
  decisionOf (decision_json d) = Some d.
Proof.
  unfold parseDecision. destruct (parseRaw raw) as [parsed|]; [|discriminate].
  intros Hparsed.
  destruct (decisionOf_Some parsed d Hparsed) as (H0 & H1 & Hr & Ht & Hd & Hp).
  apply decisionOf_decision_json; assumption.
Qed.

Lemma decision_round_trip_witness :
  parseDecision Scenario.defer_answer
  = Some (arb_decision Scenario.defer_arbitration)
  /\ decisionOf (decision_json (arb_decision Scenario.defer_arbitration))
     = Some (arb_decision Scenario.defer_arbitration).
Proof.
  split; [vm_compute; reflexivity|].
  apply (decision_round_trip Scenario.defer_answer).
  vm_compute. reflexivity.
Defined.

(** X4. [parseDecision] (lines 104-114): only a JSON object can be a decision.
    A response that is JSON of another kind (an array, which [isRecord]
    lets through, a string, a number, true, false, null) is invalid. *)
Theorem parseDecision_needs_an_object (raw : string) (parsed : JValue) :
  parseRaw raw = Some parsed ->
  (forall members, parsed <> JObject members) ->
  parseDecision raw = None.
Proof.
  intros Hraw Hkind. unfold parseDecision. rewrite Hraw.
  destruct parsed as [| | | |items|members]; try reflexivity.
  exfalso. exact (Hkind members eq_refl).
Qed.

Lemma parseDecision_needs_an_object_witness :
  parseRaw (Str.quoted "['abort', 0.9, 'reason', 'high']")
  = Some (JArray [JString "abort"; JNumber (9 # 10); JString "reason"; JString "high"])
  /\ parseDecision (Str.quoted "['abort', 0.9, 'reason', 'high']") = None.
Proof.
  split; [vm_compute; reflexivity|].
  apply (parseDecision_needs_an_object _
           (JArray [JString "abort"; JNumber (9 # 10); JString "reason"; JString "high"])).
  - vm_compute. reflexivity.
  - intros members. discriminate.
Defined.

(** *** The extraction of the object from a response *)

Lemma upto_last_close_none (s : list ascii) :
  "}"%char ∉ s -> Json.upto_last_close s = None.
Proof.
  induction s as [|c r IH]; simpl; [reflexivity|].
  rewrite not_elem_of_cons. intros [Hc Hr]. rewrite (IH Hr).
  destruct (Ascii.eqb_spec c "}"); congruence.
Qed.

Lemma upto_last_close_app (body rest : list ascii) :
  "}"%char ∉ rest ->
  Json.upto_last_close (body ++ "}"%char :: rest) = Some (body ++ ["}"%char]).
Proof.
  intros Hrest. induction body as [|c body IH]; simpl.
  - rewrite (upto_last_close_none _ Hrest). reflexivity.
  - rewrite IH. reflexivity.
Qed.

Lemma brace_span_app (before rest : list ascii) :
  "{"%char ∉ before ->
  Json.brace_span (before ++ "{"%char :: rest)
  = match Json.upto_last_close rest with
    | Some t => Some ("{"%char :: t)
    | None => None
    end.
Proof.
  induction before as [|c before IH]; simpl; [reflexivity|].
  rewrite not_elem_of_cons. intros [Hc Hb].
  destruct (Ascii.eqb_spec c "{"); [congruence|]. exact (IH Hb).
Qed.

(** X5. [parseDecision] (autonomy, lines 89-102): a judge that wraps its JSON
    object in prose is understood.  When the response as a whole is not
    JSON, and the text before the object has no opening brace and the text
    after it no closing brace, the decision is the one of the object
    alone. *)
Theorem parseDecision_ignores_surrounding_prose (before body after : string) :
  "{"%char ∉ Str.chars before ->
  "}"%char ∉ Str.chars after ->
  JSON_parse (before +:+ ("{" +:+ body +:+ "}") +:+ after) = None ->
  parseDecision (before +:+ ("{" +:+ body +:+ "}") +:+ after)
  = parseDecision ("{" +:+ body +:+ "}").
Proof.
  intros Hbefore Hafter Hwhole.
  assert (Hmatch : Json.match_braces (before +:+ ("{" +:+ body +:+ "}") +:+ after)
                   = Some ("{" +:+ body +:+ "}")).
  { unfold Json.match_braces. rewrite !chars_app.
    change (Str.chars "{") with ["{"%char]. change (Str.chars "}") with ["}"%char].
    simpl app. rewrite (brace_span_app _ _ Hbefore).
    rewrite <- app_assoc. simpl app.
    rewrite (upto_last_close_app _ _ Hafter). simpl. f_equal.
    rewrite <- (pack_chars ("{" +:+ body +:+ "}")). f_equal.
    rewrite !chars_app. reflexivity. }
  assert (Hself : Json.match_braces ("{" +:+ body +:+ "}")
                  = Some ("{" +:+ body +:+ "}")).
  { unfold Json.match_braces. rewrite !chars_app.
    change (Str.chars "{") with ["{"%char]. change (Str.chars "}") with ["}"%char].
    simpl app.
    pose proof (brace_span_app [] (Str.chars body ++ ["}"%char])
                  (not_elem_of_nil _)) as Hspan.
    simpl app in Hspan. rewrite Hspan.
    rewrite (upto_last_close_app _ [] (not_elem_of_nil _)). simpl. f_equal.
    rewrite <- (pack_chars ("{" +:+ body +:+ "}")). f_equal.
    rewrite !chars_app. reflexivity. }
  unfold parseDecision, parseRaw. rewrite Hwhole, Hmatch, Hself.
  destruct (JSON_parse ("{" +:+ body +:+ "}")); reflexivity.
Qed.

Lemma parseDecision_ignores_surrounding_prose_witness :
  parseDecision
    ("Sure, my decision is: "
     +:+ ("{" +:+ Str.quoted "'action':'continue','confidence':1,'reason':'keep going','priority':'low'" +:+ "}")
     +:+ " - hope that helps!")
  = Some {| action := Continue;
            confidence := 1;
            reason := "keep going";
            priority := Low;
            deferUntil := None;
            parallelPlan := None |}.
Proof.
  rewrite (parseDecision_ignores_surrounding_prose
             "Sure, my decision is: "
             (Str.quoted "'action':'continue','confidence':1,'reason':'keep going','priority':'low'")
             " - hope that helps!").
  - vm_compute. reflexivity.
  - vm_compute. intros Hin. repeat (apply elem_of_cons in Hin as [Hin|Hin]; [discriminate|]).
    apply elem_of_nil in Hin. exact Hin.
  - vm_compute. intros Hin. repeat (apply elem_of_cons in Hin as [Hin|Hin]; [discriminate|]).
    apply elem_of_nil in Hin. exact Hin.
  - vm_compute. reflexivity.
Defined.

(** *** The number of calls of the judge *)

Section DecideCalls.

Context {W : Type} (stringify : JValue -> string).


End DecideCalls.

(** ** Further properties of the judge policy *)

(** *** The lists of the policy *)

Lemma named_trim (s : string) : Str.trim s <> "" -> named (Str.trim s).
Proof. intros Hne. split; [exact Hne | apply trim_idempotent]. Qed.

Lemma parseModelRefItem_Some (text : string) (item : ModelRef) :
  parseModelRefItem text = Some item ->
  ","%char ∉ Str.chars text ->
  well_written item.
Proof.
  unfold parseModelRefItem.
  destruct (Str.split "/" text) as [|p [|m [|x l]]] eqn:Hsplit; try discriminate.
  cbv zeta.
  destruct (Str.is_empty (Str.trim p)) eqn:Hp; [discriminate|].
  destruct (Str.is_empty (Str.trim m)) eqn:Hm; [discriminate|].
  intros [= <-] Hcomma. simpl.
  apply is_empty_false in Hp, Hm.
  assert (Hpin : p ∈ Str.split "/" text).
  { rewrite Hsplit. apply elem_of_cons. left. reflexivity. }
  assert (Hmin : m ∈ Str.split "/" text).
  { rewrite Hsplit. apply elem_of_cons. right. apply elem_of_cons. left.
    reflexivity. }
  split; [apply named_trim; exact Hp|]. split; [apply named_trim; exact Hm|].
  simpl. intros c Hc. apply elem_of_app in Hc as [Hc|Hc]; apply trim_chars in Hc.
  - split.
    + intros ->. exact (split_pieces _ _ _ Hpin Hc).
    + intros ->. apply Hcomma. exact (split_subset _ _ _ _ Hpin Hc).
  - split.
    + intros ->. exact (split_pieces _ _ _ Hmin Hc).
    + intros ->. apply Hcomma. exact (split_subset _ _ _ _ Hmin Hc).
Qed.

Lemma parseModelRefList_item (value : option string) (item : ModelRef) :
  item ∈ parseModelRefList value -> well_written item.
Proof.
  unfold parseModelRefList. destruct (truthy value) as [v|].
  - rewrite list_elem_of_omap. intros (text & Htext & Hitem).
    apply (parseModelRefItem_Some _ _ Hitem).
    apply list_elem_of_filter in Htext as [_ Htext].
    apply list_elem_of_In, in_map_iff in Htext as (piece & <- & Hpiece).
    intros Hc. apply trim_chars in Hc. revert Hc.
    apply (split_pieces _ v). apply list_elem_of_In. exact Hpiece.
  - intros Hin. apply elem_of_nil in Hin. contradiction.
Qed.

Lemma well_written_no_slash (item : ModelRef) :
  well_written item ->
  ("/"%char ∉ Str.chars (providerID item))
  /\ ("/"%char ∉ Str.chars (modelID item)).
Proof.
  intros (_ & _ & Hchars). split; intros Hin.
  - destruct (Hchars "/"%char) as [Hno _]; [|congruence].
    apply elem_of_app. left. exact Hin.
  - destruct (Hchars "/"%char) as [Hno _]; [|congruence].
    apply elem_of_app. right. exact Hin.
Qed.

Lemma slash_in_key (a b : string) : "/"%char ∈ Str.chars (a +:+ "/" +:+ b).
Proof.
  rewrite !chars_app. rewrite elem_of_app. right.
  apply elem_of_cons. left. reflexivity.
Qed.

(** The key of an item without a slash in its parts is the key of that
    item alone. *)
Lemma append_nil (b : string) : "" +:+ b = b.
Proof. reflexivity. Qed.

Lemma append_cons (c : ascii) (a b : string) :
  String c a +:+ b = String c (a +:+ b).
Proof. reflexivity. Qed.

Lemma ref_key_exact (item target : ModelRef) :
  "/"%char ∉ Str.chars (providerID item) ->
  "/"%char ∉ Str.chars (modelID item) ->
  ref_key item = ref_key target ->
  item = target.
Proof.
  destruct item as [p1 m1], target as [p2 m2]. unfold ref_key. simpl.
  intros Hp Hm. revert p2. induction p1 as [|c p1 IH]; intros [|c2 p2] Hkey;
    repeat (rewrite append_nil in Hkey || rewrite append_cons in Hkey).
  - injection Hkey as Heq. subst m2. reflexivity.
  - injection Hkey as Hc Heq. exfalso. apply Hm. rewrite Heq. apply slash_in_key.
  - injection Hkey as Hc Heq. exfalso. apply Hp. rewrite Hc.
    apply elem_of_cons. left. reflexivity.
  - injection Hkey as Hc Heq. simpl in Hp. rewrite not_elem_of_cons in Hp.
    specialize (IH (proj2 Hp) p2 Heq). congruence.
Qed.

(** X7. [parseModelRefList] (index.ts, lines 751-772): every entry read from a
    policy variable is well written: its provider and its model are not
    empty, have no white space around them and hold neither a slash nor a
    comma.  And so an entry is matched by its identity key by the reference
    that is equal to it and by no other reference: a deny or allow list
    acts on the references it names, whatever slashes a reference holds. *)
Theorem parseModelRefList_entries_match_exactly (value : option string) :
  (forall item, item ∈ parseModelRefList value -> well_written item)
  /\ (forall target,
        matches (parseModelRefList value) target
        <-> target ∈ parseModelRefList value)
  /\ (forall target,
        some_key (parseModelRefList value) (ref_key target) = true
        <-> target ∈ parseModelRefList value).
Proof.
  assert (Hexact : forall target,
    matches (parseModelRefList value) target
    <-> target ∈ parseModelRefList value).
  { intros target. split.
    - intros (item & Hin & Hkey).
      destruct (well_written_no_slash _ (parseModelRefList_item _ _ Hin)) as [Hp Hm].
      rewrite <- (ref_key_exact _ _ Hp Hm Hkey). exact Hin.
    - intros Hin. exists target. split; [exact Hin | reflexivity]. }
  split; [apply parseModelRefList_item|]. split; [exact Hexact|].
  intros target. rewrite some_key_matches. apply Hexact.
Qed.

(** *** The lists, written and read *)

Lemma named_clean (s : string) :
  named s ->
  Str.chars s <> []
  /\ clean true (Str.chars s) = true
  /\ clean false (rev (Str.chars s)) = true.
Proof.
  intros [Hne Htrim]. split.
  - intros Hnil. apply Hne. rewrite <- (pack_chars s), Hnil. reflexivity.
  - rewrite <- Htrim. apply trim_clean.
Qed.

Lemma ref_key_trimmed (item : ModelRef) :
  well_written item -> Str.trim (ref_key item) = ref_key item.
Proof.
  intros (Hp & Hm & _).
  destruct (named_clean _ Hp) as (Hp0 & Hpf & _).
  destruct (named_clean _ Hm) as (Hm0 & _ & Hmb).
  apply trim_fixed; unfold ref_key; rewrite !chars_app;
    change (Str.chars "/") with ["/"%char]; simpl app.
  - apply clean_app_low; [exact Hp0 | exact Hpf | reflexivity].
  - rewrite rev_app_distr. simpl. rewrite <- app_assoc. simpl.
    apply clean_app_low; [|exact Hmb | reflexivity].
    intros Hnil. apply Hm0. rewrite <- (rev_involutive (Str.chars _)), Hnil.
    reflexivity.
Qed.

Lemma ref_key_chars (item : ModelRef) (c : ascii) :
  well_written item -> c ∈ Str.chars (ref_key item) -> c <> ","%char.
Proof.
  intros (_ & _ & Hchars). unfold ref_key. rewrite !chars_app.
  change (Str.chars "/") with ["/"%char].
  rewrite !elem_of_app, list_elem_of_singleton.
  intros [Hc|[->|Hc]]; [|discriminate|].
  - apply Hchars. apply elem_of_app. left. exact Hc.
  - apply Hchars. apply elem_of_app. right. exact Hc.
Qed.

Lemma parseModelRefItem_key (item : ModelRef) :
  well_written item -> parseModelRefItem (ref_key item) = Some item.
Proof.
  intros Hitem. destruct (well_written_no_slash _ Hitem) as [Hp Hm].
  destruct Hitem as ([Hpne Hptrim] & [Hmne Hmtrim] & _).
  unfold parseModelRefItem.
  assert (Hsplit : Str.split "/" (ref_key item) = [providerID item; modelID item]).
  { apply (split_join "/" [providerID item; modelID item]); [discriminate|].
    intros p Hin. apply elem_of_cons in Hin as [->|Hin]; [exact Hp|].
    apply list_elem_of_singleton in Hin. subst p. exact Hm. }
  rewrite Hsplit. cbv zeta. rewrite Hptrim, Hmtrim.
  apply is_empty_false in Hpne, Hmne. rewrite Hpne, Hmne.
  destruct item. reflexivity.
Qed.

Lemma parseModelRefList_written (items : list ModelRef) :
  Forall well_written items ->
  parseModelRefList (Some (Str.join "," (map ref_key items))) = items.
Proof.
  intros Hall. destruct items as [|item rest]; [reflexivity|].
  set (keys := map ref_key (item :: rest)).
  assert (Hkeys : forall k, k ∈ keys -> exists x, well_written x /\ k = ref_key x).
  { intros k Hk. apply list_elem_of_In, in_map_iff in Hk as (x & <- & Hx).
    exists x. split; [|reflexivity]. rewrite Forall_forall in Hall.
    apply Hall. apply list_elem_of_In. exact Hx. }
  assert (Hsplit : Str.split "," (Str.join "," keys) = keys).
  { apply split_join; [discriminate|].
    intros k Hk Hc. destruct (Hkeys k Hk) as (x & Hx & ->).
    exact (ref_key_chars x _ Hx Hc eq_refl). }
  assert (Hvalue : Str.is_empty (Str.join "," keys) = false).
  { apply is_empty_false. intros Hempty.
    assert (Hin : "/"%char ∈ Str.chars (Str.join "," keys)).
    { destruct (join_first_chars "," (ref_key item) (map ref_key rest))
        as [tail Htail].
      unfold keys. simpl map. rewrite Htail.
      apply elem_of_app. left. apply slash_in_key. }
    rewrite Hempty in Hin. apply elem_of_nil in Hin. exact Hin. }
  unfold parseModelRefList, truthy. rewrite Hvalue, Hsplit.
  assert (Htrim : map Str.trim keys = keys).
  { rewrite <- (map_id keys) at 2. apply map_ext_in. intros k Hk.
    apply list_elem_of_In in Hk. destruct (Hkeys k Hk) as (x & Hx & ->).
    apply ref_key_trimmed. exact Hx. }
  rewrite Htrim.
  assert (Hfilter : filter (fun k => Str.is_empty k = false) keys = keys).
  { assert (Hfull : Forall (fun k => Str.is_empty k = false) keys).
    { apply Forall_forall. intros k Hk.
      destruct (Hkeys k Hk) as (x & Hx & ->). apply is_empty_false.
      intros Hempty. pose proof (slash_in_key (providerID x) (modelID x)) as Hin.
      unfold ref_key in Hempty. rewrite Hempty in Hin.
      apply elem_of_nil in Hin. exact Hin. }
    clear -Hfull. induction Hfull as [|k l Hk Hl IH]; [reflexivity|].
    rewrite filter_cons_True by exact Hk. f_equal. exact IH. }
  rewrite Hfilter. unfold keys. clear -Hall.
  induction Hall as [|x l Hx Hl IH]; [reflexivity|]. csimpl.
  rewrite (parseModelRefItem_key x Hx). f_equal. exact IH.
Qed.

(** X8. [parseModelRefList] (index.ts, lines 751-772): a list that is written
    the way the policy variables are, provider/model separated by commas,
    is read back as it is, when its providers and models are names without
    a slash and a comma; and what the function reads is such a list, so
    writing its result and reading it again gives the same result. *)
Theorem parseModelRefList_reads_back (items : list ModelRef) :
  (Forall well_written items ->
   parseModelRefList (Some (Str.join "," (map ref_key items))) = items)
  /\ forall value,
       parseModelRefList
         (Some (Str.join "," (map ref_key (parseModelRefList value))))
       = parseModelRefList value.
Proof.
  split; [apply parseModelRefList_written|].
  intros value. apply parseModelRefList_written.
  apply Forall_forall. intros item. apply parseModelRefList_item.
Qed.

(** *** The configuration of the judge *)

Lemma truthy_Some (o : option string) (s : string) :
  truthy o = Some s <-> o = Some s /\ s <> "".
Proof.
  unfold truthy. destruct o as [t|]; [|split; [discriminate | intros [[=] _]]].
  destruct (Str.is_empty t) eqn:Ht.
  - apply is_empty_true in Ht. subst t. split; [discriminate|].
    intros [[= <-] Hne]. congruence.
  - apply is_empty_false in Ht. split.
    + intros [= <-]. auto.
    + intros [[= <-] _]. reflexivity.
Qed.

Lemma truthy_None (o : option string) :
  truthy o = None <-> o = None \/ o = Some "".
Proof.
  unfold truthy. destruct o as [t|]; [|tauto].
  destruct (Str.is_empty t) eqn:Ht.
  - apply is_empty_true in Ht. subst t. tauto.
  - apply is_empty_false in Ht. split; [discriminate|].
    intros [[=]|[= ->]]. congruence.
Qed.

Lemma default_truthy (fallback_value : string) (o : option string) :
  fallback_value <> "" -> default fallback_value (truthy o) <> "".
Proof.
  intros Hne. destruct (truthy o) as [s|] eqn:Hs; simpl; [|exact Hne].
  apply truthy_Some in Hs. tauto.
Qed.

Lemma readJudgeConfig_Some (vars : gmap string string) (config : JudgeConfig) :
  readJudgeConfig vars = Some config ->
  cfg_providerID config <> "" /\ cfg_modelID config <> ""
  /\ cfg_authProviderID config <> "".
Proof.
  unfold readJudgeConfig. cbv zeta.
  destruct (truthy (env_trim vars "MACHINA_JUDGE_MODEL")) as [m|] eqn:Hm;
    [|discriminate].
  intros [= <-]. simpl. apply truthy_Some in Hm.
  split; [apply default_truthy; discriminate|]. split; [tauto|].
  apply default_truthy. discriminate.
Qed.

Lemma judge_base_named (config : JudgeConfig) (hint : option ModelRef) :
  cfg_providerID config <> "" -> cfg_modelID config <> "" ->
  Str.is_empty (providerID (judge_base config hint))
    || Str.is_empty (modelID (judge_base config hint)) = false.
Proof.
  intros Hp Hm. unfold judge_base, hint_or. simpl.
  apply orb_false_iff. split; apply is_empty_false, default_truthy; assumption.
Qed.


(** *** The outcomes of the resolver *)

Lemma selectCandidate_all_skipped (h : Host) (policy : JudgePolicy)
  (candidates : list ModelRef) :
  forall skips,
    Forall (fun x => ~ acceptable h policy x) candidates ->
    selectCandidate h policy candidates skips
    = (None, skips ++ map (skip_reason h policy) candidates).
Proof.
  induction candidates as [|c rest IH]; intros skips Hall; simpl.
  - rewrite app_nil_r. reflexivity.
  - inversion Hall as [|? ? Hc Hrest]; subst. unfold skip_reason at 1.
    destruct (isPolicyAllowed policy c) eqn:Hallowed; simpl.
    + destruct (validateJudgeTarget h (providerID c) (modelID c)) as [reason|] eqn:Hv.
      * rewrite (IH _ Hrest), <- app_assoc. reflexivity.
      * exfalso. apply Hc. split; assumption.
    + rewrite (IH _ Hrest), <- app_assoc. reflexivity.
Qed.

Lemma selectCandidate_first (h : Host) (policy : JudgePolicy)
  (candidates : list ModelRef) (skips : list string) (c : ModelRef) :
  first_acceptable h policy candidates c ->
  exists skipped, selectCandidate h policy candidates skips = (Some c, skipped).
Proof.
  intros Hc. apply (selectCandidate_Some _ _ _ skips) in Hc.
  destruct (selectCandidate h policy candidates skips) as [sel skipped].
  simpl in Hc. subst sel. eauto.
Qed.

Lemma resolveJudgeToken_truthy (h : Host) (auth : option (option JValue))
  (authProviderID providerID : string) :
  truthy (resolveJudgeToken h auth authProviderID providerID)
  = resolveJudgeToken h auth authProviderID providerID.
Proof.
  unfold resolveJudgeToken. cbv zeta.
  destruct (truthy (pickAuthToken _)) as [t|] eqn:Hlive.
  { rewrite <- Hlive. apply truthy_idemp. }
  destruct (truthy (or_else _ _)) as [t|] eqn:Hstore.
  { rewrite <- Hstore. apply truthy_idemp. }
  apply truthy_idemp.
Qed.

Lemma resolveJudgeRuntime_first (h : Host) (auth : option (option JValue))
  (hint : option ModelRef) (config : JudgeConfig) (c : ModelRef) :
  readJudgeConfig (env h) = Some config ->
  first_acceptable h (readJudgePolicy (env h))
    (dedupeModelRefs
       (judge_base config hint :: fallback (readJudgePolicy (env h)))) c ->
  resolveJudgeRuntime h auth hint
  = match resolveJudgeToken h auth (cfg_authProviderID config) (providerID c) with
    | None => Ok None
    | Some token =>
        Ok (Some
          {| rt_providerID := providerID c;
             rt_modelID := modelID c;
             rt_apiUrl :=
               match truthy (cfg_apiUrl config),
                     inferJudgeApiUrl (providerID c) with
               | Some url, _ => url
               | None, Some url => url
               | None, None => "https://api.openai.com/v1/chat/completions"
               end;
             rt_token := token |})
    end.
Proof.
  intros Hconfig Hc.
  destruct (readJudgeConfig_Some _ _ Hconfig) as (Hp & Hm & _).
  pose proof (judge_base_named config hint Hp Hm) as Hbase.
  unfold resolveJudgeRuntime. rewrite Hconfig, Hbase.
  destruct (selectCandidate_first h _ _ [] c Hc) as (skipped & ->).
  rewrite resolveJudgeToken_truthy.
  destruct (resolveJudgeToken h auth (cfg_authProviderID config) (providerID c));
    [|reflexivity].
  do 3 f_equal. unfold or_else.
  destruct (truthy (cfg_apiUrl config)); [reflexivity|].
  destruct (inferJudgeApiUrl (providerID c)); reflexivity.
Qed.

(** X10. [resolveJudgeRuntime] (index.ts, lines 530-590): the three outcomes.
    Without a configured model the result is null, whatever the policy
    says.  With one, when no candidate is acceptable, the error
    AUTONOMY_JUDGE_POLICY_BLOCKED lists one reason for each candidate, in
    the order of the candidates: POLICY_DENY and the key for a candidate
    that the policy rejects, the message of the catalog check otherwise.
    When there is a first acceptable candidate, the result depends on the
    credential for it alone: null without a token, otherwise the runtime of
    that candidate with the token and the endpoint (the configured one,
    else the one known for the provider, else the one of OpenAI). *)
Theorem resolveJudgeRuntime_outcomes (h : Host)
  (auth : option (option JValue)) (hint : option ModelRef) :
  (readJudgeConfig (env h) = None -> resolveJudgeRuntime h auth hint = Ok None)
  /\ (forall config,
        readJudgeConfig (env h) = Some config ->
        let policy := readJudgePolicy (env h) in
        let candidates :=
          dedupeModelRefs (judge_base config hint :: fallback policy) in
        (Forall (fun x => ~ acceptable h policy x) candidates ->
         resolveJudgeRuntime h auth hint
         = Throw ("AUTONOMY_JUDGE_POLICY_BLOCKED: no valid model candidate. "
                  +:+ Str.join " | " (map (skip_reason h policy) candidates)))
        /\ (forall c,
              first_acceptable h policy candidates c ->
              resolveJudgeRuntime h auth hint
              = match resolveJudgeToken h auth (cfg_authProviderID config)
                        (providerID c) with
                | None => Ok None
                | Some token =>
                    Ok (Some
                      {| rt_providerID := providerID c;
                         rt_modelID := modelID c;
                         rt_apiUrl :=
                           match truthy (cfg_apiUrl config),
                                 inferJudgeApiUrl (providerID c) with
                           | Some url, _ => url
                           | None, Some url => url
                           | None, None =>
                               "https://api.openai.com/v1/chat/completions"
                           end;
                         rt_token := token |})
                end)).
Proof.
  split.
  { intros Hnone. unfold resolveJudgeRuntime. rewrite Hnone. reflexivity. }
  intros config Hconfig policy candidates.
  destruct (readJudgeConfig_Some _ _ Hconfig) as (Hp & Hm & _).
  pose proof (judge_base_named config hint Hp Hm) as Hbase.
  split.
  - intros Hall. unfold resolveJudgeRuntime. rewrite Hconfig, Hbase.
    fold policy. fold candidates.
    rewrite (selectCandidate_all_skipped _ _ _ [] Hall). reflexivity.
  - intros c Hc. exact (resolveJudgeRuntime_first h auth hint config c Hconfig Hc).
Qed.

Lemma inferJudgeApiUrl_Some (providerID url : string) :
  inferJudgeApiUrl providerID = Some url -> named url.
Proof.
  unfold inferJudgeApiUrl. cbv zeta.
  repeat (destruct (String.eqb _ _);
          [intros [= <-]; split; [discriminate | vm_compute; reflexivity]|]).
  discriminate.
Qed.

Lemma truthy_trimmed (o : option string) (s : string) :
  truthy (Str.trim <$> o) = Some s -> named s.
Proof.
  intros Hs. apply truthy_Some in Hs as [Hsome Hne].
  destruct o as [v|]; [|discriminate]. injection Hsome as <-.
  apply named_trim. exact Hne.
Qed.

Lemma default_named (fallback_value : string) (o : option string) :
  named fallback_value -> named (default fallback_value (truthy (Str.trim <$> o))).
Proof.
  intros Hname. destruct (truthy (Str.trim <$> o)) as [s|] eqn:Hs; simpl;
    [|exact Hname].
  exact (truthy_trimmed _ _ Hs).
Qed.

Lemma readJudgeConfig_named (vars : gmap string string) (config : JudgeConfig) :
  readJudgeConfig vars = Some config ->
  named (cfg_providerID config) /\ named (cfg_modelID config)
  /\ named (cfg_authProviderID config)
  /\ forall url, truthy (cfg_apiUrl config) = Some url -> named url.
Proof.
  unfold readJudgeConfig, env_trim. cbv zeta.
  destruct (truthy (Str.trim <$> vars !! "MACHINA_JUDGE_MODEL")) as [m|] eqn:Hm;
    [|discriminate].
  intros [= <-]. simpl.
  split; [apply default_named; split; [discriminate | vm_compute; reflexivity]|].
  split; [exact (truthy_trimmed _ _ Hm)|].
  split; [apply default_named; split; [discriminate | vm_compute; reflexivity]|].
  intros url. apply truthy_trimmed.
Qed.

Lemma pickAuthToken_named (auth : option JValue) (t : string) :
  pickAuthToken auth = Some t -> named t.
Proof.
  intros Hpick. apply pickAuthToken_Some in Hpick
    as (a & _ & _ & type & field & s & _ & _ & _ & -> & Hne).
  apply named_trim. exact Hne.
Qed.

Lemma pickAuthTokenFromStore_named (payload : option JValue)
  (provider t : string) :
  pickAuthTokenFromStore payload provider = Some t -> named t.
Proof.
  unfold pickAuthTokenFromStore. destruct payload as [p|]; [|discriminate].
  destruct (isRecord p); [|discriminate]. apply pickAuthToken_named.
Qed.

Lemma resolveJudgeToken_Some (h : Host) (auth : option (option JValue))
  (authProviderID providerID token : string) :
  resolveJudgeToken h auth authProviderID providerID = Some token -> named token.
Proof.
  unfold resolveJudgeToken, env_trim. cbv zeta.
  destruct (truthy (pickAuthToken (live_auth auth))) as [t|] eqn:Hlive.
  { intros [= <-]. apply truthy_Some in Hlive as [Hlive _].
    exact (pickAuthToken_named _ _ Hlive). }
  destruct (truthy (or_else _ _)) as [t|] eqn:Hstore.
  { intros [= <-]. apply truthy_Some in Hstore as [Hstore _].
    unfold or_else in Hstore.
    destruct (truthy (pickAuthTokenFromStore _ authProviderID)) as [t1|] eqn:Hfirst.
    - injection Hstore as <-. apply truthy_Some in Hfirst as [Hfirst _].
      exact (pickAuthTokenFromStore_named _ _ _ Hfirst).
    - exact (pickAuthTokenFromStore_named _ _ _ Hstore). }
  apply truthy_trimmed.
Qed.

Lemma candidate_named (config : JudgeConfig) (hint : option ModelRef)
  (value : option string) (c : ModelRef) :
  named (cfg_providerID config) -> named (cfg_modelID config) ->
  c ∈ dedupeModelRefs (judge_base config hint :: parseModelRefList value) ->
  named (providerID c) /\ named (modelID c).
Proof.
  intros Hp Hm Hc. rewrite dedupeModelRefs_first_seen in Hc.
  pose proof (first_seen_sublist (judge_base config hint :: parseModelRefList value) [])
    as Hsub.
  apply sublist_submseteq in Hsub.
  apply (elem_of_submseteq _ _ _ Hc) in Hsub.
  apply elem_of_cons in Hsub as [->|Hin].
  - unfold judge_base, hint_or. simpl. split; apply default_named; assumption.
  - apply parseModelRefList_item in Hin. destruct Hin as (H1 & H2 & _). auto.
Qed.

(** X11. [resolveJudgeRuntime] (index.ts, lines 530-590): a runtime that the
    resolver returns is complete: provider, model, endpoint and token are
    names, not empty and without white space around them, wherever they
    come from (the hint of the message, the environment, a fallback of the
    policy, the auth record, the store).  Its endpoint is the trimmed
    MACHINA_JUDGE_API_URL when that is set and not blank, whatever the
    provider. *)
Theorem resolveJudgeRuntime_complete (h : Host)
  (auth : option (option JValue)) (hint : option ModelRef) (rt : JudgeRuntime) :
  resolveJudgeRuntime h auth hint = Ok (Some rt) ->
  named (rt_providerID rt) /\ named (rt_modelID rt)
  /\ named (rt_apiUrl rt) /\ named (rt_token rt)
  /\ (forall url,
        env h !! "MACHINA_JUDGE_API_URL" = Some url ->
        Str.trim url <> "" ->
        rt_apiUrl rt = Str.trim url).
Proof.
  intros Hrt.
  destruct (resolveJudgeRuntime_selected _ _ _ _ Hrt)
    as (config & c & Hconfig & Hc & Hprov & Hmodel).
  destruct (readJudgeConfig_named _ _ Hconfig) as (Hp & Hm & _ & Hurl).
  rewrite (resolveJudgeRuntime_first h auth hint config c Hconfig Hc) in Hrt.
  destruct (resolveJudgeToken h auth (cfg_authProviderID config) (providerID c))
    as [token|] eqn:Htoken; [|discriminate].
  revert Hrt. intros [= <-]. simpl.
  assert (Hin : c ∈ dedupeModelRefs
                  (judge_base config hint
                   :: parseModelRefList (env h !! "MACHINA_JUDGE_FALLBACK_MODELS"))).
  { destruct Hc as (pre & post & Heq & _). unfold readJudgePolicy in Heq.
    simpl in Heq. rewrite Heq. rewrite elem_of_app. right.
    apply elem_of_cons. left. reflexivity. }
  destruct (candidate_named _ _ _ _ Hp Hm Hin) as [Hcp Hcm].
  split; [exact Hcp|]. split; [exact Hcm|]. split; [|split].
  - destruct (truthy (cfg_apiUrl config)) as [url|] eqn:Hcfg.
    { exact (Hurl url eq_refl). }
    destruct (inferJudgeApiUrl (providerID c)) as [url|] eqn:Hinfer.
    { exact (inferJudgeApiUrl_Some _ _ Hinfer). }
    split; [discriminate | vm_compute; reflexivity].
  - exact (resolveJudgeToken_Some _ _ _ _ _ Htoken).
  - intros url Henv Hne.
    assert (Hcfg : cfg_apiUrl config = Some (Str.trim url)).
    { revert Hconfig. unfold readJudgeConfig, env_trim. cbv zeta.
      destruct (truthy (Str.trim <$> env h !! "MACHINA_JUDGE_MODEL"));
        [|discriminate].
      intros [= <-]. simpl. rewrite Henv. reflexivity. }
    rewrite Hcfg. simpl. apply is_empty_false in Hne. rewrite Hne. reflexivity.
Qed.

Lemma resolveJudgeRuntime_complete_witness :
  resolveJudgeRuntime
    (Scenario.host [("MACHINA_JUDGE_MODEL", "gpt-primary");
                    ("MACHINA_JUDGE_DENY_MODELS", "openai/gpt-primary");
                    ("MACHINA_JUDGE_FALLBACK_MODELS", "openai/gpt-fallback")]
                   "{'gpt-primary':{},'gpt-fallback':{}}" false false false)
    None None
  = Ok (Some {| rt_providerID := "openai";
                rt_modelID := "gpt-fallback";
                rt_apiUrl := "https://judge.example.test/v1/chat/completions";
                rt_token := "judge-token" |})
  /\ named "judge-token".
Proof.
  split; [vm_compute; reflexivity|].
  apply (resolveJudgeRuntime_complete
           (Scenario.host [("MACHINA_JUDGE_MODEL", "gpt-primary");
                           ("MACHINA_JUDGE_DENY_MODELS", "openai/gpt-primary");
                           ("MACHINA_JUDGE_FALLBACK_MODELS", "openai/gpt-fallback")]
                          "{'gpt-primary':{},'gpt-fallback':{}}" false false false)
           None None
           {| rt_providerID := "openai";
              rt_modelID := "gpt-fallback";
              rt_apiUrl := "https://judge.example.test/v1/chat/completions";
              rt_token := "judge-token" |}).
  vm_compute. reflexivity.
Defined.

(** *** The catalog *)

(** X12. [validateJudgeTarget] and [unwrapClientData] (index.ts, lines 669-713):
    the check of the catalog fails open.  A host without
    [client.provider.list], a call of it that is rejected, an answer that
    is no record, and an answer without an array [all] each let every
    target pass.  And the catalog is read the same whether the client
    answers with it or with a record that holds it as [data]. *)
Theorem validateJudgeTarget_fails_open (h : Host) (providerID modelID : string) :
  validateJudgeTarget (with_catalog h None) providerID modelID = None
  /\ validateJudgeTarget (with_catalog h (Some None)) providerID modelID = None
  /\ (forall answer,
        isRecord answer = false ->
        validateJudgeTarget (with_catalog h (Some (Some answer))) providerID modelID
        = None)
  /\ (forall answer,
        Json.get answer "data" = None ->
        builtin_property h answer "data" = false ->
        (forall all, Json.get answer "all" <> Some (JArray all)) ->
        validateJudgeTarget (with_catalog h (Some (Some answer))) providerID modelID
        = None)
  /\ (forall catalog,
        Json.get catalog "data" = None ->
        builtin_property h catalog "data" = false ->
        validateJudgeTarget
          (with_catalog h (Some (Some (JObject [("data", catalog)]))))
          providerID modelID
        = validateJudgeTarget (with_catalog h (Some (Some catalog)))
            providerID modelID).
Proof.
  split; [reflexivity|]. split; [reflexivity|]. split; [|split].
  - intros answer Hrec. unfold validateJudgeTarget, unwrapClientData. simpl.
    rewrite Hrec. simpl. destruct answer; try reflexivity; discriminate.
  - intros answer Hdata Hbuiltin Hall.
    unfold validateJudgeTarget, unwrapClientData. simpl.
    rewrite Hdata, Hbuiltin. simpl. rewrite andb_false_r.
    destruct answer as [| | | |items|members]; try reflexivity.
    destruct (Json.get (JObject members) "all") as [[| | | |all|]|] eqn:Hget;
      try reflexivity.
    exfalso. exact (Hall all eq_refl).
  - intros catalog Hdata Hbuiltin.
    unfold validateJudgeTarget, unwrapClientData. simpl.
    rewrite Hdata, Hbuiltin. simpl. rewrite andb_false_r. reflexivity.
Qed.

(** ** Further properties of the candidate list and of the policy *)

Lemma first_seen_unchanged (items : list ModelRef) :
  forall seen,
    NoDup (ref_key <$> items) ->
    (forall x, x ∈ items -> ref_key x ∉ seen) ->
    first_seen seen items = items.
Proof.
  induction items as [|item rest IH]; intros seen Hnodup Hfresh; simpl.
  - reflexivity.
  - rewrite fmap_cons in Hnodup. apply NoDup_cons in Hnodup as [Hitem Hrest].
    case_bool_decide as Hseen.
    + exfalso. apply (Hfresh item); [apply elem_of_cons; left; reflexivity|].
      exact Hseen.
    + f_equal. apply IH; [exact Hrest|].
      intros x Hx. rewrite not_elem_of_cons. split.
      * intros Heq. apply Hitem. rewrite <- Heq.
        apply list_elem_of_fmap. exists x. split; [reflexivity | exact Hx].
      * apply Hfresh. apply elem_of_cons. right. exact Hx.
Qed.

(** X13. [dedupeModelRefs] (index.ts, lines 782-794): a list without two items
    of the same key is returned as it is, and so the deduplication of a
    deduplicated list changes nothing. *)
Theorem dedupeModelRefs_idempotent (items : list ModelRef) :
  (NoDup (ref_key <$> items) -> dedupeModelRefs items = items)
  /\ dedupeModelRefs (dedupeModelRefs items) = dedupeModelRefs items.
Proof.
  assert (Hid : forall l, NoDup (ref_key <$> l) -> dedupeModelRefs l = l).
  { intros l Hnodup. rewrite dedupeModelRefs_first_seen.
    apply first_seen_unchanged; [exact Hnodup|].
    intros x _. apply not_elem_of_nil. }
  split; [apply Hid|]. apply Hid.
  rewrite dedupeModelRefs_first_seen. apply first_seen_NoDup.
Qed.

Lemma some_key_app (a b : list ModelRef) (key : string) :
  some_key (a ++ b) key = some_key a key || some_key b key.
Proof. unfold some_key. apply existsb_app. Qed.

(** X14. [isPolicyAllowed] (index.ts, lines 796-806): how the lists compose.
    Entries added to the deny list allow nothing that was rejected.  An
    allow list restricts: what a policy allows is allowed by the policy
    without its allow list.  And the first entry of an allow list is the
    one that restricts: entries added to an allow list that is not empty
    reject nothing that was allowed. *)
Theorem isPolicyAllowed_lists_only_restrict (policy : JudgePolicy)
  (more : list ModelRef) (target : ModelRef) :
  (isPolicyAllowed {| allow := allow policy;
                      deny := deny policy ++ more;
                      fallback := fallback policy |} target = true ->
   isPolicyAllowed policy target = true)
  /\ (allow policy <> [] ->
      isPolicyAllowed policy target = true ->
      isPolicyAllowed {| allow := allow policy ++ more;
                         deny := deny policy;
                         fallback := fallback policy |} target = true)
  /\ (isPolicyAllowed policy target = true ->
      isPolicyAllowed {| allow := [];
                         deny := deny policy;
                         fallback := fallback policy |} target = true).
Proof.
  unfold isPolicyAllowed. cbn [allow deny]. split; [|split].
  - rewrite some_key_app.
    destruct (some_key (deny policy) (ref_key target)); simpl; [discriminate|].
    destruct (some_key more (ref_key target)); simpl; [discriminate|].
    auto.
  - intros Hne. destruct (some_key (deny policy) (ref_key target)); [auto|].
    destruct (allow policy) as [|a l] eqn:Hallow; [congruence|].
    rewrite some_key_app. intros Hallowed.
    change (some_key (a :: l) (ref_key target) = true) in Hallowed.
    rewrite Hallowed. reflexivity.
  - destruct (some_key (deny policy) (ref_key target)); auto.
Qed.


(** ** Further properties of the tracker and of the arbitration *)

Section TrackerProperties.

Context {X : Type} `{Platform X}.

Implicit Types (w : World X) (h : Host) (evt : ToolEvent).

Lemma work_of_insert w w0 (s s' : string) (l : list ref) :
  sessions w = <[s := l]> (sessions w0) ->
  work_of w s' = if decide (s = s') then l else work_of w0 s'.
Proof.
  intros Hw. unfold work_of. rewrite Hw. destruct (decide (s = s')) as [->|Hne].
  - rewrite lookup_insert_eq. reflexivity.
  - rewrite lookup_insert_ne by exact Hne. reflexivity.
Qed.

Lemma tool_execute_before_run evt w :
  tool_execute_before evt w
  = (Ok tt,
     set_sessions
       (<[te_sessionID evt :=
            take 16 (length (heap w) :: work_of w (te_sessionID evt))]>
          (sessions w))
       (set_heap (heap w ++ [started_item evt (Date_now (outside w)).1])
          (set_outside (Date_now (outside w)).2 w))).
Proof.
  unfold tool_execute_before, now_ms, outside_run, bind, gets, alloc, modify.
  simpl. destruct (Date_now (outside w)) as [ms x]. reflexivity.
Qed.

(** X15. [tool.execute.before] (index.ts, lines 342-352): the call that starts
    becomes the first running item of its session, with the id tool:callID
    and the status running; the list of the session keeps its earlier
    entries behind it, cut to 16; the objects of the store, the lists of
    the other sessions, the queues and the calls on the host stay as they
    were, and nothing is thrown. *)
Theorem tool_execute_before_tracks_call evt w :
  let w' := (tool_execute_before evt w).2 in
  let new := length (heap w) in
  (tool_execute_before evt w).1 = Ok tt
  /\ work_of w' (te_sessionID evt)
     = take 16 (new :: work_of w (te_sessionID evt))
  /\ head (running_refs w' (te_sessionID evt)) = Some new
  /\ (exists now, heap w' = heap w ++ [started_item evt now])
  /\ (length (work_of w' (te_sessionID evt)) <= 16)%nat
  /\ (forall s, s <> te_sessionID evt -> work_of w' s = work_of w s)
  /\ (forall s, runtime_of w' s = runtime_of w s)
  /\ calls w' = calls w.
Proof.
  cbv zeta. rewrite tool_execute_before_run.
  set (w' := set_sessions _ _).
  assert (Hwork : forall s,
    work_of w' s = if decide (te_sessionID evt = s)
                   then take 16 (length (heap w) :: work_of w (te_sessionID evt))
                   else work_of w s).
  { intros s. apply (work_of_insert w' w). reflexivity. }
  change (heap w') with (heap w ++ [started_item evt (Date_now (outside w)).1]).
  simpl fst. simpl snd.
  split; [reflexivity|]. split.
  { rewrite Hwork. rewrite decide_True by reflexivity. reflexivity. }
  split.
  { unfold running_refs. rewrite Hwork.
    rewrite decide_True by reflexivity.
    change (heap w') with (heap w ++ [started_item evt (Date_now (outside w)).1]).
    simpl. rewrite lookup_app_r by reflexivity. rewrite Nat.sub_diag. reflexivity. }
  split; [eauto|]. split.
  { rewrite Hwork. rewrite decide_True by reflexivity.
    rewrite length_take. lia. }
  split; [|split; reflexivity].
  intros s Hs. rewrite Hwork. rewrite decide_False by congruence.
  reflexivity.
Qed.

Lemma omap_lookup_prefix {A} (hp new : list A) (l : list ref) :
  Forall (fun r => (r < length hp)%nat) l ->
  omap (fun r => (hp ++ new) !! r) l = omap (fun r => hp !! r) l.
Proof.
  induction 1 as [|r l Hr Hl IH]; [reflexivity|]. csimpl.
  rewrite lookup_app_l by exact Hr. rewrite IH. reflexivity.
Qed.

Lemma omap_cons_Some {A B} (f : A -> option B) (a : A) (l : list A) (b : B) :
  f a = Some b -> omap f (a :: l) = b :: omap f l.
Proof. intros Hf. csimpl. rewrite Hf. reflexivity. Qed.

(** The loop of [tool.execute.after] on addresses of the store. *)
Lemma mapM_finish (target : string) (work : list ref) :
  forall w,
    Forall (fun r => (r < length (heap w))%nat) work ->
    exists next new,
      mapM (fun r =>
              (item <- gets (fun w => heap w !! r) ;;
               match item with
               | Some item =>
                   if String.eqb (id item) target
                   then alloc {| id := id item;
                                 title := title item;
                                 status := Queued;
                                 item_priority := item_priority item;
                                 startedAt := startedAt item |}
                   else ret r
               | None => ret r
               end)%M) work w
      = (Ok next, set_heap (heap w ++ new) w)
      /\ length next = length work
      /\ Forall (fun r => (r < length (heap w ++ new))%nat) next
      /\ omap (fun r => (heap w ++ new) !! r) next
         = map (finished target) (omap (fun r => heap w !! r) work).
Proof.
  induction work as [|r rest IH]; intros w Hvalid.
  - exists [], []. simpl. unfold ret. rewrite app_nil_r.
    split; [destruct w; reflexivity|]. split; [reflexivity|].
    split; [constructor | reflexivity].
  - inversion Hvalid as [|? ? Hr Hrest]; subst.
    destruct (lookup_lt_is_Some_2 _ _ Hr) as [item Hitem].
    simpl mapM. unfold bind at 1. unfold bind at 1. unfold gets at 1.
    rewrite Hitem.
    destruct (String.eqb (id item) target) eqn:Hid.
    + unfold alloc at 1.
      set (copy := {| id := id item; title := title item; status := Queued;
                      item_priority := item_priority item;
                      startedAt := startedAt item |}).
      set (w1 := set_heap (heap w ++ [copy]) w).
      assert (Hrest1 : Forall (fun r => (r < length (heap w1))%nat) rest).
      { eapply Forall_impl; [exact Hrest|]. intros r' Hr'. unfold w1. simpl in *.
        rewrite length_app. simpl. lia. }
      destruct (IH w1 Hrest1) as (next & new & Hrun & Hlen & Hnext & Hitems).
      exists (length (heap w) :: next), (copy :: new).
      unfold bind at 1. rewrite Hrun. unfold bind, ret.
      assert (Hheap : heap w1 ++ new = heap w ++ copy :: new).
      { unfold w1. simpl. rewrite <- app_assoc. reflexivity. }
      rewrite Hheap in Hnext, Hitems.
      split.
      { change (set_heap (heap w1 ++ new) w1) with (set_heap (heap w1 ++ new) w).
        rewrite Hheap. reflexivity. }
      split; [simpl; f_equal; exact Hlen|]. split.
      { constructor; [|exact Hnext]. rewrite length_app. simpl. lia. }
      rewrite (omap_cons_Some _ (length (heap w)) next copy).
      2: { rewrite lookup_app_r by reflexivity. rewrite Nat.sub_diag. reflexivity. }
      rewrite (omap_cons_Some _ r rest item Hitem).
      change (map (finished target) (item :: ?l))
        with (finished target item :: map (finished target) l).
      unfold finished at 1. rewrite Hid. fold copy. f_equal.
      rewrite Hitems. f_equal. unfold w1. simpl.
      apply omap_lookup_prefix. exact Hrest.
    + destruct (IH w Hrest) as (next & new & Hrun & Hlen & Hnext & Hitems).
      exists (r :: next), new.
      unfold ret at 1. unfold bind at 1. rewrite Hrun. unfold bind, ret.
      split; [reflexivity|]. split; [simpl; f_equal; exact Hlen|]. split.
      { constructor; [|exact Hnext]. rewrite length_app. lia. }
      rewrite (omap_cons_Some _ r next item).
      2: { rewrite lookup_app_l by exact Hr. exact Hitem. }
      rewrite (omap_cons_Some _ r rest item Hitem).
      change (map (finished target) (item :: ?l))
        with (finished target item :: map (finished target) l).
      unfold finished at 1. rewrite Hid. f_equal. exact Hitems.
Qed.

Lemma tool_execute_after_run evt w :
  Forall (fun r => (r < length (heap w))%nat) (work_of w (te_sessionID evt)) ->
  exists next new,
    tool_execute_after evt w
    = (Ok tt,
       set_sessions (<[te_sessionID evt := next]> (sessions w))
         (set_heap (heap w ++ new) w))
    /\ length next = length (work_of w (te_sessionID evt))
    /\ Forall (fun r => (r < length (heap w ++ new))%nat) next
    /\ omap (fun r => (heap w ++ new) !! r) next
       = map (finished (te_tool evt +:+ ":" +:+ te_callID evt))
           (items_of w (work_of w (te_sessionID evt))).
Proof.
  intros Hvalid.
  destruct (mapM_finish (te_tool evt +:+ ":" +:+ te_callID evt) _ w Hvalid)
    as (next & new & Hrun & Hlen & Hnext & Hitems).
  exists next, new. unfold tool_execute_after.
  unfold bind at 1. unfold gets at 1. unfold bind at 1. rewrite Hrun.
  unfold modify. split; [reflexivity|]. auto.
Qed.

Lemma finished_id (target : string) (item : ActiveWorkItem) :
  id (finished target item) = id item.
Proof. unfold finished. destruct (String.eqb (id item) target); reflexivity. Qed.

Lemma finished_not_running (target : string) (item : ActiveWorkItem) :
  id item = target -> is_running (status (finished target item)) = false.
Proof. intros <-. unfold finished. rewrite String.eqb_refl. reflexivity. Qed.

(** X16. [tool.execute.after] (index.ts, lines 353-357): when a call ends, the
    list of its session holds the same items in the same order, the items
    of that call queued and every other item as it was; nothing is removed
    from the list, no running item of the session has the id of the call
    any more, the objects of the store are not written to, and the lists of
    the other sessions, the queues, the calls on the host and the outside
    stay as they were.  (The state is one in which every address is the
    address of an object, as every state of a run of the plugin is.) *)
Theorem tool_execute_after_finishes_call evt w :
  allocated w ->
  let target := te_tool evt +:+ ":" +:+ te_callID evt in
  let w' := (tool_execute_after evt w).2 in
  (tool_execute_after evt w).1 = Ok tt
  /\ items_of w' (work_of w' (te_sessionID evt))
     = map (finished target) (items_of w (work_of w (te_sessionID evt)))
  /\ length (work_of w' (te_sessionID evt))
     = length (work_of w (te_sessionID evt))
  /\ (forall item,
        item ∈ items_of w' (running_refs w' (te_sessionID evt)) ->
        id item <> target)
  /\ (forall r item, heap w !! r = Some item -> heap w' !! r = Some item)
  /\ (forall s, s <> te_sessionID evt -> work_of w' s = work_of w s)
  /\ (forall s, runtime_of w' s = runtime_of w s)
  /\ calls w' = calls w
  /\ outside w' = outside w.
Proof.
  intros Halloc. cbv zeta.
  assert (Hvalid : Forall (fun r => (r < length (heap w))%nat)
                     (work_of w (te_sessionID evt))).
  { apply Forall_forall. intros r Hr. apply (Halloc (te_sessionID evt)).
    rewrite elem_of_app. left. exact Hr. }
  destruct (tool_execute_after_run evt w Hvalid)
    as (next & new & -> & Hlen & Hnext & Hitems).
  set (w' := set_sessions _ _).
  assert (Hwork : forall s,
    work_of w' s = if decide (te_sessionID evt = s) then next else work_of w s).
  { intros s. apply (work_of_insert w' w). reflexivity. }
  assert (Hmine : work_of w' (te_sessionID evt) = next).
  { rewrite Hwork. rewrite decide_True by reflexivity. reflexivity. }
  simpl fst. simpl snd.
  split; [reflexivity|]. split.
  { rewrite Hmine. exact Hitems. }
  split; [rewrite Hmine; exact Hlen|]. split.
  { intros item Hin. unfold items_of in Hin.
    apply list_elem_of_omap in Hin as (r & Hr & Hitem).
    unfold running_refs in Hr. apply list_elem_of_In, filter_In in Hr as [Hr Hrun].
    rewrite Hitem in Hrun. rewrite Hmine in Hr.
    assert (Hmapped : item ∈ map (finished (te_tool evt +:+ ":" +:+ te_callID evt))
                               (items_of w (work_of w (te_sessionID evt)))).
    { rewrite <- Hitems. apply list_elem_of_omap. exists r. split; [|exact Hitem].
      apply list_elem_of_In. exact Hr. }
    apply list_elem_of_In, in_map_iff in Hmapped as (item0 & <- & _).
    intros Hid. rewrite finished_id in Hid.
    rewrite (finished_not_running _ _ Hid) in Hrun. discriminate. }
  split.
  { intros r item Hitem. apply lookup_app_l_Some. exact Hitem. }
  split; [|repeat split].
  intros s Hs. rewrite Hwork. rewrite decide_False by congruence. reflexivity.
Qed.

End TrackerProperties.

Section ArbitrationProperties.

Context {X : Type} `{Platform X}.

Implicit Types (w : World X) (h : Host) (evt : ChatEvent) (parts : list Part).

(** *** The early returns of the hook *)

Lemma chat_message_decide_early h evt parts w :
  running_refs w (ce_sessionID evt) = []
  \/ prompt_of parts = ""
  \/ Str.includes (prompt_of parts) CONTROL_MARKER = true ->
  chat_message_decide h evt parts w
  = (Ok None, (getSessionRuntime (ce_sessionID evt) w).2).
Proof.
  intros Hearly. unfold chat_message_decide.
  destruct (getSessionRuntime_same (ce_sessionID evt) w) as [Hrt Hsame0].
  unfold bind at 1.
  destruct (getSessionRuntime (ce_sessionID evt) w) as [r0 w0]. simpl in Hrt, Hsame0.
  subst r0. unfold bind at 1. unfold gets at 1.
  rewrite (running_refs_same _ _ _ Hsame0). simpl snd.
  destruct (running_refs w (ce_sessionID evt)) as [|r0 rest] eqn:Hactive;
    [reflexivity|]. simpl length. simpl Nat.eqb. cbv iota.
  destruct (Str.is_empty (prompt_of parts)) eqn:Hempty; [reflexivity|].
  destruct (Str.includes (prompt_of parts) CONTROL_MARKER) eqn:Hmarker;
    [reflexivity|].
  apply is_empty_false in Hempty.
  destruct Hearly as [Hno|[Hno|Hno]]; congruence.
Qed.

Lemma chat_message_decide_prompt h evt parts w (a : Arbitration) w1 :
  chat_message_decide h evt parts w = (Ok (Some a), w1) ->
  prompt_of parts <> ""
  /\ Str.includes (prompt_of parts) CONTROL_MARKER = false.
Proof.
  intros Hdecide. split.
  - intros Hempty.
    rewrite (chat_message_decide_early h evt parts w) in Hdecide by auto.
    discriminate.
  - destruct (Str.includes (prompt_of parts) CONTROL_MARKER) eqn:Hmarker;
      [|reflexivity].
    rewrite (chat_message_decide_early h evt parts w) in Hdecide by auto.
    discriminate.
Qed.

(** X17. [chat.message] (index.ts, lines 358-375): without running work in the
    session, with a message that has no text, or with a message that
    carries the control marker, the hook returns at once: the parts stay as
    they are, the judge is not resolved nor called (the outside is
    untouched, and no policy or catalog error can be thrown), and the
    tracker, the queues and the calls on the host are as before. *)
Theorem chat_message_returns_early h evt parts w :
  running_refs w (ce_sessionID evt) = []
  \/ prompt_of parts = ""
  \/ Str.includes (prompt_of parts) CONTROL_MARKER = true ->
  exists w',
    chat_message h evt parts w = (Ok parts, w')
    /\ outside w' = outside w
    /\ same_plugin w w'.
Proof.
  intros Hearly. exists (getSessionRuntime (ce_sessionID evt) w).2.
  unfold chat_message, bind.
  rewrite (chat_message_decide_early h evt parts w Hearly).
  split; [reflexivity|]. split.
  - unfold getSessionRuntime.
    destruct (sessionRuntime w !! ce_sessionID evt); reflexivity.
  - apply getSessionRuntime_same.
Qed.

(** *** The second half of the hook, for the other two decisions *)

Lemma apply_parallel_run h evt parts (a : Arbitration) w :
  action (arb_decision a) = Parallel ->
  let w2 := after_parallel (ce_sessionID evt) (arb_prompt a) (arb_decision a) w in
  chat_message_apply h evt parts a w
  = (Ok (inject parts
           (decisionText (arb_decision a)
              (formatRuntimeState w2 (runtime_of w2 (ce_sessionID evt))))),
     w2).
Proof.
  intros Haction. unfold chat_message_apply, when, is_abort, is_defer, is_parallel.
  rewrite Haction. unfold applyParallel, after_parallel, parallel_item, now_ms, outside_run.
  unfold bind, gets, ret, alloc, assign_parallel, modify. simpl.
  destruct (Date_now (outside w)) as [stamp x1]. simpl.
  destruct (Date_now x1) as [started x2]. reflexivity.
Qed.

Lemma apply_continue_run h evt parts (a : Arbitration) w :
  action (arb_decision a) = Continue ->
  chat_message_apply h evt parts a w
  = (Ok (inject parts
           (decisionText (arb_decision a)
              (formatRuntimeState w (runtime_of w (ce_sessionID evt))))),
     w).
Proof.
  intros Haction. unfold chat_message_apply, when, is_abort, is_defer, is_parallel.
  rewrite Haction. reflexivity.
Qed.

Lemma apply_defer_idle h evt parts (a : Arbitration) w :
  action (arb_decision a) = Defer ->
  head (arb_active a) ≫= (fun r0 => heap w !! r0) = None ->
  chat_message_apply h evt parts a w
  = (Ok (inject parts
           (decisionText (arb_decision a)
              (formatRuntimeState w (runtime_of w (ce_sessionID evt))))),
     w).
Proof.
  intros Haction Hhead. unfold chat_message_apply, when, is_abort, is_defer, is_parallel.
  rewrite Haction. unfold applyDefer.
  destruct (arb_active a) as [|r0 rest]; [reflexivity|]. simpl in Hhead.
  unfold bind, gets, ret. simpl. rewrite Hhead. reflexivity.
Qed.

Lemma runtime_of_insert w w0 (s s' : string) (state : SessionRuntimeState) :
  sessionRuntime w = <[s := state]> (sessionRuntime w0) ->
  runtime_of w s' = if decide (s = s') then state else runtime_of w0 s'.
Proof.
  intros Hw. unfold runtime_of. rewrite Hw. destruct (decide (s = s')) as [->|Hne].
  - rewrite lookup_insert_eq. reflexivity.
  - rewrite lookup_insert_ne by exact Hne. reflexivity.
Qed.

(** What the second half of the hook does to the plugin, whatever the
    decision: it adds at most one object to the store, leaves the tracker
    and the queues of the other sessions, and a queue of the session is
    left as it was, emptied, or given a new head and cut to 16. *)
Lemma chat_message_apply_effect h evt parts (a : Arbitration) w :
  exists parts' w2 new,
    chat_message_apply h evt parts a w = (Ok parts', w2)
    /\ sessions w2 = sessions w
    /\ heap w2 = heap w ++ new
    /\ getJudgeAuth w2 = getJudgeAuth w
    /\ (forall s, s <> ce_sessionID evt -> runtime_of w2 s = runtime_of w s)
    /\ (forall s,
          (length (deferred (runtime_of w2 s)) <= 16)%nat
          \/ deferred (runtime_of w2 s) = deferred (runtime_of w s))
    /\ (forall s,
          (length (parallel (runtime_of w2 s)) <= 16)%nat
          \/ parallel (runtime_of w2 s) = parallel (runtime_of w s))
    /\ (forall s r,
          r ∈ deferred (runtime_of w2 s) ++ parallel (runtime_of w2 s) ->
          r ∈ deferred (runtime_of w s) ++ parallel (runtime_of w s)
          \/ (r < length (heap w2))%nat).
Proof.
  destruct (action (arb_decision a)) eqn:Haction.
  - rewrite (apply_abort_run _ _ _ _ _ Haction).
    destruct (abortSession_calls h (ce_sessionID evt) w) as (issued & Hrun & _).
    do 2 eexists. exists []. split; [reflexivity|].
    set (w2 := after_abort h (ce_sessionID evt) w).
    assert (Hrt : forall s,
      runtime_of w2 s
      = if decide (ce_sessionID evt = s) then empty_runtime else runtime_of w s).
    { intros s. unfold w2, after_abort. rewrite Hrun. unfold runtime_of. simpl.
      destruct (decide (ce_sessionID evt = s)) as [->|Hne].
      - rewrite lookup_insert_eq. reflexivity.
      - rewrite !lookup_insert_ne by exact Hne. reflexivity. }
    unfold w2 at 1 2 3. unfold after_abort. rewrite Hrun. simpl.
    rewrite app_nil_r.
    split; [reflexivity|]. split; [reflexivity|]. split; [reflexivity|].
    split; [intros s Hs; rewrite Hrt, decide_False by congruence; reflexivity|].
    split; [|split].
    + intros s. rewrite Hrt. destruct (decide _); [left; simpl; lia | right; reflexivity].
    + intros s. rewrite Hrt. destruct (decide _); [left; simpl; lia | right; reflexivity].
    + intros s r. rewrite Hrt. destruct (decide _); [|left; assumption].
      simpl. intros Hr. apply elem_of_nil in Hr. contradiction.
  - destruct (head (arb_active a) ≫= (fun r0 => heap w !! r0)) as [top|] eqn:Hhead.
    2: { rewrite (apply_defer_idle _ _ _ _ _ Haction Hhead).
         do 2 eexists. exists []. rewrite app_nil_r.
         split; [reflexivity|]. repeat split; auto. }
    destruct (arb_active a) as [|r0 rest] eqn:Hactive; [discriminate|].
    simpl in Hhead.
    pose proof (apply_defer_run h evt parts a w r0 rest top Haction Hactive Hhead)
      as Hrun. cbv zeta in Hrun. rewrite Hrun.
    set (w2 := after_defer (ce_sessionID evt) top (deferUntil (arb_decision a)) w).
    do 2 eexists. exists [deferred_copy top (deferUntil (arb_decision a))].
    split; [reflexivity|].
    assert (Hrt : forall s,
      runtime_of w2 s
      = if decide (ce_sessionID evt = s)
        then {| deferred :=
                  take 16 (length (heap w)
                           :: List.filter (id_differs w top)
                                (deferred (runtime_of w (ce_sessionID evt))));
                parallel := parallel (runtime_of w (ce_sessionID evt)) |}
        else runtime_of w s).
    { intros s. apply (runtime_of_insert w2 w). reflexivity. }
    split; [reflexivity|]. split; [reflexivity|]. split; [reflexivity|].
    split; [intros s Hs; rewrite Hrt, decide_False by congruence; reflexivity|].
    split; [|split].
    + intros s. rewrite Hrt. destruct (decide _); [|right; reflexivity].
      left. cbn [deferred parallel]. rewrite length_take. lia.
    + intros s. rewrite Hrt. destruct (decide _) as [<-|]; right; reflexivity.
    + intros s r. rewrite Hrt. destruct (decide _) as [<-|]; [|left; assumption].
      cbn [deferred parallel]. rewrite !elem_of_app. intros [Hr|Hr]; [|left; right; exact Hr].
      apply subseteq_take in Hr. apply elem_of_cons in Hr as [->|Hr].
      * right. unfold w2, after_defer. simpl. rewrite length_app. simpl. lia.
      * left. left. apply list_elem_of_In, filter_In in Hr as [Hr _].
        apply list_elem_of_In. exact Hr.
  - pose proof (apply_parallel_run h evt parts a w Haction) as Hrun.
    cbv zeta in Hrun. rewrite Hrun.
    set (w2 := after_parallel (ce_sessionID evt) (arb_prompt a) (arb_decision a) w).
    assert (Hw2 : exists stamp started x2,
      w2 = set_sessionRuntime
             (<[ce_sessionID evt :=
                  {| deferred := deferred (runtime_of w (ce_sessionID evt));
                     parallel := take 16 (length (heap w)
                                          :: parallel (runtime_of w (ce_sessionID evt))) |}]>
                (sessionRuntime w))
             (set_heap (heap w ++ [parallel_item (arb_prompt a) (arb_decision a)
                                     stamp started])
                (set_outside x2 w))).
    { unfold w2, after_parallel. destruct (Date_now (outside w)) as [stamp x1].
      destruct (Date_now x1) as [started x2]. eauto. }
    destruct Hw2 as (stamp & started & x2 & Hw2).
    do 2 eexists. exists [parallel_item (arb_prompt a) (arb_decision a) stamp started].
    split; [reflexivity|].
    assert (Hrt : forall s,
      runtime_of w2 s
      = if decide (ce_sessionID evt = s)
        then {| deferred := deferred (runtime_of w (ce_sessionID evt));
                parallel := take 16 (length (heap w)
                                     :: parallel (runtime_of w (ce_sessionID evt))) |}
        else runtime_of w s).
    { intros s. apply (runtime_of_insert w2 w). rewrite Hw2. reflexivity. }
    assert (Hheap : heap w2
                    = heap w ++ [parallel_item (arb_prompt a) (arb_decision a)
                                   stamp started]).
    { rewrite Hw2. reflexivity. }
    split; [rewrite Hw2; reflexivity|]. split; [exact Hheap|].
    split; [rewrite Hw2; reflexivity|].
    split; [intros s Hs; rewrite Hrt, decide_False by congruence; reflexivity|].
    split; [|split].
    + intros s. rewrite Hrt. destruct (decide _) as [<-|]; right; reflexivity.
    + intros s. rewrite Hrt. destruct (decide _); [|right; reflexivity].
      left. cbn [deferred parallel]. rewrite length_take. lia.
    + intros s r. rewrite Hrt. destruct (decide _) as [<-|]; [|left; assumption].
      cbn [deferred parallel]. rewrite !elem_of_app. intros [Hr|Hr]; [left; left; exact Hr|].
      apply subseteq_take in Hr. apply elem_of_cons in Hr as [->|Hr].
      * right. rewrite Hheap, length_app. simpl. lia.
      * left. right. exact Hr.
  - rewrite (apply_continue_run _ _ _ _ _ Haction).
    do 2 eexists. exists []. rewrite app_nil_r.
    split; [reflexivity|]. repeat split; auto.
Qed.

Lemma chat_message_effect h evt parts w :
  let w' := (chat_message h evt parts w).2 in
  sessions w' = sessions w
  /\ (exists new, heap w' = heap w ++ new)
  /\ getJudgeAuth w' = getJudgeAuth w
  /\ (forall s, s <> ce_sessionID evt -> runtime_of w' s = runtime_of w s)
  /\ (forall s,
        (length (deferred (runtime_of w' s)) <= 16)%nat
        \/ deferred (runtime_of w' s) = deferred (runtime_of w s))
  /\ (forall s,
        (length (parallel (runtime_of w' s)) <= 16)%nat
        \/ parallel (runtime_of w' s) = parallel (runtime_of w s))
  /\ (forall s r,
        r ∈ deferred (runtime_of w' s) ++ parallel (runtime_of w' s) ->
        r ∈ deferred (runtime_of w s) ++ parallel (runtime_of w s)
        \/ (r < length (heap w'))%nat).
Proof.
  cbv zeta. unfold chat_message, bind.
  destruct (chat_message_decide h evt parts w) as [[[a|]|e] w1] eqn:Hdecide;
    destruct (chat_message_decide_inv _ _ _ _ _ _ Hdecide)
      as ((Hheap & Hsessions & Hauth & _ & Hruntime) & _).
  - destruct (chat_message_apply_effect h evt parts a w1)
      as (parts' & w2 & new & -> & Hs & Hh & Ha & Hother & Hd & Hp & Hr).
    simpl snd. split; [congruence|]. split; [exists new; congruence|].
    split; [congruence|].
    split; [intros s Hs'; rewrite (Hother s Hs'); apply Hruntime|].
    split; [intros s; rewrite <- Hruntime; apply Hd|].
    split; [intros s; rewrite <- Hruntime; apply Hp|].
    intros s r. rewrite <- Hruntime. apply Hr.
  - simpl snd. split; [exact Hsessions|].
    split; [exists []; rewrite app_nil_r; exact Hheap|]. split; [exact Hauth|].
    split; [intros s _; apply Hruntime|].
    split; [intros s; right; rewrite Hruntime; reflexivity|].
    split; [intros s; right; rewrite Hruntime; reflexivity|].
    intros s r. rewrite Hruntime. auto.
  - simpl snd. split; [exact Hsessions|].
    split; [exists []; rewrite app_nil_r; exact Hheap|]. split; [exact Hauth|].
    split; [intros s _; apply Hruntime|].
    split; [intros s; right; rewrite Hruntime; reflexivity|].
    split; [intros s; right; rewrite Hruntime; reflexivity|].
    intros s r. rewrite Hruntime. auto.
Qed.

(** X18. [chat.message] (index.ts, lines 358-437): the arbitration of a message
    of one session, whatever its outcome, changes no queue of another
    session, no list of the tracker and no object of the store; it loses
    neither the accessor of the judge credential. *)
Theorem chat_message_session_isolation h evt parts w :
  let w' := (chat_message h evt parts w).2 in
  (forall s, s <> ce_sessionID evt -> runtime_of w' s = runtime_of w s)
  /\ sessions w' = sessions w
  /\ (forall r item, heap w !! r = Some item -> heap w' !! r = Some item)
  /\ getJudgeAuth w' = getJudgeAuth w.
Proof.
  destruct (chat_message_effect h evt parts w)
    as (Hs & (new & Hh) & Ha & Hother & _).
  cbv zeta. split; [exact Hother|]. split; [exact Hs|]. split; [|exact Ha].
  intros r item Hitem. rewrite Hh. apply lookup_app_l_Some. exact Hitem.
Qed.

(** X19. [chat.message] (index.ts, lines 376-436): only an abort, a defer or a
    parallel decision changes the plugin.  When the hook throws (the policy
    blocks every candidate, the judge fails, its two answers are invalid)
    the tracker, the queues of every session and the calls on the host are
    as before; and a continue decision leaves them as they were too, and
    only puts its block into the message. *)
Theorem chat_message_changes_state_by_decision_only h evt parts w :
  (forall e w', chat_message h evt parts w = (Throw e, w') -> same_plugin w w')
  /\ (forall (a : Arbitration) w1,
        chat_message_decide h evt parts w = (Ok (Some a), w1) ->
        action (arb_decision a) = Continue ->
        chat_message h evt parts w
        = (Ok (inject parts
                 (decisionText (arb_decision a)
                    (formatRuntimeState w1 (runtime_of w1 (ce_sessionID evt))))),
           w1)
        /\ same_plugin w w1).
Proof.
  split.
  - intros e w'. unfold chat_message, bind.
    destruct (chat_message_decide h evt parts w) as [[[a|]|e1] w1] eqn:Hdecide.
    + destruct (chat_message_apply_effect h evt parts a w1)
        as (parts' & w2 & new & -> & _). discriminate.
    + discriminate.
    + intros [= <- <-]. apply (chat_message_decide_inv _ _ _ _ _ _ Hdecide).
  - intros a w1 Hdecide Haction.
    rewrite (chat_message_run _ _ _ _ _ _ Hdecide).
    rewrite (apply_continue_run _ _ _ _ _ Haction).
    split; [reflexivity|]. apply (chat_message_decide_inv _ _ _ _ _ _ Hdecide).
Qed.

Lemma running_refs_after_new w w2 (s : string) (c : ActiveWorkItem) :
  heap w2 = heap w ++ [c] ->
  sessions w2 = sessions w ->
  is_running (status c) = false ->
  running_refs w2 s = running_refs w s.
Proof.
  intros Hheap Hsessions Hidle. unfold running_refs, work_of.
  rewrite Hsessions, Hheap. apply filter_ext. intros r.
  destruct (Nat.lt_trichotomy r (length (heap w))) as [Hlt|[->|Hgt]].
  - rewrite lookup_app_l by exact Hlt. reflexivity.
  - rewrite lookup_app_r by reflexivity. rewrite Nat.sub_diag. simpl.
    rewrite Hidle. rewrite (lookup_ge_None_2 (heap w)) by reflexivity.
    reflexivity.
  - rewrite (lookup_ge_None_2 (heap w)) by lia.
    rewrite lookup_ge_None_2; [reflexivity|]. rewrite length_app. simpl. lia.
Qed.

(** X20. [chat.message] and [applyParallel] (index.ts, lines 415-417 and
    476-494): a parallel decision puts one new entry at the head of the
    parallel queue of the session and cuts the queue to 16.  The entry is
    queued, has the priority of the decision and the title lane xN: and the
    first 80 characters of the message, with the lane and the concurrency
    of the plan of the decision, or background and 1 without a plan.  The
    deferred queue, the tracker and its running items, and the calls on the
    host stay as they were: nothing is interrupted. *)
Theorem parallel_adds_entry_to_queue h evt parts w (a : Arbitration) w1 :
  chat_message_decide h evt parts w = (Ok (Some a), w1) ->
  action (arb_decision a) = Parallel ->
  exists parts' w2 stamp started,
    chat_message h evt parts w = (Ok parts', w2)
    /\ parallel (runtime_of w2 (ce_sessionID evt))
       = take 16 (length (heap w)
                  :: parallel (runtime_of w (ce_sessionID evt)))
    /\ heap w2
       = heap w ++ [parallel_item (prompt_of parts) (arb_decision a) stamp started]
    /\ (length (parallel (runtime_of w2 (ce_sessionID evt))) <= 16)%nat
    /\ deferred (runtime_of w2 (ce_sessionID evt))
       = deferred (runtime_of w (ce_sessionID evt))
    /\ sessions w2 = sessions w
    /\ running_refs w2 (ce_sessionID evt) = running_refs w (ce_sessionID evt)
    /\ calls w2 = calls w.
Proof.
  intros Hdecide Haction.
  destruct (chat_message_decide_inv _ _ _ _ _ _ Hdecide)
    as ((Hheap & Hsessions & _ & Hcalls & Hruntime) & _ & Hinv).
  destruct (Hinv a eq_refl) as (_ & _ & Hprompt & _).
  rewrite (chat_message_run _ _ _ _ _ _ Hdecide).
  pose proof (apply_parallel_run h evt parts a w1 Haction) as Hrun.
  cbv zeta in Hrun. rewrite Hrun. clear Hrun.
  unfold after_parallel.
  destruct (Date_now (outside w1)) as [stamp x1].
  destruct (Date_now x1) as [started x2].
  set (w2 := set_sessionRuntime _ _).
  exists (inject parts
            (decisionText (arb_decision a)
               (formatRuntimeState w2 (runtime_of w2 (ce_sessionID evt))))),
         w2, stamp, started.
  split; [reflexivity|].
  assert (Hq : runtime_of w2 (ce_sessionID evt)
               = {| deferred := deferred (runtime_of w (ce_sessionID evt));
                    parallel :=
                      take 16 (length (heap w)
                               :: parallel (runtime_of w (ce_sessionID evt))) |}).
  { unfold w2. unfold runtime_of at 1. simpl. rewrite lookup_insert_eq. simpl.
    rewrite Hruntime, Hheap. reflexivity. }
  assert (Hh2 : heap w2
                = heap w ++ [parallel_item (prompt_of parts) (arb_decision a)
                               stamp started]).
  { unfold w2. simpl. rewrite Hheap, Hprompt. reflexivity. }
  rewrite Hq. cbn [deferred parallel].
  split; [reflexivity|]. split; [exact Hh2|].
  split; [rewrite length_take; lia|]. split; [reflexivity|].
  split; [exact Hsessions|]. split; [|exact Hcalls].
  apply (running_refs_after_new w w2 _ _ Hh2 Hsessions). reflexivity.
Qed.

(** X21. [tool.execute.before], [chat.message] and [applyDefer] (index.ts, lines
    342-352, 412-414 and 457-474): a defer decision defers the tool call
    that started last.  When a call of a tool has started and the next
    message of its session is arbitrated with a defer decision, the head of
    the deferred queue is a blocked copy of the item of that call: its id
    is tool:callID, its title the name of the tool (with the suffix of the
    decision), its priority the one [classifyPriority] gave. *)
Theorem defer_takes_latest_call h (call : ToolEvent) evt parts w
  (a : Arbitration) w2 :
  ce_sessionID evt = te_sessionID call ->
  chat_message_decide h evt parts (tool_execute_before call w).2
  = (Ok (Some a), w2) ->
  action (arb_decision a) = Defer ->
  exists parts' w3 copy rest now,
    chat_message h evt parts (tool_execute_before call w).2 = (Ok parts', w3)
    /\ deferred (runtime_of w3 (te_sessionID call)) = copy :: rest
    /\ heap w3 !! copy
       = Some {| id := te_tool call +:+ ":" +:+ te_callID call;
                 title := defer_marker (started_item call now)
                            (deferUntil (arb_decision a));
                 status := Blocked;
                 item_priority := classifyPriority (te_tool call);
                 startedAt := toISOString now |}
    /\ title (started_item call now) = te_tool call.
Proof.
  intros Hsession Hdecide Haction.
  destruct (chat_message_decide_inv _ _ _ _ _ _ Hdecide)
    as ((Hheap & Hsessions & _ & _ & Hruntime) & _ & Hinv).
  destruct (Hinv a eq_refl) as (Hactive & _).
  rewrite (chat_message_run _ _ _ _ _ _ Hdecide).
  set (now := (Date_now (outside w)).1).
  assert (Hw1 : (tool_execute_before call w).2
                = set_sessions
                    (<[te_sessionID call :=
                         take 16 (length (heap w)
                                  :: work_of w (te_sessionID call))]>
                       (sessions w))
                    (set_heap (heap w ++ [started_item call now])
                       (set_outside (Date_now (outside w)).2 w))).
  { rewrite tool_execute_before_run. reflexivity. }
  set (w1 := (tool_execute_before call w).2) in *.
  assert (Hheap1 : heap w1 = heap w ++ [started_item call now]).
  { rewrite Hw1. reflexivity. }
  assert (Hwork1 : work_of w1 (te_sessionID call)
                   = take 16 (length (heap w) :: work_of w (te_sessionID call))).
  { rewrite (work_of_insert w1 w (te_sessionID call) (te_sessionID call)
               (take 16 (length (heap w) :: work_of w (te_sessionID call))))
      by (rewrite Hw1; reflexivity).
    rewrite decide_True by reflexivity. reflexivity. }
  assert (Hrefs : exists rest, arb_active a = length (heap w) :: rest).
  { rewrite Hactive, Hsession. unfold running_refs. rewrite Hwork1, Hheap1.
    simpl. rewrite lookup_app_r by reflexivity. rewrite Nat.sub_diag. simpl.
    eauto. }
  destruct Hrefs as [others Hrefs].
  assert (Htop : heap w2 !! length (heap w) = Some (started_item call now)).
  { rewrite Hheap, Hheap1. rewrite lookup_app_r by reflexivity.
    rewrite Nat.sub_diag. reflexivity. }
  pose proof (apply_defer_run h evt parts a w2 (length (heap w)) others
                (started_item call now) Haction Hrefs Htop) as Hrun.
  cbv zeta in Hrun. rewrite Hrun. clear Hrun.
  set (w3 := after_defer (ce_sessionID evt) (started_item call now)
               (deferUntil (arb_decision a)) w2).
  assert (Hq : deferred (runtime_of w3 (te_sessionID call))
               = take 16 (length (heap w2)
                          :: List.filter (id_differs w2 (started_item call now))
                               (deferred (runtime_of w2 (ce_sessionID evt))))).
  { rewrite <- Hsession. unfold w3, after_defer. unfold runtime_of at 1. simpl.
    rewrite lookup_insert_eq. reflexivity. }
  do 2 eexists. exists (length (heap w2)). eexists. exists now.
  split; [reflexivity|]. split; [rewrite Hq; reflexivity|].
  split; [|reflexivity].
  unfold w3, after_defer. simpl. rewrite lookup_app_r by reflexivity.
  rewrite Nat.sub_diag. reflexivity.
Qed.

(** *** The invariant of the lists *)

Lemma same_lists_healthy w w' :
  heap w' = heap w ->
  sessions w' = sessions w ->
  (forall s, runtime_of w' s = runtime_of w s) ->
  bounded w /\ allocated w -> bounded w' /\ allocated w'.
Proof.
  intros Hheap Hsessions Hruntime [Hb Ha].
  assert (Hwork : forall s, work_of w' s = work_of w s).
  { intros s. unfold work_of. rewrite Hsessions. reflexivity. }
  split.
  - intros s. rewrite Hwork, Hruntime. apply Hb.
  - intros s r. rewrite Hwork, Hruntime, Hheap. apply Ha.
Qed.

Lemma open_machina_decide_same h (args : JValue) w :
  same_plugin w (open_machina_decide h args w).2.
Proof.
  unfold open_machina_decide.
  destruct (Json.get args "input") as [[| | | |items|members]|];
    try apply same_plugin_refl.
  - unfold bind at 1. unfold gets at 1. unfold bind at 1. unfold lift at 1.
    destruct (resolveJudgeRuntime h (getJudgeAuth w) _) as [[judge|]|e];
      try apply same_plugin_refl.
    unfold bind at 1.
    pose proof (decideOrchestration_outside (JArray items) judge w) as [Hsame _].
    destruct (decideOrchestration _ _ _ w) as [[d|e] w2]; exact Hsame.
  - unfold bind at 1. unfold gets at 1. unfold bind at 1. unfold lift at 1.
    destruct (resolveJudgeRuntime h (getJudgeAuth w) _) as [[judge|]|e];
      try apply same_plugin_refl.
    unfold bind at 1.
    pose proof (decideOrchestration_outside (JObject members) judge w) as [Hsame _].
    destruct (decideOrchestration _ _ _ w) as [[d|e] w2]; exact Hsame.
Qed.

Lemma open_machina_workspace_same (input : PluginInput) (ctx : ToolContext) w :
  same_plugin w (open_machina_workspace input ctx w).2.
Proof.
  unfold open_machina_workspace.
  destruct (getSessionRuntime_same (tc_sessionID ctx) w) as [Hrt Hsame].
  unfold bind at 1.
  destruct (getSessionRuntime (tc_sessionID ctx) w) as [r0 w0]. simpl in Hrt, Hsame.
  subst r0. exact Hsame.
Qed.

Lemma plugin_step_healthy h w w' :
  plugin_step h w w' -> bounded w /\ allocated w -> bounded w' /\ allocated w'.
Proof.
  intros Hstep [Hb Ha].
  destruct Hstep as [evt w|evt w|evt parts w|args w|input ctx w|getAuth w].
  - rewrite tool_execute_before_run. set (w' := set_sessions _ _). simpl snd.
    assert (Hwork : forall s,
      work_of w' s
      = if decide (te_sessionID evt = s)
        then take 16 (length (heap w) :: work_of w (te_sessionID evt))
        else work_of w s).
    { intros s. apply (work_of_insert w' w). reflexivity. }
    assert (Hheap : length (heap w') = S (length (heap w))).
    { unfold w'. simpl. rewrite length_app. simpl. lia. }
    split.
    + intros s. rewrite Hwork.
      change (runtime_of w' s) with (runtime_of w s).
      destruct (Hb s) as (H1 & H2 & H3).
      split; [|split; assumption].
      destruct (decide _); [rewrite length_take; lia | exact H1].
    + intros s r. rewrite Hwork, Hheap.
      change (runtime_of w' s) with (runtime_of w s).
      rewrite elem_of_app. intros [Hr|Hr].
      * destruct (decide _) as [<-|].
        -- apply subseteq_take in Hr. apply elem_of_cons in Hr as [->|Hr]; [lia|].
           specialize (Ha (te_sessionID evt) r). rewrite elem_of_app in Ha.
           specialize (Ha (or_introl Hr)). lia.
        -- specialize (Ha s r). rewrite elem_of_app in Ha.
           specialize (Ha (or_introl Hr)). lia.
      * specialize (Ha s r). rewrite elem_of_app in Ha.
        specialize (Ha (or_intror Hr)). lia.
  - assert (Hvalid : Forall (fun r => (r < length (heap w))%nat)
                       (work_of w (te_sessionID evt))).
    { apply Forall_forall. intros r Hr. apply (Ha (te_sessionID evt)).
      rewrite elem_of_app. left. exact Hr. }
    destruct (tool_execute_after_run evt w Hvalid)
      as (next & new & -> & Hlen & Hnext & _).
    set (w' := set_sessions _ _). simpl snd.
    assert (Hwork : forall s,
      work_of w' s = if decide (te_sessionID evt = s) then next else work_of w s).
    { intros s. apply (work_of_insert w' w). reflexivity. }
    assert (Hheap : heap w' = heap w ++ new) by reflexivity.
    split.
    + intros s. rewrite Hwork.
      change (runtime_of w' s) with (runtime_of w s).
      destruct (Hb s) as (H1 & H2 & H3).
      split; [|split; assumption].
      destruct (decide _) as [<-|]; [rewrite Hlen; apply Hb | exact H1].
    + intros s r. rewrite Hwork, Hheap, length_app.
      change (runtime_of w' s) with (runtime_of w s).
      rewrite elem_of_app. intros [Hr|Hr].
      * destruct (decide _) as [<-|].
        -- rewrite Forall_forall in Hnext. specialize (Hnext r Hr).
           rewrite length_app in Hnext. exact Hnext.
        -- specialize (Ha s r). rewrite elem_of_app in Ha.
           specialize (Ha (or_introl Hr)). lia.
      * specialize (Ha s r). rewrite elem_of_app in Ha.
        specialize (Ha (or_intror Hr)). lia.
  - destruct (chat_message_effect h evt parts w)
      as (Hs & (new & Hh) & _ & _ & Hd & Hp & Hr).
    cbv zeta in *. set (w' := (chat_message h evt parts w).2) in *.
    assert (Hwork : forall s, work_of w' s = work_of w s).
    { intros s. unfold work_of. rewrite Hs. reflexivity. }
    split.
    + intros s. rewrite Hwork. destruct (Hb s) as (H1 & H2 & H3).
      split; [exact H1|]. split.
      * destruct (Hd s) as [Hle|Heq]; [exact Hle | rewrite Heq; exact H2].
      * destruct (Hp s) as [Hle|Heq]; [exact Hle | rewrite Heq; exact H3].
    + intros s r. rewrite Hwork. rewrite elem_of_app. intros [Hin|Hin].
      * specialize (Ha s r). rewrite elem_of_app in Ha.
        specialize (Ha (or_introl Hin)). rewrite Hh, length_app. lia.
      * destruct (Hr s r Hin) as [Hold|Hnew]; [|exact Hnew].
        specialize (Ha s r). rewrite elem_of_app in Ha.
        specialize (Ha (or_intror Hold)). rewrite Hh, length_app. lia.
  - destruct (open_machina_decide_same h args w) as (H1 & H2 & _ & _ & H3).
    apply (same_lists_healthy w); auto.
  - destruct (open_machina_workspace_same input ctx w) as (H1 & H2 & _ & _ & H3).
    apply (same_lists_healthy w); auto.
  - apply (same_lists_healthy w); auto.
Qed.

Lemma initial_healthy w : initial w -> bounded w /\ allocated w.
Proof.
  intros (Hheap & Hsessions & Hruntime & _).
  assert (Hwork : forall s, work_of w s = []).
  { intros s. unfold work_of. rewrite Hsessions, lookup_empty. reflexivity. }
  assert (Hrt : forall s, runtime_of w s = empty_runtime).
  { intros s. unfold runtime_of. rewrite Hruntime, lookup_empty. reflexivity. }
  split.
  - intros s. rewrite Hwork, Hrt. simpl. lia.
  - intros s r. rewrite Hwork, Hrt. simpl. intros Hr.
    apply elem_of_nil in Hr. contradiction.
Qed.

(** X22. [OpenMachinaPlugin] (index.ts, lines 237-442): in every run of the
    plugin, whatever is called of its hooks (tool.execute.before,
    tool.execute.after, chat.message), of the loader of its auth provider
    and of its tools that see the state (open_machina_decide,
    open_machina_workspace), in whatever order and with whatever outcome,
    the list of the work items of each session and the two queues of each
    session never hold more than 16 entries, and every entry is an object
    of the store. *)
Theorem plugin_lists_stay_bounded h w w' :
  initial w ->
  rtc (plugin_step h) w w' ->
  bounded w' /\ allocated w'.
Proof.
  intros Hinit Hrun. apply initial_healthy in Hinit.
  induction Hrun as [w|w w1 w2 Hstep _ IH]; [exact Hinit|].
  apply IH. exact (plugin_step_healthy h w w1 Hstep Hinit).
Qed.


End ArbitrationProperties.

(** *** The control marker in the message the hook leaves *)

Lemma prefix_rest_app (needle rest : list ascii) :
  Str.prefix_rest needle (needle ++ rest) = Some rest.
Proof.
  induction needle as [|c needle IH]; simpl; [reflexivity|].
  rewrite Ascii.eqb_refl. exact IH.
Qed.

Lemma includes_at_unfold (needle hay : list ascii) :
  Str.includes_at needle hay
  = match Str.prefix_rest needle hay with
    | Some _ => true
    | None =>
        match hay with
        | [] => false
        | _ :: hay' => Str.includes_at needle hay'
        end
    end.
Proof. destruct hay; reflexivity. Qed.

Lemma includes_at_app (needle before rest : list ascii) :
  Str.includes_at needle (before ++ needle ++ rest) = true.
Proof.
  induction before as [|c before IH]; rewrite includes_at_unfold.
  - simpl app. rewrite prefix_rest_app. reflexivity.
  - simpl app. destruct (Str.prefix_rest needle _); [reflexivity | exact IH].
Qed.

Lemma strip_keeps_head (fwd : bool) (c : ascii) (r : list ascii) :
  Str.ws1 c = false -> (Str.code c < 128)%N ->
  Str.strip fwd (c :: r) = c :: r.
Proof.
  intros Hws Hlow. simpl. rewrite Hws.
  destruct r as [|c2 r2]; [reflexivity|].
  destruct (if fwd then Str.ws2 c c2 else Str.ws2 c2 c) eqn:H2.
  { destruct fwd; apply ws2_high in H2; lia. }
  destruct r2 as [|c3 r3]; [reflexivity|].
  destruct (if fwd then Str.ws3 c c2 c3 else Str.ws3 c3 c2 c) eqn:H3;
    [|reflexivity].
  destruct fwd; apply ws3_high in H3; lia.
Qed.

Lemma removed_before (removed kept before after : list ascii) (c : ascii) :
  removed ++ kept = before ++ c :: after ->
  Forall removable removed ->
  ~ removable c ->
  exists before', kept = before' ++ c :: after.
Proof.
  revert before. induction removed as [|x removed IH]; intros before Heq Hall Hc.
  - exists before. exact Heq.
  - inversion Hall as [|? ? Hx Hrest]; subst.
    destruct before as [|y before]; simpl in Heq.
    + injection Heq as -> _. contradiction.
    + injection Heq as _ Heq. exact (IH before Heq Hrest Hc).
Qed.

(** [trim] keeps a text that starts with an ASCII character that is no
    white space, up to any such character in it. *)
Lemma trim_keeps (c0 c : ascii) (before after : list ascii) :
  Str.ws1 c0 = false -> (Str.code c0 < 128)%N ->
  Str.ws1 c = false -> (Str.code c < 128)%N ->
  exists after',
    Str.chars (Str.trim (Str.pack (c0 :: before ++ c :: after)))
    = c0 :: before ++ c :: after'.
Proof.
  intros Hws0 Hlow0 Hws Hlow. unfold Str.trim. rewrite !chars_pack.
  rewrite (strip_keeps_head true c0 _ Hws0 Hlow0).
  destruct (strip_decompose false (rev (c0 :: before ++ c :: after)))
    as (removed & Heq & Hall).
  assert (Hrev : rev (c0 :: before ++ c :: after)
                 = rev after ++ c :: rev (c0 :: before)).
  { change (c0 :: before ++ c :: after) with ((c0 :: before) ++ c :: after).
    rewrite rev_app_distr. simpl. rewrite <- !app_assoc. reflexivity. }
  rewrite Hrev in Heq at 1.
  destruct (removed_before removed _ (rev after) (rev (c0 :: before)) c
              (eq_sym Heq) Hall) as (kept & Hkept).
  { intros [Hw|Hh]; [congruence | lia]. }
  exists (rev kept). rewrite Hkept. rewrite rev_app_distr. simpl.
  rewrite rev_app_distr, rev_involutive. simpl. rewrite <- !app_assoc.
  reflexivity.
Qed.

Lemma shape_with_tail {A} (c0 c : A) (before m middle tail' tail : list A) :
  (c0 :: before ++ m ++ middle ++ c :: tail') ++ tail
  = c0 :: (before ++ m ++ middle) ++ c :: tail' ++ tail.
Proof. simpl. rewrite <- !app_assoc. reflexivity. Qed.

Lemma shape_around {A} (c0 c : A) (before m middle kept : list A) :
  c0 :: (before ++ m ++ middle) ++ c :: kept
  = (c0 :: before) ++ m ++ (middle ++ c :: kept).
Proof. simpl. rewrite <- !app_assoc. reflexivity. Qed.

Section MarkerProperties.

Context {X : Type} `{Platform X}.

Implicit Types (w : World X) (h : Host) (evt : ChatEvent) (parts : list Part).

Lemma formatRuntimeState_marker w (state : SessionRuntimeState) :
  exists rest, formatRuntimeState w state = CONTROL_MARKER +:+ rest.
Proof.
  unfold formatRuntimeState. destruct (_ && _); eexists; reflexivity.
Qed.

(** The decision block, followed by the separator of [inject], starts with
    an opening bracket and holds the control marker before a hyphen. *)
Lemma block_chars (decision : OrchestrationDecision) (rest original : string) :
  exists before after,
    Str.chars (decisionText decision (CONTROL_MARKER +:+ rest)
               +:+ Str.nl +:+ Str.nl +:+ "---" +:+ Str.nl +:+ Str.nl +:+ original)
    = "["%char :: (before ++ Str.chars CONTROL_MARKER ++ after)
    /\ exists middle tail, after = middle ++ "-"%char :: tail.
Proof.
  unfold decisionText. cbn [Str.join].
  exists (Str.chars ("OPEN-MACHINA ORCHESTRATION DECISION]" +:+ Str.nl
                     +:+ ("action=" +:+ action_name (action decision)) +:+ Str.nl
                     +:+ ("priority=" +:+ priority_name (priority decision)) +:+ Str.nl
                     +:+ ("confidence=" +:+ Number_toString (confidence decision))
                     +:+ Str.nl
                     +:+ ("reason=" +:+ reason decision) +:+ Str.nl)).
  exists (Str.chars (rest +:+ Str.nl +:+ Str.nl +:+ "---" +:+ Str.nl +:+ Str.nl
                     +:+ original)).
  split.
  - change "[OPEN-MACHINA ORCHESTRATION DECISION]"
      with ("[" +:+ "OPEN-MACHINA ORCHESTRATION DECISION]").
    rewrite !chars_app. change (Str.chars "[") with ["["%char].
    rewrite <- !app_assoc. reflexivity.
  - exists (Str.chars rest ++ Str.chars Str.nl ++ Str.chars Str.nl),
           (Str.chars ("--" +:+ Str.nl +:+ Str.nl +:+ original)).
    change "---" with ("-" +:+ "--"). rewrite !chars_app.
    change (Str.chars "-") with ["-"%char]. rewrite <- !app_assoc. reflexivity.
Qed.

Lemma no_text_part parts :
  list_find (fun part => part_type part = "text") parts = None ->
  prompt_of parts = "".
Proof.
  intros Hnone. unfold prompt_of.
  assert (Hall : omap (fun part =>
                         if String.eqb (part_type part) "text" then part_text part
                         else None) parts = []).
  { rewrite list_find_None in Hnone.
    induction Hnone as [|p l Hp Hl IH]; [reflexivity|]. csimpl.
    destruct (String.eqb_spec (part_type p) "text"); [contradiction | exact IH]. }
  rewrite Hall. reflexivity.
Qed.

Lemma inject_texts parts (block : string) (index : nat) (part : Part) :
  list_find (fun part => part_type part = "text") parts = Some (index, part) ->
  exists rest,
    omap text_of (inject parts block)
    = (block +:+ Str.nl +:+ Str.nl +:+ "---" +:+ Str.nl +:+ Str.nl
       +:+ default "" (part_text part)) :: rest.
Proof.
  intros Hfind. unfold inject. rewrite Hfind.
  apply list_find_Some in Hfind as (Hlookup & _ & Hbefore).
  rewrite (insert_take_drop parts index)
    by (apply lookup_lt_Some in Hlookup; exact Hlookup).
  rewrite omap_app.
  assert (Hnone : omap text_of (take index parts) = []).
  { assert (Hall : Forall (fun p => part_type p <> "text") (take index parts)).
    { apply Forall_forall. intros p Hp.
      apply list_elem_of_lookup in Hp as [j Hj].
      pose proof (lookup_lt_Some _ _ _ Hj) as Hlt. rewrite length_take in Hlt.
      rewrite lookup_take_lt in Hj by lia.
      apply (Hbefore j p Hj). lia. }
    induction Hall as [|p l Hp Hl IH]; [reflexivity|]. csimpl. unfold text_of at 1.
    destruct (String.eqb_spec (part_type p) "text"); [contradiction | exact IH]. }
  rewrite Hnone. eexists. reflexivity.
Qed.

Lemma injected_prompt_has_marker parts (decision : OrchestrationDecision)
  w (state : SessionRuntimeState) :
  prompt_of parts <> "" ->
  Str.includes
    (prompt_of (inject parts (decisionText decision (formatRuntimeState w state))))
    CONTROL_MARKER = true.
Proof.
  intros Hprompt.
  destruct (list_find (fun part => part_type part = "text") parts)
    as [[index part]|] eqn:Hfind.
  2: { apply no_text_part in Hfind. contradiction. }
  destruct (formatRuntimeState_marker w state) as [rest ->].
  destruct (inject_texts parts (decisionText decision (CONTROL_MARKER +:+ rest))
              index part Hfind) as [others Htexts].
  unfold prompt_of. fold text_of. rewrite Htexts.
  destruct (join_first_chars Str.nl
              (decisionText decision (CONTROL_MARKER +:+ rest)
               +:+ Str.nl +:+ Str.nl +:+ "---" +:+ Str.nl +:+ Str.nl
               +:+ default "" (part_text part)) others) as [tail Hjoin].
  destruct (block_chars decision rest (default "" (part_text part)))
    as (before & after & Hblock & middle & tail' & ->).
  rewrite Hblock in Hjoin.
  unfold Str.includes.
  rewrite <- (pack_chars (Str.join Str.nl _)). rewrite Hjoin.
  destruct (trim_keeps "[" "-"
              (before ++ Str.chars CONTROL_MARKER ++ middle) (tail' ++ tail))
    as [kept Hkept]; try reflexivity.
  rewrite shape_with_tail, Hkept, shape_around.
  apply (includes_at_app (Str.chars CONTROL_MARKER) ("["%char :: before)).
Qed.

Lemma chat_message_apply_parts h evt parts (a : Arbitration) w :
  exists (wf : World X) state w2,
    chat_message_apply h evt parts a w
    = (Ok (inject parts
             (decisionText (arb_decision a) (formatRuntimeState wf state))),
       w2).
Proof.
  destruct (action (arb_decision a)) eqn:Haction.
  - rewrite (apply_abort_run _ _ _ _ _ Haction).
    exists w, empty_runtime. eexists. reflexivity.
  - destruct (head (arb_active a) ≫= (fun r0 => heap w !! r0)) as [top|] eqn:Hhead.
    2: { rewrite (apply_defer_idle _ _ _ _ _ Haction Hhead). eauto. }
    destruct (arb_active a) as [|r0 rest] eqn:Hactive; [discriminate|].
    simpl in Hhead.
    pose proof (apply_defer_run h evt parts a w r0 rest top Haction Hactive Hhead)
      as Hrun. cbv zeta in Hrun. rewrite Hrun. eauto.
  - pose proof (apply_parallel_run h evt parts a w Haction) as Hrun.
    cbv zeta in Hrun. rewrite Hrun. eauto.
  - rewrite (apply_continue_run _ _ _ _ _ Haction). eauto.
Qed.

(** X24. [chat.message] (index.ts, lines 373-375 and 419-436): the hook never
    arbitrates its own output.  The message it leaves after a decision,
    whatever the decision, carries the control marker in its text; given to
    the hook again, on any session and in any state, it comes back
    unchanged, without a call of the judge and without a change of the
    tracker, the queues or the calls on the host. *)
Theorem arbitrated_message_is_not_arbitrated_again h evt parts w
  (a : Arbitration) w1 :
  chat_message_decide h evt parts w = (Ok (Some a), w1) ->
  exists parts' w2,
    chat_message h evt parts w = (Ok parts', w2)
    /\ length parts' = length parts
    /\ Str.includes (prompt_of parts') CONTROL_MARKER = true
    /\ forall h' evt' w3,
         exists w4,
           chat_message h' evt' parts' w3 = (Ok parts', w4)
           /\ outside w4 = outside w3
           /\ same_plugin w3 w4.
Proof.
  intros Hdecide.
  destruct (chat_message_decide_prompt _ _ _ _ _ _ Hdecide) as [Hprompt _].
  rewrite (chat_message_run _ _ _ _ _ _ Hdecide).
  destruct (chat_message_apply_parts h evt parts a w1) as (wf & state & w2 & ->).
  do 2 eexists. split; [reflexivity|].
  pose proof (injected_prompt_has_marker parts (arb_decision a) wf state Hprompt)
    as Hmarker.
  split.
  { unfold inject. destruct (list_find _ parts) as [[index part]|]; [|reflexivity].
    apply length_insert. }
  split; [exact Hmarker|].
  intros h' evt' w3. exists (getSessionRuntime (ce_sessionID evt') w3).2.
  unfold chat_message, bind.
  rewrite (chat_message_decide_early h' evt' _ w3) by auto.
  split; [reflexivity|]. split; [|apply getSessionRuntime_same].
  unfold getSessionRuntime.
  destruct (sessionRuntime w3 !! ce_sessionID evt'); reflexivity.
Qed.

End MarkerProperties.

(** ** The registration of the plugin *)

Lemma isPluginMode_Some (value : string) (m : PluginMode) :
  isPluginMode value = Some m <-> value = mode_name m.
Proof.
  unfold isPluginMode. split.
  - destruct (String.eqb_spec value "local") as [->|?]; [intros [= <-]; reflexivity|].
    destruct (String.eqb_spec value "dev") as [->|?]; [intros [= <-]; reflexivity|].
    destruct (String.eqb_spec value "prod") as [->|?]; [intros [= <-]; reflexivity|].
    discriminate.
  - intros ->. destruct m; reflexivity.
Qed.

(** X25. [getPluginStatus] and [resolvePluginRegistration] (index.ts, lines
    159-235): with readable defaults, the mode is MACHINA_PLUGIN_MODE when
    that is set and not empty, whatever the defaults say, and the mode of
    the defaults otherwise; a mode that is none of local, dev and prod, and
    also a failure to read the defaults, is reported as INVALID_MODE.  In
    the mode prod the plugin counts as loaded without any look at the
    files.  In the modes local and dev it is loaded exactly when the entry
    file exists, and the file that is looked for is MACHINA_PLUGIN_PATH as
    it is written, when that is set and not blank, and the resolved entry
    of the mode otherwise.  An override is the resolved entry in every
    mode, also in prod. *)
Theorem getPluginStatus_by_mode (inst : Installation)
  (vars : gmap string string) :
  (defaults_exists inst = false ->
   exists message hint,
     getPluginStatus inst vars = StatusError CONFIG_NOT_FOUND message hint None)
  /\ (defaults_exists inst = true ->
      (forall e, defaults_json inst = Throw e ->
         exists hint,
           getPluginStatus inst vars = StatusError INVALID_MODE e hint None)
      /\ forall config,
           defaults_json inst = Ok config ->
           let mode :=
             match vars !! "MACHINA_PLUGIN_MODE" with
             | Some v => if Str.is_empty v then plugin_mode config else v
             | None => plugin_mode config
             end in
           ((forall m, mode <> mode_name m) ->
            exists message hint,
              getPluginStatus inst vars
              = StatusError INVALID_MODE message hint None)
           /\ forall m,
                mode = mode_name m ->
                let registration (resolved : string) :=
                  {| reg_mode := m;
                     reg_name := plugin_name config;
                     reg_source := source (plugin_modes config m);
                     reg_entry := entry (plugin_modes config m);
                     resolvedEntry := Some resolved |} in
                (forall path,
                   override_path vars = Some path ->
                   vars !! "MACHINA_PLUGIN_PATH" = Some path
                   /\ resolvePluginRegistration inst vars = Ok (registration path)
                   /\ (m = ModeProd ->
                       getPluginStatus inst vars = Loaded (registration path))
                   /\ (m <> ModeProd ->
                       (file_exists inst path = true ->
                        getPluginStatus inst vars = Loaded (registration path))
                       /\ (file_exists inst path = false ->
                           exists message hint,
                             getPluginStatus inst vars
                             = StatusError PLUGIN_NOT_FOUND message hint
                                 (Some (registration path)))))
                /\ (override_path vars = None ->
                    (m = ModeProd ->
                     getPluginStatus inst vars
                     = Loaded (registration (entry (plugin_modes config m))))
                    /\ (m <> ModeProd ->
                        (forall e,
                           entry_path inst (entry (plugin_modes config m)) = Throw e ->
                           exists hint,
                             getPluginStatus inst vars
                             = StatusError INVALID_MODE e hint None)
                        /\ forall path,
                             entry_path inst (entry (plugin_modes config m)) = Ok path ->
                             (file_exists inst path = true ->
                              getPluginStatus inst vars = Loaded (registration path))
                             /\ (file_exists inst path = false ->
                                 exists message hint,
                                   getPluginStatus inst vars
                                   = StatusError PLUGIN_NOT_FOUND message hint
                                       (Some (registration path)))))).
Proof.
  split.
  { intros Hno. unfold getPluginStatus. rewrite Hno. simpl. eauto. }
  intros Hyes. split.
  { intros e He. unfold getPluginStatus, resolvePluginRegistration.
    rewrite Hyes, He. simpl. eauto. }
  intros config Hconfig mode.
  assert (Hmode : default (plugin_mode config)
                    (truthy (vars !! "MACHINA_PLUGIN_MODE")) = mode).
  { unfold mode, truthy. destruct (vars !! "MACHINA_PLUGIN_MODE") as [v|];
      [|reflexivity]. destruct (Str.is_empty v); reflexivity. }
  split.
  { intros Hinvalid. unfold getPluginStatus, resolvePluginRegistration.
    rewrite Hyes, Hconfig. cbv zeta. rewrite Hmode. simpl negb. cbv iota.
    destruct (isPluginMode mode) as [m|] eqn:Hm.
    - apply isPluginMode_Some in Hm. exfalso. exact (Hinvalid m Hm).
    - eauto. }
  intros m Hm registration.
  assert (Hrec : isPluginMode mode = Some m) by (apply isPluginMode_Some; exact Hm).
  split.
  - intros path Hpath.
    assert (Hreg : resolvePluginRegistration inst vars = Ok (registration path)).
    { unfold resolvePluginRegistration. rewrite Hconfig. cbv zeta.
      rewrite Hmode, Hrec, Hpath. reflexivity. }
    split.
    { revert Hpath. unfold override_path.
      destruct (truthy (vars !! "MACHINA_PLUGIN_PATH")) as [p|] eqn:Hp;
        [|discriminate].
      destruct (Str.is_empty (Str.trim p)); [discriminate|].
      intros [= <-]. apply truthy_Some in Hp. tauto. }
    split; [exact Hreg|]. unfold getPluginStatus. rewrite Hyes, Hreg.
    simpl negb. cbv iota. split.
    + intros ->. reflexivity.
    + intros Hnot. destruct m; try congruence; simpl.
      * split; intros Hfile; rewrite Hfile; simpl; eauto.
      * split; intros Hfile; rewrite Hfile; simpl; eauto.
  - intros Hnone. split.
    + intros ->. unfold getPluginStatus, resolvePluginRegistration.
      rewrite Hyes, Hconfig. cbv zeta. rewrite Hmode, Hrec, Hnone. reflexivity.
    + intros Hnot. split.
      * intros e He. unfold getPluginStatus, resolvePluginRegistration.
        rewrite Hyes, Hconfig. cbv zeta. rewrite Hmode, Hrec, Hnone.
        destruct m; try congruence; rewrite He; simpl; eauto.
      * intros path Hpath.
        assert (Hreg : resolvePluginRegistration inst vars = Ok (registration path)).
        { unfold resolvePluginRegistration. rewrite Hconfig. cbv zeta.
          rewrite Hmode, Hrec, Hnone.
          destruct m; try congruence; rewrite Hpath; reflexivity. }
        unfold getPluginStatus. rewrite Hyes, Hreg. simpl negb. cbv iota.
        destruct m; try congruence; simpl.
        -- split; intros Hfile; rewrite Hfile; simpl; eauto.
        -- split; intros Hfile; rewrite Hfile; simpl; eauto.
Qed.

(** The mode of the environment wins over the one of the defaults, and an
    override is checked as it is written. *)
Example getPluginStatus_override :
  let inst := {| defaults_exists := true;
                 defaults_json :=
                   Ok {| plugin_name := "open-machina";
                         plugin_mode := "prod";
                         plugin_modes := fun m =>
                           {| source := mode_name m;
                              entry := "dist/" +:+ mode_name m +:+ ".js" |} |};
                 defaults_pathname := "/repo/config/defaults.json";
                 entry_path := fun e => Ok ("/repo/" +:+ e);
                 file_exists := fun p => String.eqb p "/repo/dist/local.js" |} in
  getPluginStatus inst {[ "MACHINA_PLUGIN_MODE" := "local" ]}
  = Loaded {| reg_mode := ModeLocal;
              reg_name := "open-machina";
              reg_source := "local";
              reg_entry := "dist/local.js";
              resolvedEntry := Some "/repo/dist/local.js" |}
  /\ (exists message hint registration,
        getPluginStatus inst {[ "MACHINA_PLUGIN_MODE" := "local";
                                "MACHINA_PLUGIN_PATH" := " /tmp/plugin.js" ]}
        = StatusError PLUGIN_NOT_FOUND message hint (Some registration)
        /\ resolvedEntry registration = Some " /tmp/plugin.js")
  /\ (exists message hint,
        getPluginStatus inst {[ "MACHINA_PLUGIN_MODE" := "staging" ]}
        = StatusError INVALID_MODE message hint None
        /\ message = Str.quoted "Invalid MACHINA_PLUGIN_MODE 'staging'. Expected one of: local, dev, prod.").
Proof.
  cbv zeta. split; [vm_compute; reflexivity|]. split.
  - do 3 eexists. split; vm_compute; reflexivity.
  - do 2 eexists. split; vm_compute; reflexivity.
Qed.

(** ** The scenarios of the further properties *)

Lemma started_world_healthy : bounded Cases.started_world /\ allocated Cases.started_world.
Proof.
  apply (plugin_step_healthy (Scenario.judge_host false false false)
           (Scenario.fresh_world [])).
  - apply step_tool_execute_before.
  - apply initial_healthy. repeat split.
Qed.

(** The call of index.test.ts ends: its item is queued. *)
Lemma tool_execute_after_finishes_call_witness :
  allocated Cases.started_world
  /\ items_of (tool_execute_after Cases.workflow_call Cases.started_world).2
       (work_of (tool_execute_after Cases.workflow_call Cases.started_world).2 "s-2")
     = [{| id := "workflow.run:c-1";
           title := "workflow.run";
           status := Queued;
           item_priority := High;
           startedAt := "1770804000000" |}].
Proof.
  split; [apply started_world_healthy|].
  destruct (tool_execute_after_finishes_call Cases.workflow_call
              Cases.started_world (proj2 started_world_healthy))
    as (_ & Hitems & _).
  etransitivity; [exact Hitems|]. vm_compute. reflexivity.
Defined.

(** A message with the control marker, on a session with running work and
    a configured judge: nothing happens. *)
Lemma chat_message_returns_early_witness :
  Str.includes (prompt_of Cases.marked_parts) CONTROL_MARKER = true
  /\ exists w',
       chat_message (Scenario.judge_host true false false) (Scenario.chat "s-1")
         Cases.marked_parts Scenario.abort_world
       = (Ok Cases.marked_parts, w')
       /\ outside w' = outside Scenario.abort_world
       /\ same_plugin Scenario.abort_world w'.
Proof.
  split; [vm_compute; reflexivity|].
  apply (chat_message_returns_early (Scenario.judge_host true false false)
           (Scenario.chat "s-1") Cases.marked_parts Scenario.abort_world).
  right. right. vm_compute. reflexivity.
Defined.

(** index.test.ts, the parallel decision: one running item, the plan
    background with concurrency 2. *)
Lemma parallel_adds_entry_to_queue_witness :
  chat_message_decide (Scenario.judge_host false false false)
    (Scenario.chat "s-2") Cases.parallel_parts Cases.parallel_world
  = (Ok (Some Cases.parallel_arbitration),
     (chat_message_decide (Scenario.judge_host false false false)
        (Scenario.chat "s-2") Cases.parallel_parts Cases.parallel_world).2)
  /\ action (arb_decision Cases.parallel_arbitration) = Parallel
  /\ (exists parts' w2 stamp started,
        chat_message (Scenario.judge_host false false false)
          (Scenario.chat "s-2") Cases.parallel_parts Cases.parallel_world
        = (Ok parts', w2)
        /\ parallel (runtime_of w2 "s-2")
           = take 16 (length (heap Cases.parallel_world)
                      :: parallel (runtime_of Cases.parallel_world "s-2"))
        /\ heap w2
           = heap Cases.parallel_world
             ++ [parallel_item (prompt_of Cases.parallel_parts)
                   (arb_decision Cases.parallel_arbitration) stamp started]
        /\ (length (parallel (runtime_of w2 "s-2")) <= 16)%nat
        /\ deferred (runtime_of w2 "s-2")
           = deferred (runtime_of Cases.parallel_world "s-2")
        /\ sessions w2 = sessions Cases.parallel_world
        /\ running_refs w2 "s-2" = running_refs Cases.parallel_world "s-2"
        /\ calls w2 = calls Cases.parallel_world)
  /\ title <$> items_of
       (chat_message (Scenario.judge_host false false false)
          (Scenario.chat "s-2") Cases.parallel_parts Cases.parallel_world).2
       (parallel
          (runtime_of
             (chat_message (Scenario.judge_host false false false)
                (Scenario.chat "s-2") Cases.parallel_parts Cases.parallel_world).2
             "s-2"))
     = ["background x2: also execute another branch in parallel"].
Proof.
  split; [vm_compute; reflexivity|]. split; [reflexivity|].
  split; [|vm_compute; reflexivity].
  apply (parallel_adds_entry_to_queue (Scenario.judge_host false false false)
           (Scenario.chat "s-2") Cases.parallel_parts Cases.parallel_world
           Cases.parallel_arbitration
           (chat_message_decide (Scenario.judge_host false false false)
              (Scenario.chat "s-2") Cases.parallel_parts Cases.parallel_world).2).
  - vm_compute. reflexivity.
  - reflexivity.
Defined.

(** A tool call starts and a message is arbitrated: the lists are
    bounded. *)
Lemma plugin_lists_stay_bounded_witness :
  initial (Scenario.fresh_world [Scenario.defer_answer])
  /\ rtc (plugin_step (Scenario.judge_host false false false))
       (Scenario.fresh_world [Scenario.defer_answer]) Cases.after_two_calls
  /\ bounded Cases.after_two_calls
  /\ allocated Cases.after_two_calls.
Proof.
  assert (Hinit : initial (Scenario.fresh_world [Scenario.defer_answer])).
  { repeat split. }
  assert (Hrun : rtc (plugin_step (Scenario.judge_host false false false))
                   (Scenario.fresh_world [Scenario.defer_answer])
                   Cases.after_two_calls).
  { eapply rtc_l; [apply (step_tool_execute_before _ Cases.workflow_call)|].
    eapply rtc_l; [|apply rtc_refl].
    apply (step_chat_message _ (Scenario.chat "s-2") Scenario.defer_parts). }
  split; [exact Hinit|]. split; [exact Hrun|].
  exact (plugin_lists_stay_bounded _ _ _ Hinit Hrun).
Defined.

(** index.test.ts, the abort decision: the message the hook leaves carries
    the marker and is not arbitrated again. *)
Lemma arbitrated_message_is_not_arbitrated_again_witness :
  chat_message_decide (Scenario.judge_host true false false)
    (Scenario.chat "s-1") Scenario.stop_parts Scenario.abort_world
  = (Ok (Some Scenario.abort_arbitration),
     (chat_message_decide (Scenario.judge_host true false false)
        (Scenario.chat "s-1") Scenario.stop_parts Scenario.abort_world).2)
  /\ exists parts' w2,
       chat_message (Scenario.judge_host true false false)
         (Scenario.chat "s-1") Scenario.stop_parts Scenario.abort_world
       = (Ok parts', w2)
       /\ length parts' = length Scenario.stop_parts
       /\ Str.includes (prompt_of parts') CONTROL_MARKER = true
       /\ forall h' evt' (w3 : World (list string)),
            exists w4,
              chat_message h' evt' parts' w3 = (Ok parts', w4)
              /\ outside w4 = outside w3
              /\ same_plugin w3 w4.
Proof.
  split; [vm_compute; reflexivity|].
  apply (arbitrated_message_is_not_arbitrated_again
           (Scenario.judge_host true false false)
           (Scenario.chat "s-1") Scenario.stop_parts Scenario.abort_world
           Scenario.abort_arbitration
           (chat_message_decide (Scenario.judge_host true false false)
              (Scenario.chat "s-1") Scenario.stop_parts Scenario.abort_world).2).
  vm_compute. reflexivity.
Defined.

(** index.test.ts: the call workflow.run starts and the message is deferred
    until 2099: the head of the deferred queue is the copy of that call. *)
Lemma defer_takes_latest_call_witness :
  ce_sessionID (Scenario.chat "s-2") = te_sessionID Cases.workflow_call
  /\ chat_message_decide (Scenario.judge_host false false false)
       (Scenario.chat "s-2") Scenario.defer_parts
       (tool_execute_before Cases.workflow_call
          (Scenario.fresh_world [Scenario.defer_answer])).2
     = (Ok (Some Scenario.defer_arbitration),
        (chat_message_decide (Scenario.judge_host false false false)
           (Scenario.chat "s-2") Scenario.defer_parts
           (tool_execute_before Cases.workflow_call
              (Scenario.fresh_world [Scenario.defer_answer])).2).2)
  /\ action (arb_decision Scenario.defer_arbitration) = Defer
  /\ (exists parts' w3 copy rest now,
        chat_message (Scenario.judge_host false false false)
          (Scenario.chat "s-2") Scenario.defer_parts
          (tool_execute_before Cases.workflow_call
             (Scenario.fresh_world [Scenario.defer_answer])).2
        = (Ok parts', w3)
        /\ deferred (runtime_of w3 (te_sessionID Cases.workflow_call))
           = copy :: rest
        /\ heap w3 !! copy
           = Some {| id := te_tool Cases.workflow_call +:+ ":"
                           +:+ te_callID Cases.workflow_call;
                     title := defer_marker (started_item Cases.workflow_call now)
                                (deferUntil (arb_decision Scenario.defer_arbitration));
                     status := Blocked;
                     item_priority := classifyPriority (te_tool Cases.workflow_call);
                     startedAt := toISOString now |}
        /\ title (started_item Cases.workflow_call now)
           = te_tool Cases.workflow_call)
  /\ title <$> items_of Cases.after_two_calls
                 (deferred (runtime_of Cases.after_two_calls "s-2"))
     = ["workflow.run (until 2099-01-01T00:00:00.000Z)"].
Proof.
  split; [reflexivity|]. split; [vm_compute; reflexivity|].
  split; [reflexivity|]. split; [|vm_compute; reflexivity].
  apply (defer_takes_latest_call (Scenario.judge_host false false false)
           Cases.workflow_call (Scenario.chat "s-2") Scenario.defer_parts
           (Scenario.fresh_world [Scenario.defer_answer])
           Scenario.defer_arbitration
           (chat_message_decide (Scenario.judge_host false false false)
              (Scenario.chat "s-2") Scenario.defer_parts
              (tool_execute_before Cases.workflow_call
                 (Scenario.fresh_world [Scenario.defer_answer])).2).2).
  - reflexivity.
  - vm_compute. reflexivity.
  - reflexivity.
Defined.
